(** * CheckboxTree: the tree-state reconciliation engine

    A shallow embedding of the reconciliation code of the CheckboxTree
    component (createStatefulTree, applyPropsToStatefulTree,
    createIsLeafVisible, isActiveSearch, isFiltered and the useTreeState
    controller), together with the properties the specification states
    about them.

    Conventions of the embedding:
    - a JavaScript object that is compared with [===] carries an explicit
      reference ([ref]); allocating an object draws a fresh reference from
      an allocation counter that is threaded through the code;
    - an optional boolean ([boolean | undefined]) is an [option bool],
      [None] standing for [undefined], read through [truthy] where the
      source tests it;
    - a JavaScript [Set<string>] is the list of its elements in insertion
      order;
    - [console.warn] appends to a log. *)

From Stdlib Require Import List String Bool Arith Lia.
Import ListNotations.
Local Open Scope string_scope.
Local Open Scope list_scope.
Local Open Scope nat_scope.
Local Open Scope bool_scope.

#[global] Set Warnings "-register-all".

Set Implicit Arguments.

(* ================================================================== *)
(** ** JavaScript values used by the engine *)

Module Js.

(** [boolean | undefined] *)
Definition obool := option bool.

Definition truthy (v : obool) : bool :=
  match v with Some true => true | _ => false end.

(** [a && b] where [b] is a boolean: the left operand when it is falsy. *)
Definition and (a : obool) (b : bool) : obool :=
  match a with Some true => Some b | _ => a end.

(** [a !== b] *)
Definition neq (a b : obool) : bool :=
  match a, b with
  | Some x, Some y => negb (Bool.eqb x y)
  | None, None => false
  | _, _ => true
  end.

(** [Set<string>], insertion ordered. *)
Definition set := list string.

Definition has (s : set) (x : string) : bool := existsb (String.eqb x) s.

Definition add (s : set) (x : string) : set :=
  if has s x then s else s ++ [x].

(** [new Set(array)]; [new Set(undefined)] is the empty set. *)
Definition set_of (l : list string) : set := fold_left add l [].

(** [Array.from(set)] *)
Definition array_from (s : set) : list string := s.

End Js.

(* ================================================================== *)
(** ** Trees *)

(** A node with a label and an ordered sequence of children. *)
Inductive Tree (A : Type) : Type :=
| Tr (label : A) (children : list (Tree A)).

Arguments Tr {A} label children.

Definition label {A} (t : Tree A) : A := match t with Tr a _ => a end.
Definition children {A} (t : Tree A) : list (Tree A) :=
  match t with Tr _ cs => cs end.

(** The node itself followed by all of its descendants, in pre-order. *)
Fixpoint subtrees {A} (t : Tree A) : list (Tree A) :=
  match t with
  | Tr _ cs => t :: flat_map subtrees cs
  end.

(** The node reached by following child indexes from the root. *)
Fixpoint at_path {A} (p : list nat) (t : Tree A) : option (Tree A) :=
  match p with
  | [] => Some t
  | i :: p' =>
      match nth_error (children t) i with
      | Some c => at_path p' c
      | None => None
      end
  end.

(** The nodes met on the way down a path, the end point included. *)
Fixpoint nodes_along {A} (p : list nat) (t : Tree A) : list (Tree A) :=
  t :: match p with
       | [] => []
       | i :: p' =>
           match nth_error (children t) i with
           | Some c => nodes_along p' c
           | None => []
           end
       end.

(** The caller's tree: opaque data read through [getNodeId] and
    [getNodeChildren]. *)
Definition RawNode := Tree string.

Definition getNodeId (n : RawNode) : string := label n.
Definition getNodeChildren (n : RawNode) : list RawNode := children n.

(** Modelled from the spec: [isLeaf] of SelectTree/Utils, "true iff
    children(node) is empty". *)
Definition isLeaf {A} (getChildren : A -> list A) (node : A) : bool :=
  match getChildren node with [] => true | _ :: _ => false end.

(** Modelled from the spec: [getLeaves] of SelectTree/Utils, "all leaf
    descendants in traversal order". *)
Fixpoint getLeaves (n : RawNode) : list RawNode :=
  match n with
  | Tr _ [] => [n]
  | Tr _ cs => flat_map getLeaves cs
  end.

(** Modelled from the spec: [addOrRemove] of SelectTree/Utils, the toggle
    that "returns a new ordered collection with id removed if present, else
    appended; preserves relative order of the remaining elements". *)
Definition addOrRemove (ids : list string) (id : string) : list string :=
  if Js.has ids id
  then filter (fun x => negb (String.eqb x id)) ids
  else ids ++ [id].

(* ================================================================== *)
(** ** State threaded through a traversal *)

Definition St (S A : Type) : Type := S -> A * S.

Definition ret {S A} (a : A) : St S A := fun s => (a, s).

Definition bind {S A B} (m : St S A) (k : A -> St S B) : St S B :=
  fun s => let (a, s1) := m s in k a s1.

Notation "x <- m ;; k" := (bind m (fun x => k))
  (at level 61, m at next level, right associativity).

Fixpoint mapM {S A B} (f : A -> St S B) (l : list A) : St S (list B) :=
  match l with
  | [] => ret []
  | a :: l' => b <- f a ;; bs <- mapM f l' ;; ret (b :: bs)
  end.

(** Modelled from the spec: [mapStructure] of SelectTree/Utils, "post-order
    transform - recursively maps every child first, then calls
    f(node, mappedChildren) to build the node's replacement".  The mapping
    function of the source allocates objects and updates a set, so the
    traversal threads a state. *)
Fixpoint mapStructure {S A U} (mapFn : Tree A -> list U -> St S U)
    (root : Tree A) : St S U :=
  match root with
  | Tr _ cs =>
      mappedChildren <-
        (fix mapChildren (l : list (Tree A)) : St S (list U) :=
           match l with
           | [] => ret []
           | c :: l' =>
               b <- mapStructure mapFn c ;;
               bs <- mapChildren l' ;;
               ret (b :: bs)
           end) cs ;;
      mapFn root mappedChildren
  end.

(* ================================================================== *)
(** ** The stateful tree *)

Record NodeState : Type := mkState {
  isSelected : Js.obool;
  isVisible : bool;
  isIndeterminate : Js.obool;
  isExpanded : Js.obool
}.

(** A stateful node is the caller's node (spread into a new object) with a
    state object and its stateful children; [ref] is the identity of the
    object. *)
Record Annot : Type := mkAnnot {
  ref : nat;
  raw : RawNode;
  expandableTreeState : NodeState
}.

Definition StatefulNode := Tree Annot.

Definition getStatefulChildren (node : StatefulNode) : list StatefulNode :=
  children node.

Definition getNodeState (node : StatefulNode) : NodeState :=
  expandableTreeState (label node).

(** The accessors of the caller read the fields spread from the raw node. *)
Definition nodeId (node : StatefulNode) : string := getNodeId (raw (label node)).
Definition nodeIsLeaf (node : StatefulNode) : bool :=
  isLeaf getNodeChildren (raw (label node)).

Definition getInitialNodeState (node : RawNode) : NodeState :=
  if isLeaf getNodeChildren node
  then mkState (Some false) true None None
  else mkState (Some false) true (Some false) (Some false).

(** [createStatefulTree]: one new object per node of the raw tree. *)
Definition createStatefulTree (root : RawNode) : St nat StatefulNode :=
  mapStructure
    (fun node mappedChildren next =>
       (Tr (mkAnnot next node (getInitialNodeState node)) mappedChildren,
        S next))
    root.

(* ================================================================== *)
(** ** Search activity *)

Definition isFiltered (searchTerm : string)
    (isAdditionalFilterApplied : Js.obool) : bool :=
  (0 <? String.length searchTerm) || Js.truthy isAdditionalFilterApplied.

Definition isActiveSearch (isAdditionalFilterApplied : Js.obool)
    (isSearchable : bool) (searchTerm : string) : bool :=
  isSearchable && isFiltered searchTerm isAdditionalFilterApplied.

(* ================================================================== *)
(** ** Reconciliation *)

Record MapState : Type := mkMapState {
  next : nat;
  generatedExpandedList : Js.set
}.

(** What the loop over the children of a branch gathers. *)
Record Found : Type := mkFound {
  modifyThisNode : bool;
  selectedChildFound : bool;
  unselectedChildFound : bool;
  indeterminateChildFound : bool;
  visibleChildFound : bool
}.

(** One iteration of the loop of [mapFunction]. *)
Definition inspectChild (oldChild newChild : StatefulNode) (f : Found) : Found :=
  let newChildState := getNodeState newChild in
  mkFound
    (if Nat.eqb (ref (label newChild)) (ref (label oldChild))
     then modifyThisNode f else true)
    (if Js.truthy (isSelected newChildState)
     then true else selectedChildFound f)
    (if Js.truthy (isSelected newChildState)
     then unselectedChildFound f else true)
    (if Js.truthy (isIndeterminate newChildState)
     then true else indeterminateChildFound f)
    (if isVisible newChildState then true else visibleChildFound f).

(** [for (i = 0; i < oldChildren.length; i++)] reading [mappedChildren[i]];
    [mapStructure] always passes as many mapped children as the node has
    stateful children. *)
Fixpoint inspectChildren (oldChildren mappedChildren : list StatefulNode)
    (f : Found) : Found :=
  match oldChildren, mappedChildren with
  | oldChild :: olds, newChild :: news =>
      inspectChildren olds news (inspectChild oldChild newChild f)
  | _, _ => f
  end.

Section MapFunction.

Variable isSelectable : Js.obool.
Variable isSearchable : bool.
Variable isMultiPick : Js.obool.
Variable searchTerm : string.
Variable isAdditionalFilterApplied : Js.obool.
Variable isLeafVisible : string -> bool.
Variable expansionListProvided : bool.
Variable selectedSet : Js.set.
Variable expandedSet : Js.set.

(** [Object.assign({}, node, {children, state})]: a new object. *)
Definition replaceNode (node : StatefulNode)
    (mappedChildren : list StatefulNode) (newState : NodeState)
  : St MapState StatefulNode :=
  fun s =>
    (Tr (mkAnnot (next s) (raw (label node)) newState) mappedChildren,
     mkMapState (S (next s)) (generatedExpandedList s)).

Definition noteExpanded (id : string) : St MapState unit :=
  fun s => (tt, mkMapState (next s) (Js.add (generatedExpandedList s) id)).

Definition leafSelected (id : string) : Js.obool :=
  Js.and isSelectable (Js.has selectedSet id).

Definition branchSelected (f : Found) : bool :=
  negb (indeterminateChildFound f) && negb (unselectedChildFound f).

Definition branchIndeterminate (f : Found) : bool :=
  negb (branchSelected f) &&
  (indeterminateChildFound f || selectedChildFound f).

Definition branchExpanded (id : string) (f : Found) : bool :=
  (isActiveSearch isAdditionalFilterApplied isSearchable searchTerm
     && visibleChildFound f)
  || (if expansionListProvided then Js.has expandedSet id
      else indeterminateChildFound f
           || (selectedChildFound f
               && (negb (Js.truthy isMultiPick) || unselectedChildFound f))).

Definition mapFunction (node : StatefulNode)
    (mappedChildren : list StatefulNode) : St MapState StatefulNode :=
  let id := nodeId node in
  let old := getNodeState node in
  if nodeIsLeaf node then
    let newIsSelected := leafSelected id in
    let newIsVisible := isLeafVisible id in
    if Js.neq newIsSelected (isSelected old)
       || negb (Bool.eqb newIsVisible (isVisible old))
    then replaceNode node mappedChildren
           (mkState newIsSelected newIsVisible
                    (isIndeterminate old) (isExpanded old))
    else ret node
  else
    let f := inspectChildren (getStatefulChildren node) mappedChildren
               (mkFound false false false false false) in
    let newIsSelected := branchSelected f in
    let newIsIndeterminate := branchIndeterminate f in
    let newIsVisible := visibleChildFound f in
    let newIsExpanded := branchExpanded id f in
    _ <- (if negb expansionListProvided && newIsExpanded
          then noteExpanded id else ret tt) ;;
    if modifyThisNode f
       || Js.neq (Some newIsSelected) (isSelected old)
       || Js.neq (Some newIsIndeterminate) (isIndeterminate old)
       || Js.neq (Some newIsExpanded) (isExpanded old)
       || negb (Bool.eqb newIsVisible (isVisible old))
    then replaceNode node mappedChildren
           (mkState (Some newIsSelected) newIsVisible
                    (Some newIsIndeterminate) (Some newIsExpanded))
    else ret node.

Definition reconcile (root : StatefulNode) : St MapState StatefulNode :=
  mapStructure mapFunction root.

End MapFunction.

Record World : Type := mkWorld {
  nextRef : nat;
  console : list string
}.

Record Reconciled : Type := mkReconciled {
  expandedList : list string;
  statefulTree : StatefulNode
}.

Definition singlePickWarning : string :=
  "CheckboxTree: isMultiPick = false, but more than one item selected.  Ignoring all but first item.".

(** The selected list after the single-pick trim, with the diagnostics the
    trim writes. *)
Definition trimSelected (isMultiPick : Js.obool) (selectedList : list string)
  : list string * list string :=
  match selectedList with
  | first :: _ :: _ =>
      if negb (Js.truthy isMultiPick)
      then ([first], [singlePickWarning])
      else (selectedList, [])
  | _ => (selectedList, [])
  end.

(** [propsExpandedList != null ? propsExpandedList : stateExpandedList] *)
Definition chosenExpandedList (propsExpandedList stateExpandedList : option (list string))
  : option (list string) :=
  match propsExpandedList with
  | Some l => Some l
  | None => stateExpandedList
  end.

Definition isProvided (l : option (list string)) : bool :=
  match l with Some _ => true | None => false end.

Definition orEmpty (l : option (list string)) : list string :=
  match l with Some l => l | None => [] end.

(** The traversal of [applyPropsToStatefulTree], with the final value of
    its local [generatedExpandedList]. *)
Definition applyPropsRun
    (root : StatefulNode)
    (isSelectable : Js.obool) (isSearchable : bool) (isMultiPick : Js.obool)
    (searchTerm : string) (selectedList : list string)
    (propsExpandedList : option (list string))
    (isAdditionalFilterApplied : Js.obool)
    (isLeafVisible : string -> bool)
    (stateExpandedList : option (list string))
    (w : World) : StatefulNode * MapState :=
  let selectedList := fst (trimSelected isMultiPick selectedList) in
  let expandedList := chosenExpandedList propsExpandedList stateExpandedList in
  reconcile isSelectable isSearchable isMultiPick searchTerm
    isAdditionalFilterApplied isLeafVisible
    (isProvided expandedList)
    (Js.set_of selectedList) (Js.set_of (orEmpty expandedList))
    root (mkMapState (nextRef w) []).

Definition applyPropsToStatefulTree
    (root : StatefulNode)
    (isSelectable : Js.obool) (isSearchable : bool) (isMultiPick : Js.obool)
    (searchTerm : string) (selectedList : list string)
    (propsExpandedList : option (list string))
    (isAdditionalFilterApplied : Js.obool)
    (isLeafVisible : string -> bool)
    (stateExpandedList : option (list string))
    (w : World) : Reconciled * World :=
  let expandedList := chosenExpandedList propsExpandedList stateExpandedList in
  let (newStatefulTree, s) :=
    applyPropsRun root isSelectable isSearchable isMultiPick searchTerm
      selectedList propsExpandedList isAdditionalFilterApplied isLeafVisible
      stateExpandedList w in
  (mkReconciled
     (Js.array_from (if isProvided expandedList
                     then Js.set_of (orEmpty expandedList)
                     else generatedExpandedList s))
     newStatefulTree,
   mkWorld (next s)
           (console w ++ snd (trimSelected isMultiPick selectedList))).

(* ================================================================== *)
(** ** Leaf visibility *)

Section Visibility.

(** [parseSearchQueryString] of SelectTree/Utils turns the search term
    into the terms handed to the caller's predicate. *)
Variable parseSearchQueryString : string -> list string.

Variable searchPredicate : RawNode -> list string -> bool.

(** [!filteredList || (filteredList && filteredSet.has(nodeId))] *)
Definition passesFilter (filteredList : option (list string))
    (filteredSet : Js.set) (id : string) : bool :=
  match filteredList with
  | None => true
  | Some _ => Js.has filteredSet id
  end.

Fixpoint addVisibleLeaves (searchTerms : list string)
    (filteredList : option (list string)) (filteredSet : Js.set)
    (node : RawNode) (parentMatches : bool) (visibleLeaves : Js.set)
  : Js.set :=
  let nodeId := getNodeId node in
  let nodeMatches :=
    if parentMatches then parentMatches
    else searchPredicate node searchTerms in
  if isLeaf getNodeChildren node then
    if nodeMatches then
      if passesFilter filteredList filteredSet nodeId
      then Js.add visibleLeaves nodeId
      else visibleLeaves
    else visibleLeaves
  else
    fold_left
      (fun visible child =>
         addVisibleLeaves searchTerms filteredList filteredSet
           child nodeMatches visible)
      (getNodeChildren node) visibleLeaves.

Definition createIsLeafVisible (tree : RawNode) (searchTerm : string)
    (isAdditionalFilterApplied : Js.obool) (isSearchable : bool)
    (filteredList : option (list string)) : string -> bool :=
  if negb (isActiveSearch isAdditionalFilterApplied isSearchable searchTerm)
     && negb (isProvided filteredList)
  then fun _ => true
  else
    let visibleLeaves :=
      addVisibleLeaves (parseSearchQueryString searchTerm) filteredList
        (Js.set_of (orEmpty filteredList)) tree false [] in
    fun nodeId => Js.has visibleLeaves nodeId.

End Visibility.

(* ================================================================== *)
(** ** The debounced controller ([useTreeState]) *)

Module Props.
Record t : Type := mk {
  tree : RawNode;
  searchTerm : string;
  searchPredicate : RawNode -> list string -> bool;
  isAdditionalFilterApplied : Js.obool;
  isSearchable : bool;
  isSelectable : Js.obool;
  isMultiPick : Js.obool;
  selectedList : list string;
  expandedList : option (list string);
  filteredList : option (list string)
}.
End Props.

Record TreeState : Type := mkTreeState {
  isLeafVisible : string -> bool;
  generated : Reconciled
}.

Fixpoint RawNode_eqb (a b : RawNode) : bool :=
  match a, b with
  | Tr x xs, Tr y ys =>
      String.eqb x y &&
      (fix all2 (l : list RawNode) (m : list RawNode) : bool :=
         match l, m with
         | [], [] => true
         | c :: l', d :: m' => RawNode_eqb c d && all2 l' m'
         | _, _ => false
         end) xs ys
  end.

Section Controller.

Variable parseSearchQueryString : string -> list string.

(** [makeTreeState], closed over the props and the memoized stateful
    tree of one render. *)
Definition makeTreeState (statefulTree : StatefulNode) (p : Props.t)
  : St World TreeState :=
  fun w =>
    let isLeafVisible :=
      createIsLeafVisible parseSearchQueryString (Props.searchPredicate p)
        (Props.tree p) (Props.searchTerm p)
        (Props.isAdditionalFilterApplied p) (Props.isSearchable p)
        (Props.filteredList p) in
    let (generatedTreeState, w') :=
      applyPropsToStatefulTree statefulTree (Props.isSelectable p)
        (Props.isSearchable p) (Props.isMultiPick p) (Props.searchTerm p)
        (Props.selectedList p) (Props.expandedList p)
        (Props.isAdditionalFilterApplied p) isLeafVisible None w in
    (mkTreeState isLeafVisible generatedTreeState, w').

(** A timer set by [setTimeout(performUpdate, 250)]: the time at which it
    fires and what [performUpdate] closes over. *)
Record Timer : Type := mkTimer {
  fireAt : nat;
  timerTree : StatefulNode;
  timerProps : Props.t
}.

Record Hook : Type := mkHook {
  props : Props.t;
  memoTree : StatefulNode;
  treeState : TreeState;
  pending : option Timer;
  clock : nat;
  world : World
}.

Definition debounceDelay : nat := 250.

(** [performUpdate]: [setTreeState(makeTreeState())]. *)
Definition performUpdate (tree : StatefulNode) (p : Props.t) (h : Hook) : Hook :=
  let (ts, w) := makeTreeState tree p (world h) in
  mkHook (props h) (memoTree h) ts (pending h) (clock h) w.

(** The body of the effect, run for the props of the current render. *)
Definition runEffect (h : Hook) : Hook :=
  if 0 <? String.length (Props.searchTerm (props h)) then
    mkHook (props h) (memoTree h) (treeState h)
      (Some (mkTimer (clock h + debounceDelay) (memoTree h) (props h)))
      (clock h) (world h)
  else performUpdate (memoTree h) (props h) h.

(** The cleanup returned by the previous run of the effect:
    [clearTimeout(timerId)]; a run that returned no cleanup left no
    timer. *)
Definition cancel (h : Hook) : Hook :=
  mkHook (props h) (memoTree h) (treeState h) None (clock h) (world h).

(** The first render: the memoized stateful tree, the initial value of
    the state, then the effect. *)
Definition mount (p : Props.t) (w : World) : Hook :=
  let (statefulTree, n) := createStatefulTree (Props.tree p) (nextRef w) in
  let (ts, w') := makeTreeState statefulTree p (mkWorld n (console w)) in
  runEffect (mkHook p statefulTree ts None 0 w').

(** A render with new props: [useMemo] rebuilds the stateful tree when the
    caller's tree changed (its identity is read as structural equality
    here). *)
Definition render (p' : Props.t) (h : Hook) : Hook :=
  let (statefulTree, n) :=
    if RawNode_eqb (Props.tree p') (Props.tree (props h))
    then (memoTree h, nextRef (world h))
    else createStatefulTree (Props.tree p') (nextRef (world h)) in
  mkHook p' statefulTree (treeState h) (pending h) (clock h)
    (mkWorld n (console (world h))).

(** A render whose inputs changed: the previous effect is cleaned up and
    the effect runs again, whichever input it was that changed. *)
Definition inputChange (p' : Props.t) (h : Hook) : Hook :=
  runEffect (cancel (render p' h)).

(** Time passes; a pending timer whose delay has run out fires. *)
Definition elapse (d : nat) (h : Hook) : Hook :=
  let now := clock h + d in
  let h' := mkHook (props h) (memoTree h) (treeState h) (pending h) now
              (world h) in
  match pending h with
  | Some tm =>
      if fireAt tm <=? now
      then performUpdate (timerTree tm) (timerProps tm)
             (mkHook (props h) (memoTree h) (treeState h) None now (world h))
      else h'
  | None => h'
  end.

(** The render pass on its own.  [useMemo] keeps the stateful tree while
    [tree] is the object of the render before: [sameTree] tells whether it
    is, and an object that is the same has the same nodes.  The pass returns
    the state as it is; the effect runs afterwards. *)
Definition renderBy (sameTree : bool) (p' : Props.t) (h : Hook) : Hook :=
  let (statefulTree, n) :=
    if sameTree && RawNode_eqb (Props.tree p') (Props.tree (props h))
    then (memoTree h, nextRef (world h))
    else createStatefulTree (Props.tree p') (nextRef (world h)) in
  mkHook p' statefulTree (treeState h) (pending h) (clock h)
    (mkWorld n (console (world h))).

(** The hook between a render and its effect.  [lastEffect] is [Some (q, t)]
    while the effect of the latest render has not run: the effect in force,
    with its cleanup and its timer, is then still the one of the render
    before, which closed over the props [q] and the memoized tree [t]. *)
Record Component : Type := mkComponent {
  hook : Hook;
  lastEffect : option (Props.t * StatefulNode)
}.

(** The effect that is due, if any, with the cleanup of the one before. *)
Definition runEffects (c : Component) : Hook :=
  match lastEffect c with
  | Some _ => runEffect (cancel (hook c))
  | None => hook c
  end.

(** What can happen to a mounted component: a render with changed inputs
    (effects that are due run before a new render starts), the effects of
    the latest render, or time passing. *)
Inductive Action : Type :=
| Rerender (sameTree : bool) (p : Props.t)
| Effects
| Pause (d : nat).

Definition act (c : Component) (a : Action) : Component :=
  match a with
  | Rerender sameTree p =>
      let h := runEffects c in
      mkComponent (renderBy sameTree p h) (Some (props h, memoTree h))
  | Effects => mkComponent (runEffects c) None
  | Pause d => mkComponent (elapse d (hook c)) (lastEffect c)
  end.

Definition acts (l : list Action) (c : Component) : Component :=
  fold_left act l c.

(** The first render, before its effect: the memoized stateful tree and the
    initial value of the state. *)
Definition mounted (p : Props.t) (w : World) : Component :=
  let (statefulTree, n) := createStatefulTree (Props.tree p) (nextRef w) in
  let (ts, w') := makeTreeState statefulTree p (mkWorld n (console w)) in
  mkComponent (mkHook p statefulTree ts None 0 w') (Some (p, statefulTree)).

End Controller.

(* ================================================================== *)
(** * Vocabulary of the specification *)

Fixpoint tmap {A B} (f : A -> B) (t : Tree A) : Tree B :=
  match t with
  | Tr a cs => Tr (f a) (map (tmap f) cs)
  end.

(** The caller's data under a stateful tree, position by position. *)
Definition skeleton (t : StatefulNode) : Tree RawNode := tmap raw t.

(** The proper descendants of a node. *)
Definition descendants {A} (t : Tree A) : list (Tree A) :=
  flat_map subtrees (children t).

Definition refOf (n : StatefulNode) : nat := ref (label n).

(** Every object of the tree was allocated before the counter reached [k]. *)
Definition refsBelow (k : nat) (t : StatefulNode) : Prop :=
  Forall (fun n => refOf n < k) (subtrees t).

(** A stateful node has stateful children exactly when the caller's node
    has children, as in every tree built by [createStatefulTree]. *)
Definition wellFormed (t : StatefulNode) : Prop :=
  Forall (fun n => nodeIsLeaf n = isLeaf getStatefulChildren n) (subtrees t).

Definition selectedNode (n : StatefulNode) : bool :=
  Js.truthy (isSelected (getNodeState n)).
Definition indeterminateNode (n : StatefulNode) : bool :=
  Js.truthy (isIndeterminate (getNodeState n)).
Definition visibleNode (n : StatefulNode) : bool :=
  isVisible (getNodeState n).

(** The four aggregates over the children of a branch. *)
Definition found (kids : list StatefulNode) : Found :=
  mkFound false
    (existsb selectedNode kids)
    (existsb (fun c => negb (selectedNode c)) kids)
    (existsb indeterminateNode kids)
    (existsb visibleNode kids).

(** Whether some mapped child is another object than the child it replaces. *)
Fixpoint childReplaced (olds news : list StatefulNode) : bool :=
  match olds, news with
  | o :: olds', n :: news' =>
      negb (Nat.eqb (refOf n) (refOf o)) || childReplaced olds' news'
  | _, _ => false
  end.

(** Field by field disjunction of two records of findings. *)
Definition joinFound (f g : Found) : Found :=
  mkFound (modifyThisNode f || modifyThisNode g)
          (selectedChildFound f || selectedChildFound g)
          (unselectedChildFound f || unselectedChildFound g)
          (indeterminateChildFound f || indeterminateChildFound g)
          (visibleChildFound f || visibleChildFound g).

(** The findings [f] with [modifyThisNode] set to [b]. *)
Definition withModify (b : bool) (f : Found) : Found :=
  mkFound b (selectedChildFound f) (unselectedChildFound f)
          (indeterminateChildFound f) (visibleChildFound f).

Section Settled.

Variable isSelectable : Js.obool.
Variable isSearchable : bool.
Variable isMultiPick : Js.obool.
Variable searchTerm : string.
Variable isAdditionalFilterApplied : Js.obool.
Variable isLeafVisible : string -> bool.
Variable expansionListProvided : bool.
Variable selectedSet : Js.set.
Variable expandedSet : Js.set.

(** The state the inputs and the children of a node call for. *)
Definition expectedState (n : StatefulNode) : NodeState :=
  let old := getNodeState n in
  if nodeIsLeaf n then
    mkState (leafSelected isSelectable selectedSet (nodeId n))
            (isLeafVisible (nodeId n))
            (isIndeterminate old) (isExpanded old)
  else
    let f := found (getStatefulChildren n) in
    mkState (Some (branchSelected f)) (visibleChildFound f)
            (Some (branchIndeterminate f))
            (Some (branchExpanded isSearchable isMultiPick searchTerm
                     isAdditionalFilterApplied expansionListProvided
                     expandedSet (nodeId n) f)).

Definition settledNode (n : StatefulNode) : Prop :=
  getNodeState n = expectedState n.

(** Every node of the tree carries the state the inputs call for. *)
Definition settled (t : StatefulNode) : Prop :=
  Forall settledNode (subtrees t).

(** What one traversal guarantees about a node and its replacement, between
    two values of the allocation counter. *)
Definition Post (k k' : nat) (t t' : StatefulNode) : Prop :=
  k <= k' /\ refsBelow k' t' /\ (t' = t \/ k <= refOf t') /\
  settled t' /\ wellFormed t' /\ skeleton t' = skeleton t.

(** [generatedExpandedList] once a node with the mapped children [ms] has
    been handled. *)
Definition generatedAfter (n : StatefulNode) (ms : list StatefulNode)
    (g : Js.set) : Js.set :=
  if nodeIsLeaf n then g
  else if negb expansionListProvided
          && branchExpanded isSearchable isMultiPick searchTerm
               isAdditionalFilterApplied expansionListProvided expandedSet
               (nodeId n) (found ms)
       then Js.add g (nodeId n) else g.

(** The state expected of an object [a] over the mapped children [ms]. *)
Definition expected (a : Annot) (ms : list StatefulNode) : NodeState :=
  expectedState (Tr a ms).

End Settled.

(** A branch with id [x] that is expanded. *)
Definition expandedBranch (x : string) (b : StatefulNode) : Prop :=
  nodeIsLeaf b = false /\ nodeId b = x /\
  isExpanded (getNodeState b) = Some true.

(** A leaf with id [x] lies at [p] under [node], it or a node above it
    matches (or [parentMatches] holds), and it passes the filter. *)
Definition shownAt (searchPredicate : RawNode -> list string -> bool)
    (searchTerms : list string) (filteredList : option (list string))
    (filteredSet : Js.set) (node : RawNode) (parentMatches : bool) (x : string)
    (p : list nat) : Prop :=
  exists l, at_path p node = Some l /\
            isLeaf getNodeChildren l = true /\ getNodeId l = x /\
            parentMatches
            || existsb (fun n => searchPredicate n searchTerms)
                 (nodes_along p node) = true /\
            passesFilter filteredList filteredSet x = true.

(** Every leaf below the node is selected and nothing below it is
    indeterminate. *)
Definition fullySelected (t : StatefulNode) : Prop :=
  (forall l, In l (descendants t) -> nodeIsLeaf l = true ->
             selectedNode l = true) /\
  (forall d, In d (descendants t) -> indeterminateNode d = false).

(** Some leaf below the node is selected, or one of its children is
    indeterminate. *)
Definition partlySelected (t : StatefulNode) : Prop :=
  (exists l, In l (descendants t) /\ nodeIsLeaf l = true /\
             selectedNode l = true) \/
  (exists c, In c (getStatefulChildren t) /\ indeterminateNode c = true).

(** The node is the leaf with id [L], or has it among its descendants. *)
Definition onPathTo (L : string) (n : StatefulNode) : bool :=
  existsb (fun d => nodeIsLeaf d && String.eqb (nodeId d) L) (subtrees n).

(** Position by position: a node on the way to [L] is replaced by an
    object allocated between [k] and [k'], any other node is kept. *)
Definition Moved (L : string) (k k' : nat) (t t' : StatefulNode) : Prop :=
  forall p n,
    at_path p t = Some n ->
    exists n', at_path p t' = Some n' /\
               if onPathTo L n then k <= refOf n' /\ refOf n' < k'
               else n' = n.

(** The list with its duplicates removed, the first occurrence of each id
    kept in place (the wording of the specification, to compare with what
    [Array.from(new Set(list))] computes). *)
Fixpoint keepFirst (l : list string) : list string :=
  match l with
  | [] => []
  | x :: l' => x :: filter (fun y => negb (String.eqb y x)) (keepFirst l')
  end.

(** The selection the engine works with: the selected list after the
    single-pick trim. *)
Definition effectiveSelection (isMultiPick : Js.obool)
    (selectedList : list string) : list string :=
  fst (trimSelected isMultiPick selectedList).

(** The leaves at or below a node. *)
Definition leafNodes (n : StatefulNode) : list StatefulNode :=
  filter nodeIsLeaf (subtrees n).

(** No leaf carries [isIndeterminate] or [isExpanded]. *)
Definition leavesBare (t : StatefulNode) : Prop :=
  Forall (fun n => nodeIsLeaf n = true ->
                   isIndeterminate (getNodeState n) = None /\
                   isExpanded (getNodeState n) = None)
         (subtrees t).

(** The number of nodes of a tree. *)
Fixpoint size {A} (t : Tree A) : nat :=
  match t with
  | Tr _ cs => S (list_sum (map size cs))
  end.

(** The ids of a stateful tree, read through the caller's accessor, in the
    shape of the stateful tree. *)
Definition idTree (t : StatefulNode) : RawNode :=
  tmap (fun a => getNodeId (raw a)) t.

(** Every stateful node lies over the caller's node it was made from: the
    node spread into it has the ids and the shape of what is below it. *)
Definition mirrors (t : StatefulNode) : Prop :=
  Forall (fun n => idTree n = raw (label n)) (subtrees t).

(** The branches at or below a node. *)
Definition branchNodes (n : StatefulNode) : list StatefulNode :=
  filter (fun d => negb (nodeIsLeaf d)) (subtrees n).

(** Every leaf below the node is selected / some leaf below it is. *)
Definition allLeavesSelected (n : StatefulNode) : bool :=
  forallb selectedNode (leafNodes n).
Definition someLeafSelected (n : StatefulNode) : bool :=
  existsb selectedNode (leafNodes n).

(** What happens to a mounted component: a render with changed inputs, or
    time passing. *)
Inductive Event : Type :=
| Change (p : Props.t)
| Wait (d : nat).

Definition step (parse : string -> list string) (h : Hook) (e : Event)
  : Hook :=
  match e with
  | Change p => inputChange parse p h
  | Wait d => elapse parse d h
  end.



(** The stateful tree [t] lies over the tree of the props [q] and all its
    objects are allocated in [w]. *)
Definition liesOver (t : StatefulNode) (q : Props.t) (w : World) : Prop :=
  mirrors t /\ raw (label t) = Props.tree q /\ refsBelow (nextRef w) t.

(** The exposed state is the one computed from the props [q] over the
    stateful tree [t], in a world where that tree was allocated. *)
Definition upToDate (parse : string -> list string) (h : Hook)
    (q : Props.t) (t : StatefulNode) : Prop :=
  exists w, refsBelow (nextRef w) t /\
            treeState h = fst (makeTreeState parse t q w).

(** The timer and the exposed state belong to the props [q] and the tree
    [t]: a pending timer was set for them, [q] has a search term and the
    timer is due within the delay; with no timer pending the exposed state
    is up to date with them. *)
Definition inForce (parse : string -> list string) (h : Hook)
    (q : Props.t) (t : StatefulNode) : Prop :=
  match pending h with
  | Some tm =>
      timerTree tm = t /\ timerProps tm = q /\
      Props.searchTerm q <> "" /\
      fireAt tm <= clock h + debounceDelay
  | None => upToDate parse h q t
  end.

(** The props and the memoized tree of the render whose effect ran last:
    those of the latest render once its effect has run, those of the render
    before until then. *)
Definition servedProps (c : Component) : Props.t :=
  match lastEffect c with
  | Some (q, _) => q
  | None => props (hook c)
  end.

Definition servedTree (c : Component) : StatefulNode :=
  match lastEffect c with
  | Some (_, t) => t
  | None => memoTree (hook c)
  end.

Definition consistent (parse : string -> list string) (c : Component)
  : Prop :=
  liesOver (memoTree (hook c)) (props (hook c)) (world (hook c)) /\
  liesOver (servedTree c) (servedProps c) (world (hook c)) /\
  inForce parse (hook c) (servedProps c) (servedTree c).

(* ================================================================== *)
(** * The handlers of the component *)

(** Modelled from the spec: [getBranches] of SelectTree/Utils, "all
    non-leaf descendants (including the node itself if non-leaf)". *)
Fixpoint getBranches (n : RawNode) : list RawNode :=
  match n with
  | Tr _ [] => []
  | Tr _ cs => n :: flat_map getBranches cs
  end.

(** Modelled from the spec: [Seq] of SelectTree/Utils, a finite sequence
    with [concat], [uniq] ("first-occurrence dedup") and [toArray]. *)
Module Seq.
Definition from (l : list string) : list string := l.
Definition concat (a b : list string) : list string := a ++ b.
Definition uniq (l : list string) : list string := keepFirst l.
Definition toArray (l : list string) : list string := l.
End Seq.

(** [array.splice(array.indexOf(id), 1)] when the id is present. *)
Fixpoint removeFirst (id : string) (l : list string) : list string :=
  match l with
  | [] => []
  | x :: l' => if String.eqb x id then l' else x :: removeFirst id l'
  end.

Section Handlers.

Variable tree : RawNode.
Variable selectedList : list string.
Variable currentList defaultList : option (list string).
Variable isSelectable : Js.obool.
Variable isMultiPick : Js.obool.
Variable isSearchable : bool.
Variable searchTerm : string.
Variable isAdditionalFilterApplied : Js.obool.
Variable shouldExpandDescendantsWithOneChild : Js.obool.
Variable treeState : TreeState.

(** [createLinkHandler]: the change handler is called with the fetched list
    unless the list is [undefined] or [null].  [Some ids] stands for a call
    of the handler with [ids], [None] for no call. *)
Definition createLinkHandler (idList : option (list string))
  : option (list string) :=
  match idList with
  | Some ids => Some ids
  | None => None
  end.

Definition expandAll : option (list string) :=
  createLinkHandler (Some (map getNodeId (getBranches tree))).

Definition expandNone : option (list string) :=
  createLinkHandler (Some []).

Definition selectAll : option (list string) :=
  createLinkHandler (Some (map getNodeId (getLeaves tree))).

Definition selectNone : option (list string) :=
  createLinkHandler (Some []).

Definition addVisible : option (list string) :=
  createLinkHandler
    (Some (Seq.toArray
             (Seq.uniq
                (Seq.concat (Seq.from selectedList)
                   (filter (isLeafVisible treeState)
                      (map getNodeId (getLeaves tree))))))).

Definition selectOnlyVisible : option (list string) :=
  createLinkHandler
    (Some (filter (isLeafVisible treeState)
             (map getNodeId (getLeaves tree)))).

Definition removeVisible : option (list string) :=
  createLinkHandler
    (Some (filter (fun nodeId => negb (isLeafVisible treeState nodeId))
             selectedList)).

Definition selectCurrentList : option (list string) :=
  createLinkHandler currentList.

Definition selectDefaultList : option (list string) :=
  createLinkHandler defaultList.

(** [_findDescendantsWithOneChild], closed over the toggled [node]. *)
Fixpoint findDescendantsWithOneChild (node descendant : RawNode)
  : list string :=
  let nextNodes :=
    if String.eqb (getNodeId node) (getNodeId descendant)
       || Nat.eqb (List.length (getNodeChildren descendant)) 1
    then Seq.from [getNodeId descendant]
    else [] in
  let remainingNodes :=
    flat_map (findDescendantsWithOneChild node)
      (getNodeChildren descendant) in
  Seq.concat nextNodes remainingNodes.

Definition toggleExpansion (node : RawNode) : option (list string) :=
  let expanded := expandedList (generated treeState) in
  if negb (isActiveSearch isAdditionalFilterApplied isSearchable searchTerm)
     && negb (isLeaf getNodeChildren node)
  then
    if negb (Js.truthy shouldExpandDescendantsWithOneChild)
       || Js.has expanded (getNodeId node)
    then Some (addOrRemove expanded (getNodeId node))
    else
      Some (Seq.toArray
              (Seq.uniq
                 (Seq.concat (Seq.from expanded)
                    (findDescendantsWithOneChild node node))))
  else None.

(** One step of the [forEach] over the leaves of a toggled branch. *)
Definition toggleLeafId (selected : bool) (newSelectedList : list string)
    (leafNode : RawNode) : list string :=
  let leafId := getNodeId leafNode in
  if selected && negb (Js.has newSelectedList leafId)
  then newSelectedList ++ [leafId]
  else if negb selected && Js.has newSelectedList leafId
       then removeFirst leafId newSelectedList
       else newSelectedList.

Definition toggleSelection (node : RawNode) (selected : bool)
  : option (list string) :=
  if negb (Js.truthy isSelectable) then None
  else if isLeaf getNodeChildren node then
    if Js.truthy isMultiPick
    then Some (addOrRemove selectedList (getNodeId node))
    else Some [getNodeId node]
  else
    Some (fold_left (toggleLeafId selected) (getLeaves node) selectedList).

(** [isTreeVisible]: when it is false the "no results" message is shown. *)
Definition isTreeVisible : bool :=
  isVisible (getNodeState (statefulTree (generated treeState))).

End Handlers.

(* ================================================================== *)
(** * Trees and inputs used as examples *)

Definition C6_tree : RawNode :=
  Tr "root" [Tr "A" [Tr "leaf1" []; Tr "leaf2" []]; Tr "leaf3" []].

Definition C6_pred (n : RawNode) (terms : list string) : bool :=
  existsb (String.eqb (getNodeId n)) terms.

Definition C7_tree : RawNode :=
  Tr "root" [Tr "A" [Tr "leaf1" []; Tr "leaf2" []];
             Tr "B" [Tr "match" []; Tr "leaf3" []]].

Definition C7_pred (n : RawNode) (terms : list string) : bool :=
  String.eqb (getNodeId n) "A" || String.eqb (getNodeId n) "match".

Definition sampleTree : RawNode :=
  Tr "root" [Tr "A" [Tr "leaf1" []; Tr "leaf2" []]; Tr "B" [Tr "leaf3" []]].

Definition sampleStateful : StatefulNode := fst (createStatefulTree sampleTree 0).

Definition sampleWorld : World := mkWorld (snd (createStatefulTree sampleTree 0)) [].

Definition twoLeaves : StatefulNode :=
  fst (createStatefulTree (Tr "branch" [Tr "x" []; Tr "y" []]) 0).

Definition twoLeavesWorld : World :=
  mkWorld (snd (createStatefulTree (Tr "branch" [Tr "x" []; Tr "y" []]) 0)) [].

Definition C2_parse (s : string) : list string := [s].

Definition C2_props (selectedList : list string) : Props.t :=
  Props.mk sampleTree "a" (fun _ _ => true) None true (Some true)
    (Some true) selectedList None None.


(* ================================================================== *)
(** * Properties *)

(** ** Trees and traversals *)

Section TreeInduction.

Variable A : Type.
Variable P : Tree A -> Prop.
Hypothesis step : forall a cs, Forall P cs -> P (Tr a cs).

Fixpoint Tree_ind' (t : Tree A) : P t :=
  match t with
  | Tr a cs =>
      step a
        ((fix all (l : list (Tree A)) : Forall P l :=
            match l with
            | [] => Forall_nil P
            | c :: l' => Forall_cons c (Tree_ind' c) (all l')
            end) cs)
  end.

End TreeInduction.

Lemma mapStructure_eq {S A U} (mapFn : Tree A -> list U -> St S U) a cs :
  mapStructure mapFn (Tr a cs)
  = (mappedChildren <- mapM (mapStructure mapFn) cs ;;
     mapFn (Tr a cs) mappedChildren).
Proof.
  cbn [mapStructure]. f_equal.
  induction cs as [|c cs IH]; cbn [mapM]; [reflexivity|].
  now rewrite IH.
Qed.

Lemma subtrees_self {A} (t : Tree A) : In t (subtrees t).
Proof. destruct t; left; reflexivity. Qed.

Lemma subtrees_child {A} (a : A) cs c n :
  In c cs -> In n (subtrees c) -> In n (subtrees (Tr a cs)).
Proof.
  intros Hc Hn. right. apply in_flat_map. exists c. split; assumption.
Qed.

Lemma subtrees_inv {A} (a : A) cs n :
  In n (subtrees (Tr a cs)) ->
  n = Tr a cs \/ exists c, In c cs /\ In n (subtrees c).
Proof.
  cbn [subtrees]. intros H. destruct H as [H|H]; [left; symmetry; exact H|right].
  apply in_flat_map in H. exact H.
Qed.

Lemma Forall_subtrees {A} (Q : Tree A -> Prop) a cs :
  Forall Q (subtrees (Tr a cs))
  <-> Q (Tr a cs) /\ Forall (fun c => Forall Q (subtrees c)) cs.
Proof.
  split.
  - intros H. rewrite Forall_forall in H. split; [apply H, subtrees_self|].
    apply Forall_forall. intros c Hc. apply Forall_forall. intros n Hn.
    apply H. eapply subtrees_child; eassumption.
  - intros [H0 H]. apply Forall_forall. intros n Hn.
    apply subtrees_inv in Hn as [->|(c & Hc & Hn)].
    + exact H0.
    + rewrite Forall_forall in H. specialize (H c Hc).
      rewrite Forall_forall in H. apply H, Hn.
Qed.

Lemma at_path_subtrees {A} p : forall (t n : Tree A),
  at_path p t = Some n -> In n (subtrees t).
Proof.
  induction p as [|i p IH]; intros t n H; cbn in H.
  - injection H as <-. apply subtrees_self.
  - destruct t as [a cs]. cbn in H.
    destruct (nth_error cs i) as [c|] eqn:E; [|discriminate].
    eapply subtrees_child; [eapply nth_error_In; eassumption|].
    apply IH, H.
Qed.

Lemma subtrees_at_path {A} : forall (t n : Tree A),
  In n (subtrees t) -> exists p, at_path p t = Some n.
Proof.
  intros t. induction t as [a cs IH] using Tree_ind'. intros n Hn.
  apply subtrees_inv in Hn as [->|(c & Hc & Hn)].
  - exists []. reflexivity.
  - rewrite Forall_forall in IH. destruct (IH c Hc n Hn) as [p Hp].
    apply In_nth_error in Hc as [i Hi].
    exists (i :: p). cbn. rewrite Hi. exact Hp.
Qed.

(** ** Insertion-ordered sets *)

Lemma has_In s x : Js.has s x = true <-> In x s.
Proof.
  unfold Js.has. rewrite existsb_exists. split.
  - intros (y & Hy & E). apply String.eqb_eq in E. subst. exact Hy.
  - intros H. exists x. split; [exact H|apply String.eqb_refl].
Qed.

Lemma has_app s1 s2 x : Js.has (s1 ++ s2) x = Js.has s1 x || Js.has s2 x.
Proof. unfold Js.has. apply existsb_app. Qed.

Lemma has_add s y x : Js.has (Js.add s y) x = Js.has s x || String.eqb x y.
Proof.
  unfold Js.add. destruct (Js.has s y) eqn:E.
  - destruct (String.eqb_spec x y) as [->|]; [|now rewrite orb_false_r].
    now rewrite E.
  - rewrite has_app. cbn. now rewrite orb_false_r.
Qed.

Lemma In_add s y x : In x (Js.add s y) <-> In x s \/ x = y.
Proof.
  rewrite <- !has_In, has_add, orb_true_iff, String.eqb_eq. reflexivity.
Qed.

Lemma In_fold_add l : forall s x,
  In x (fold_left Js.add l s) <-> In x s \/ In x l.
Proof.
  induction l as [|y l IH]; intros s x; cbn.
  - tauto.
  - rewrite IH, In_add. intuition congruence.
Qed.

Lemma In_set_of l x : In x (Js.set_of l) <-> In x l.
Proof. unfold Js.set_of. rewrite In_fold_add. cbn. tauto. Qed.

Lemma has_set_of l x : Js.has (Js.set_of l) x = Js.has l x.
Proof.
  apply eq_true_iff_eq. rewrite !has_In. apply In_set_of.
Qed.

(** ** The loop over the children of a branch *)

Lemma neq_false a b : Js.neq a b = false -> a = b.
Proof.
  destruct a as [[|]|], b as [[|]|]; cbn; intros H;
    (reflexivity || discriminate).
Qed.

Lemma neq_refl a : Js.neq a a = false.
Proof. destruct a as [[|]|]; reflexivity. Qed.

Lemma inspectChildren_join olds : forall news f,
  List.length olds = List.length news ->
  inspectChildren olds news f
  = joinFound f (withModify (childReplaced olds news) (found news)).
Proof.
  induction olds as [|o olds IH]; intros [|n news] f Hlen;
    try discriminate Hlen.
  - destruct f as [m a b c d]; cbn. destruct m, a, b, c, d; reflexivity.
  - cbn [inspectChildren]. rewrite IH by (cbn in Hlen; lia).
    destruct f as [m a b c d].
    unfold inspectChild, joinFound, withModify, found. cbn.
    unfold selectedNode, indeterminateNode, visibleNode, refOf.
    destruct (Nat.eqb (ref (label n)) (ref (label o)));
    destruct (Js.truthy (isSelected (getNodeState n)));
    destruct (Js.truthy (isIndeterminate (getNodeState n)));
    destruct (isVisible (getNodeState n));
    destruct m, a, b, c, d; reflexivity.
Qed.

Lemma inspectChildren_found olds news :
  List.length olds = List.length news ->
  inspectChildren olds news (mkFound false false false false false)
  = withModify (childReplaced olds news) (found news).
Proof.
  intros H. rewrite inspectChildren_join by exact H. reflexivity.
Qed.

Lemma childReplaced_same kids : childReplaced kids kids = false.
Proof.
  induction kids as [|k kids IH]; [reflexivity|].
  cbn. now rewrite Nat.eqb_refl, IH.
Qed.

Lemma mapM_length {S A B} (f : A -> St S B) l : forall s bs s',
  mapM f l s = (bs, s') -> List.length bs = List.length l.
Proof.
  induction l as [|a l IH]; intros s bs s' H; cbn in H.
  - injection H as <- _. reflexivity.
  - unfold bind in H. destruct (f a s) as [b s1].
    destruct (mapM f l s1) as [bs1 s2] eqn:E.
    injection H as <- _. cbn. f_equal. eapply IH, E.
Qed.

(** ** One traversal of the reconciliation *)

Lemma refsBelow_mono k k' t : k <= k' -> refsBelow k t -> refsBelow k' t.
Proof.
  intros Hk H. eapply Forall_impl; [|exact H]. cbn. intros; lia.
Qed.

Lemma refsBelow_root k t : refsBelow k t -> refOf t < k.
Proof.
  intros H. unfold refsBelow in H. rewrite Forall_forall in H.
  apply H, subtrees_self.
Qed.

Section Traversal.

Variable isSelectable : Js.obool.
Variable isSearchable : bool.
Variable isMultiPick : Js.obool.
Variable searchTerm : string.
Variable isAdditionalFilterApplied : Js.obool.
Variable isLeafVisible : string -> bool.
Variable expansionListProvided : bool.
Variable selectedSet : Js.set.
Variable expandedSet : Js.set.

Let run := reconcile isSelectable isSearchable isMultiPick searchTerm
             isAdditionalFilterApplied isLeafVisible expansionListProvided
             selectedSet expandedSet.
Let mapFn := mapFunction isSelectable isSearchable isMultiPick searchTerm
               isAdditionalFilterApplied isLeafVisible expansionListProvided
               selectedSet expandedSet.
Let ok := settled isSelectable isSearchable isMultiPick searchTerm
            isAdditionalFilterApplied isLeafVisible expansionListProvided
            selectedSet expandedSet.
Let okNode := settledNode isSelectable isSearchable isMultiPick searchTerm
                isAdditionalFilterApplied isLeafVisible expansionListProvided
                selectedSet expandedSet.
Let PostT := Post isSelectable isSearchable isMultiPick searchTerm
               isAdditionalFilterApplied isLeafVisible expansionListProvided
               selectedSet expandedSet.
Let expectedT := expected isSelectable isSearchable isMultiPick searchTerm
                   isAdditionalFilterApplied isLeafVisible
                   expansionListProvided selectedSet expandedSet.
Let generatedAfterT := generatedAfter isSearchable isMultiPick searchTerm
                         isAdditionalFilterApplied expansionListProvided
                         expandedSet.

Lemma Post_mono k1 k1' k k' t t' :
  k <= k1 -> k1' <= k' -> PostT k1 k1' t t' -> PostT k k' t t'.
Proof.
  intros H1 H2 (Ha & Hb & Hc & Hd & He & Hf).
  repeat split; try assumption; try lia.
  - eapply refsBelow_mono; eassumption.
  - destruct Hc as [Hc|Hc]; [left; exact Hc|right; lia].
Qed.

Lemma run_eq a cs :
  run (Tr a cs) = (ms <- mapM run cs ;; mapFn (Tr a cs) ms).
Proof. apply mapStructure_eq. Qed.

Lemma mapM_Post cs :
  Forall (fun c => forall s t' s',
            wellFormed c -> refsBelow (next s) c -> run c s = (t', s') ->
            PostT (next s) (next s') c t') cs ->
  forall s ms s',
    Forall wellFormed cs -> Forall (refsBelow (next s)) cs ->
    mapM run cs s = (ms, s') ->
    next s <= next s' /\ Forall2 (PostT (next s) (next s')) cs ms.
Proof.
  induction 1 as [|c cs Hc _ IH]; intros s ms s' Hwf Hrefs Hrun;
    cbn in Hrun.
  - injection Hrun as <- <-. split; [lia|constructor].
  - unfold bind in Hrun.
    destruct (run c s) as [m s1] eqn:E1.
    destruct (mapM run cs s1) as [ms1 s2] eqn:E2.
    injection Hrun as <- <-.
    inversion Hwf as [|? ? Hwc Hwcs]; subst.
    inversion Hrefs as [|? ? Hrc Hrcs]; subst.
    specialize (Hc s m s1 Hwc Hrc E1).
    assert (Hle : next s <= next s1) by apply Hc.
    destruct (IH s1 ms1 s2 Hwcs) as [Hle2 Hall]; [|exact E2|].
    { eapply Forall_impl; [|exact Hrcs].
      intros x. apply refsBelow_mono. exact Hle. }
    split; [lia|]. constructor.
    + eapply Post_mono; [| |exact Hc]; lia.
    + eapply Forall2_impl; [|exact Hall].
      intros x y. apply Post_mono; lia.
Qed.

Lemma unchanged_children cs ms k k' :
  Forall (refsBelow k) cs ->
  Forall2 (PostT k k') cs ms ->
  childReplaced cs ms = false -> ms = cs.
Proof.
  intros Hrefs H. induction H as [|c m cs ms Hcm _ IH]; intros Hrep.
  - reflexivity.
  - inversion Hrefs as [|? ? Hrc Hrcs]; subst.
    cbn in Hrep. apply orb_false_iff in Hrep as [Href Hrep].
    apply negb_false_iff, Nat.eqb_eq in Href.
    f_equal; [|apply IH; assumption].
    destruct Hcm as (_ & _ & [->|Hfresh] & _); [reflexivity|].
    apply refsBelow_root in Hrc. lia.
Qed.

Lemma Post_children cs ms k k' :
  Forall2 (PostT k k') cs ms ->
  Forall (refsBelow k') ms /\ Forall ok ms /\ Forall wellFormed ms /\
  map skeleton ms = map skeleton cs /\ List.length ms = List.length cs.
Proof.
  induction 1 as [|c m cs ms (Ha & Hb & Hc & Hd & He & Hf) _
                    (I1 & I2 & I3 & I4 & I5)].
  - repeat split; constructor.
  - repeat split; try (constructor; assumption); cbn; congruence.
Qed.

(** A node whose own state is the expected one, over settled children. *)
Lemma build_node (a a' : Annot) cs ms k :
  raw a' = raw a ->
  nodeIsLeaf (Tr a cs) = isLeaf getStatefulChildren (Tr a cs) ->
  ref a' < k ->
  Forall (refsBelow k) ms -> Forall ok ms -> Forall wellFormed ms ->
  map skeleton ms = map skeleton cs -> List.length ms = List.length cs ->
  okNode (Tr a' ms) ->
  refsBelow k (Tr a' ms) /\ ok (Tr a' ms) /\ wellFormed (Tr a' ms) /\
  skeleton (Tr a' ms) = skeleton (Tr a cs).
Proof.
  intros Hraw Hwf Hk Hrefs Hok Hwfs Hskel Hlen Hnode.
  repeat split.
  - apply Forall_subtrees. split; [exact Hk|exact Hrefs].
  - apply Forall_subtrees. split; [exact Hnode|exact Hok].
  - apply Forall_subtrees. split; [|exact Hwfs].
    unfold nodeIsLeaf in *. cbn in *. rewrite Hraw, Hwf.
    unfold isLeaf, getStatefulChildren. cbn.
    destruct cs, ms; try reflexivity; discriminate Hlen.
  - unfold skeleton. cbn [tmap]. f_equal; [exact Hraw|exact Hskel].
Qed.

Lemma Post_intro (a a' : Annot) cs ms k k' :
  raw a' = raw a ->
  nodeIsLeaf (Tr a cs) = isLeaf getStatefulChildren (Tr a cs) ->
  ref a' < k' -> k <= k' ->
  (Tr a' ms = Tr a cs \/ k <= ref a') ->
  Forall (refsBelow k') ms -> Forall ok ms -> Forall wellFormed ms ->
  map skeleton ms = map skeleton cs -> List.length ms = List.length cs ->
  okNode (Tr a' ms) ->
  PostT k k' (Tr a cs) (Tr a' ms).
Proof.
  intros Hraw Hwf Hk Hle Hid Hrefs Hok Hwfs Hskel Hlen Hnode.
  destruct (@build_node a a' cs ms k') as (B1 & B2 & B3 & B4);
    try assumption.
  unfold PostT, Post. repeat split; assumption.
Qed.

Lemma mapFn_Post a cs ms s1 t' s' k :
  nodeIsLeaf (Tr a cs) = isLeaf getStatefulChildren (Tr a cs) ->
  refOf (Tr a cs) < k -> k <= next s1 ->
  Forall (refsBelow k) cs ->
  Forall2 (PostT k (next s1)) cs ms ->
  mapFn (Tr a cs) ms s1 = (t', s') ->
  PostT k (next s') (Tr a cs) t'.
Proof.
  intros Hwf Hroot Hk Hrefs Hall Hrun.
  destruct (Post_children Hall) as (Hb & Hok & Hwfs & Hskel & Hlen).
  assert (Hb' : Forall (refsBelow (S (next s1))) ms).
  { eapply Forall_impl; [|exact Hb]. intros x. apply refsBelow_mono. lia. }
  unfold refOf in Hroot. cbn in Hroot.
  unfold mapFn, mapFunction in Hrun.
  destruct (nodeIsLeaf (Tr a cs)) eqn:Eleaf.
  - (* leaf *)
    assert (cs = []) as ->.
    { symmetry in Hwf. unfold isLeaf, getStatefulChildren in Hwf. cbn in Hwf.
      destruct cs; [reflexivity|discriminate]. }
    assert (ms = []) as -> by (destruct ms; [reflexivity|discriminate]).
    match type of Hrun with (if ?c then _ else _) _ = _ =>
      destruct c eqn:Echanged end.
    + unfold replaceNode in Hrun. injection Hrun as <- <-. cbn [next].
      apply Post_intro; try assumption; try reflexivity;
        try (rewrite Eleaf; exact Hwf); cbn [ref]; try lia.
      unfold okNode, settledNode, expectedState.
      match goal with |- context [nodeIsLeaf ?n] =>
        change (nodeIsLeaf n) with (nodeIsLeaf (Tr a [])) end.
      rewrite Eleaf. reflexivity.
    + unfold ret in Hrun. injection Hrun as <- <-.
      apply orb_false_iff in Echanged as [E1 E2].
      apply neq_false in E1. apply negb_false_iff, Bool.eqb_prop in E2.
      apply Post_intro; try assumption; try reflexivity;
        try (rewrite Eleaf; exact Hwf); try lia.
      * left. reflexivity.
      * unfold okNode, settledNode, expectedState. rewrite Eleaf.
        cbn zeta. rewrite E1, E2.
        unfold getNodeState. cbn. destruct (expandableTreeState a).
        reflexivity.
  - (* branch *)
    rewrite inspectChildren_found in Hrun by (symmetry; exact Hlen).
    unfold bind in Hrun.
    match type of Hrun with (let (_, _) := ?e in _) = _ =>
      destruct e as [[] s2] eqn:Enote end.
    assert (Hnext : next s2 = next s1).
    { destruct (negb expansionListProvided && _) in Enote;
        unfold noteExpanded, ret in Enote; injection Enote as <-;
        reflexivity. }
    match type of Hrun with (if ?c then _ else _) _ = _ =>
      destruct c eqn:Echanged end.
    + unfold replaceNode in Hrun. injection Hrun as <- <-. cbn [next].
      rewrite Hnext.
      apply Post_intro; try assumption; try reflexivity;
        try (rewrite Eleaf; exact Hwf); cbn [ref]; try lia.
      unfold okNode, settledNode, expectedState.
      match goal with |- context [nodeIsLeaf ?n] =>
        change (nodeIsLeaf n) with (nodeIsLeaf (Tr a cs)) end.
      rewrite Eleaf. reflexivity.
    + unfold ret in Hrun. injection Hrun as <- <-. rewrite Hnext.
      repeat (apply orb_false_iff in Echanged as [Echanged ?]).
      cbn [modifyThisNode withModify] in Echanged.
      assert (ms = cs) as ->
        by (eapply unchanged_children; eassumption).
      apply Post_intro; try assumption; try reflexivity;
        try (rewrite Eleaf; exact Hwf); try lia.
      * left. reflexivity.
      * unfold okNode, settledNode, expectedState. rewrite Eleaf.
        repeat match goal with
               | H : Js.neq _ _ = false |- _ => apply neq_false in H
               | H : negb (Bool.eqb _ _) = false |- _ =>
                   apply negb_false_iff, Bool.eqb_prop in H
               end.
        unfold getNodeState in *. cbn in *.
        destruct (expandableTreeState a). cbn in *.
        repeat match goal with
               | H : _ = ?x |- _ => is_var x; subst x
               end.
        reflexivity.
Qed.

Lemma run_Post t : forall s t' s',
  wellFormed t -> refsBelow (next s) t -> run t s = (t', s') ->
  PostT (next s) (next s') t t'.
Proof.
  induction t as [a cs IH] using Tree_ind'. intros s t' s' Hwf Hrefs Hrun.
  rewrite run_eq in Hrun. unfold bind in Hrun.
  destruct (mapM run cs s) as [ms s1] eqn:E.
  apply Forall_subtrees in Hwf as [Hwf Hwfs].
  apply Forall_subtrees in Hrefs as [Hroot Hrefs].
  destruct (mapM_Post IH s Hwfs Hrefs E) as [Hle Hall].
  eapply mapFn_Post; eassumption.
Qed.

(** A settled tree is a fixed point of the traversal: the same objects come
    back and nothing is allocated. *)
Lemma mapFn_settled a cs s :
  okNode (Tr a cs) ->
  fst (mapFn (Tr a cs) cs s) = Tr a cs /\
  next (snd (mapFn (Tr a cs) cs s)) = next s.
Proof.
  intros Hnode. unfold okNode, settledNode, expectedState in Hnode.
  unfold mapFn, mapFunction.
  destruct (nodeIsLeaf (Tr a cs)) eqn:Eleaf; cbn zeta in Hnode.
  - pose proof (f_equal isSelected Hnode) as Hs.
    pose proof (f_equal isVisible Hnode) as Hv.
    cbn [isSelected isVisible] in Hs, Hv.
    rewrite <- Hs, <- Hv, neq_refl, Bool.eqb_reflx.
    cbn. split; reflexivity.
  - pose proof (f_equal isSelected Hnode) as Hs.
    pose proof (f_equal isVisible Hnode) as Hv.
    pose proof (f_equal isIndeterminate Hnode) as Hi.
    pose proof (f_equal isExpanded Hnode) as He.
    cbn [isSelected isVisible isIndeterminate isExpanded] in Hs, Hv, Hi, He.
    rewrite inspectChildren_found by reflexivity.
    unfold getStatefulChildren in *. cbn [children] in *.
    rewrite childReplaced_same.
    unfold bind.
    match goal with |- context [(if ?c then noteExpanded ?i else ret tt) s] =>
      destruct ((if c then noteExpanded i else ret tt) s) as [[] s2] eqn:Enote;
      assert (Hnext : next s2 = next s)
        by (destruct c; unfold noteExpanded, ret in Enote;
            injection Enote as <-; reflexivity)
    end.
    cbn [modifyThisNode withModify].
    change (visibleChildFound (withModify false (found cs)))
      with (visibleChildFound (found cs)).
    change (branchSelected (withModify false (found cs)))
      with (branchSelected (found cs)).
    change (branchIndeterminate (withModify false (found cs)))
      with (branchIndeterminate (found cs)).
    match goal with |- context [Js.neq (Some (branchExpanded ?a1 ?a2 ?a3 ?a4 ?a5 ?a6 ?a7 ?f)) _] =>
      change (branchExpanded a1 a2 a3 a4 a5 a6 a7 f)
        with (branchExpanded a1 a2 a3 a4 a5 a6 a7 (found cs))
    end.
    rewrite <- Hs, <- Hv, <- Hi, <- He, !neq_refl, Bool.eqb_reflx.
    cbn. split; [reflexivity|exact Hnext].
Qed.

Lemma run_settled t : forall s,
  ok t -> fst (run t s) = t /\ next (snd (run t s)) = next s.
Proof.
  induction t as [a cs IH] using Tree_ind'. intros s Hok.
  apply Forall_subtrees in Hok as [Hnode Hoks].
  rewrite run_eq. unfold bind.
  assert (Hlist : forall s0, fst (mapM run cs s0) = cs /\
                             next (snd (mapM run cs s0)) = next s0).
  { clear Hnode. induction cs as [|c cs IHcs]; intros s0.
    - split; reflexivity.
    - inversion IH as [|? ? Hc Hcs]; subst.
      inversion Hoks as [|? ? Hokc Hokcs]; subst.
      cbn [mapM]. unfold bind.
      destruct (Hc s0 Hokc) as [E1 E2].
      destruct (run c s0) as [m s1]. cbn in E1, E2. subst m.
      destruct (IHcs Hcs Hokcs s1) as [E3 E4].
      destruct (mapM run cs s1) as [ms s2]. cbn in E3, E4. subst ms.
      cbn. split; [reflexivity|congruence]. }
  destruct (Hlist s) as [E1 E2].
  destruct (mapM run cs s) as [ms s1]. cbn in E1, E2. subst ms.
  destruct (mapFn_settled s1 Hnode) as [E3 E4].
  split; [exact E3|congruence].
Qed.

Lemma mapFn_cases a cs ms s :
  List.length ms = List.length cs ->
  let g := generatedAfterT (Tr a cs) ms (generatedExpandedList s) in
  (mapFn (Tr a cs) ms s = (Tr a cs, mkMapState (next s) g) /\
   (nodeIsLeaf (Tr a cs) = true \/ childReplaced cs ms = false) /\
   expandableTreeState a = expectedT a ms)
  \/
  (mapFn (Tr a cs) ms s
   = (Tr (mkAnnot (next s) (raw a) (expectedT a ms)) ms,
      mkMapState (S (next s)) g) /\
   ((nodeIsLeaf (Tr a cs) = false /\ childReplaced cs ms = true) \/
    expandableTreeState a <> expectedT a ms)).
Proof.
  intros Hlen g. subst g. destruct s as [k g0].
  cbn [next generatedExpandedList].
  unfold mapFn, mapFunction, generatedAfterT, generatedAfter, expectedT,
    expected, expectedState.
  change (nodeIsLeaf (Tr a ms)) with (nodeIsLeaf (Tr a cs)).
  change (nodeId (Tr a ms)) with (nodeId (Tr a cs)).
  change (getNodeState (Tr a ms)) with (expandableTreeState a).
  change (getNodeState (Tr a cs)) with (expandableTreeState a).
  destruct (nodeIsLeaf (Tr a cs)) eqn:Eleaf.
  - destruct (expandableTreeState a) as [sel vis ind ex].
    cbn [isSelected isVisible isIndeterminate isExpanded].
    destruct (Js.neq _ sel) eqn:E1; cbn [orb].
    + right. split; [reflexivity|]. right. intros H.
      injection H as H _. rewrite H, neq_refl in E1. discriminate.
    + apply neq_false in E1.
      destruct (Bool.eqb _ vis) eqn:E2; cbn [negb].
      * apply Bool.eqb_prop in E2. left.
        split; [reflexivity|]. split; [left; reflexivity|].
        congruence.
      * right. split; [reflexivity|]. right. intros H.
        injection H as _ H. rewrite H, Bool.eqb_reflx in E2. discriminate.
  - rewrite inspectChildren_found by (symmetry; exact Hlen).
    unfold getStatefulChildren. cbn [children].
    cbn [modifyThisNode withModify].
    change (visibleChildFound (withModify (childReplaced cs ms) (found ms)))
      with (visibleChildFound (found ms)).
    change (branchSelected (withModify (childReplaced cs ms) (found ms)))
      with (branchSelected (found ms)).
    change (branchIndeterminate (withModify (childReplaced cs ms) (found ms)))
      with (branchIndeterminate (found ms)).
    repeat match goal with
    | |- context [branchExpanded ?a1 ?a2 ?a3 ?a4 ?a5 ?a6 ?a7
                    (withModify ?b ?f)] =>
      change (branchExpanded a1 a2 a3 a4 a5 a6 a7 (withModify b f))
        with (branchExpanded a1 a2 a3 a4 a5 a6 a7 f)
    end.
    set (e := branchExpanded _ _ _ _ _ _ _ _).
    unfold bind, noteExpanded, ret.
    destruct (expandableTreeState a) as [sel vis ind ex].
    cbn [isSelected isVisible isIndeterminate isExpanded].
    destruct (childReplaced cs ms) eqn:Erep; cbn [orb].
    { right. split; [|left; split; reflexivity].
      destruct (negb expansionListProvided && e); reflexivity. }
    destruct (Js.neq _ sel) eqn:E1; cbn [orb].
    { right. split; [destruct (negb expansionListProvided && e); reflexivity|].
      right. intros H. injection H as H _ _ _.
      rewrite <- H, neq_refl in E1. discriminate. }
    destruct (Js.neq _ ind) eqn:E2; cbn [orb].
    { right. split; [destruct (negb expansionListProvided && e); reflexivity|].
      right. intros H. injection H as _ _ H _.
      rewrite <- H, neq_refl in E2. discriminate. }
    destruct (Js.neq _ ex) eqn:E3; cbn [orb].
    { right. split; [destruct (negb expansionListProvided && e); reflexivity|].
      right. intros H. injection H as _ _ _ H.
      rewrite <- H, neq_refl in E3. discriminate. }
    destruct (Bool.eqb _ vis) eqn:E4; cbn [negb].
    + left. apply neq_false in E1, E2, E3. apply Bool.eqb_prop in E4.
      split; [destruct (negb expansionListProvided && e); reflexivity|].
      split; [right; reflexivity|]. congruence.
    + right. split; [destruct (negb expansionListProvided && e); reflexivity|].
      right. intros H. injection H as _ H _ _. subst vis.
      unfold found in E4. cbn [visibleChildFound] in E4.
      rewrite Bool.eqb_reflx in E4. discriminate.
Qed.

Lemma mapFn_result a cs ms s1 t' s' k :
  nodeIsLeaf (Tr a cs) = isLeaf getStatefulChildren (Tr a cs) ->
  Forall (refsBelow k) cs ->
  Forall2 (PostT k (next s1)) cs ms ->
  mapFn (Tr a cs) ms s1 = (t', s') ->
  children t' = ms /\ raw (label t') = raw a /\
  getNodeState t' = expectedT a ms /\
  generatedExpandedList s'
  = generatedAfterT (Tr a cs) ms (generatedExpandedList s1) /\
  ((t' = Tr a cs /\ next s' = next s1 /\
    (nodeIsLeaf (Tr a cs) = true \/ childReplaced cs ms = false))
   \/ (refOf t' = next s1 /\ next s' = S (next s1) /\
       ((nodeIsLeaf (Tr a cs) = false /\ childReplaced cs ms = true) \/
        expandableTreeState a <> expectedT a ms))).
Proof.
  intros Hwf Hrefs Hall Hrun.
  destruct (Post_children Hall) as (_ & _ & _ & _ & Hlen).
  destruct (@mapFn_cases a cs ms s1 Hlen) as [(E & Hsame & Hst)|(E & Hwhy)];
    rewrite E in Hrun; injection Hrun as <- <-; cbn [next generatedExpandedList].
  - assert (ms = cs) as ->.
    { destruct Hsame as [Hleaf|Hrep].
      - rewrite Hleaf in Hwf. symmetry in Hwf.
        unfold isLeaf, getStatefulChildren in Hwf. cbn in Hwf.
        destruct cs; [|discriminate]. destruct ms; [reflexivity|discriminate].
      - eapply unchanged_children; eassumption. }
    repeat split; try reflexivity; try exact Hst.
    left. repeat split. exact Hsame.
  - repeat split; try reflexivity. right. repeat split. exact Hwhy.
Qed.

Lemma run_generated t : forall s t' s',
  wellFormed t -> refsBelow (next s) t -> run t s = (t', s') ->
  forall x,
    In x (generatedExpandedList s') <->
    In x (generatedExpandedList s) \/
    (expansionListProvided = false /\
     exists b, In b (subtrees t') /\ expandedBranch x b).
Proof.
  induction t as [a cs IH] using Tree_ind'. intros s t' s' Hwf Hrefs Hrun x.
  rewrite run_eq in Hrun. unfold bind in Hrun.
  destruct (mapM run cs s) as [ms s1] eqn:E.
  apply Forall_subtrees in Hwf as [Hwf Hwfs].
  apply Forall_subtrees in Hrefs as [Hroot Hrefs].
  assert (HP : Forall (fun c => forall s t' s',
            wellFormed c -> refsBelow (next s) c -> run c s = (t', s') ->
            PostT (next s) (next s') c t') cs).
  { apply Forall_forall. intros c _ s0 t0 s0'. apply run_Post. }
  destruct (mapM_Post HP s Hwfs Hrefs E) as [Hle Hall].
  assert (Hkids : In x (generatedExpandedList s1) <->
                  In x (generatedExpandedList s) \/
                  (expansionListProvided = false /\
                   exists b, In b (flat_map subtrees ms) /\ expandedBranch x b)).
  { clear Hall Hle Hrun Hwf Hroot. revert s ms s1 E Hrefs.
    induction cs as [|c cs IHcs]; intros s ms s1 E Hrefs; cbn in E.
    - injection E as <- <-. cbn. split; [tauto|].
      intros [H|(_ & b & [] & _)]. exact H.
    - unfold bind in E. destruct (run c s) as [m s2] eqn:E1.
      destruct (mapM run cs s2) as [ms2 s3] eqn:E2. injection E as <- <-.
      inversion IH as [|? ? Hc Hcs]; subst.
      inversion Hwfs as [|? ? Hwc Hwcs]; subst.
      inversion Hrefs as [|? ? Hrc Hrcs]; subst.
      inversion HP as [|? ? HPc HPcs]; subst.
      assert (Hle : next s <= next s2) by (eapply HPc; eassumption).
      rewrite (IHcs Hcs Hwcs HPcs s2 ms2 s3 E2)
        by (eapply Forall_impl; [|exact Hrcs];
            intros y; apply refsBelow_mono; exact Hle).
      rewrite (Hc s m s2 Hwc Hrc E1 x).
      cbn [flat_map]. split.
      + intros [[H|(Hp & b & Hb & He)]|(Hp & b & Hb & He)].
        * left. exact H.
        * right. split; [exact Hp|]. exists b. split; [|exact He].
          apply in_or_app. left. exact Hb.
        * right. split; [exact Hp|]. exists b. split; [|exact He].
          apply in_or_app. right. exact Hb.
      + intros [H|(Hp & b & Hb & He)]; [left; left; exact H|].
        apply in_app_or in Hb as [Hb|Hb].
        * left. right. split; [exact Hp|]. exists b. split; assumption.
        * right. split; [exact Hp|]. exists b. split; assumption. }
  destruct (@mapFn_result a cs ms s1 t' s' (next s) Hwf Hrefs Hall Hrun)
    as (Hch & Hraw & Hst & Hgen & _).
  rewrite Hgen. destruct t' as [a' ms']. cbn in Hch, Hraw. subst ms'.
  assert (Hown : expandedBranch x (Tr a' ms) <->
                 nodeIsLeaf (Tr a cs) = false /\ nodeId (Tr a cs) = x /\
                 branchExpanded isSearchable isMultiPick searchTerm
                   isAdditionalFilterApplied expansionListProvided
                   expandedSet (nodeId (Tr a cs)) (found ms) = true).
  { unfold expandedBranch. rewrite Hst.
    unfold expectedT, expected, expectedState, nodeIsLeaf, nodeId. cbn [label].
    rewrite Hraw.
    destruct (isLeaf getNodeChildren (raw a)).
    - split; intros (H & _); discriminate H.
    - cbn [isExpanded getStatefulChildren children].
      split; intros (H1 & H2 & H3); repeat split; congruence. }
  unfold generatedAfterT, generatedAfter. cbn [subtrees].
  destruct (nodeIsLeaf (Tr a cs)) eqn:Eleaf.
  - rewrite Hkids. split.
    + intros [H|(Hp & b & Hb & He)]; [left; exact H|right].
      split; [exact Hp|]. exists b. split; [right; exact Hb|exact He].
    + intros [H|(Hp & b & [<-|Hb] & He)]; [left; exact H| |].
      * apply Hown in He as (He & _). discriminate He.
      * right. split; [exact Hp|]. exists b. split; assumption.
  - destruct (negb expansionListProvided && _) eqn:Eadd.
    + apply andb_true_iff in Eadd as [Eprov Eexp].
      apply negb_true_iff in Eprov.
      rewrite In_add, Hkids. split.
      * intros [[H|(Hp & b & Hb & He)]| ->].
        -- left. exact H.
        -- right. split; [exact Hp|]. exists b.
           split; [right; exact Hb|exact He].
        -- right. split; [exact Eprov|]. exists (Tr a' ms).
           split; [left; reflexivity|]. apply Hown. repeat split.
           exact Eexp.
      * intros [H|(Hp & b & [<-|Hb] & He)].
        -- left. left. exact H.
        -- right. apply Hown in He as (_ & He & _). symmetry. exact He.
        -- left. right. split; [exact Hp|]. exists b. split; assumption.
    + rewrite Hkids. split.
      * intros [H|(Hp & b & Hb & He)]; [left; exact H|right].
        split; [exact Hp|]. exists b. split; [right; exact Hb|exact He].
      * intros [H|(Hp & b & [<-|Hb] & He)]; [left; exact H| |].
        -- apply Hown in He as (_ & _ & He). rewrite He, Hp in Eadd.
           discriminate.
        -- right. split; [exact Hp|]. exists b. split; assumption.
Qed.

End Traversal.

(** ** The visible leaves *)

Section VisibleLeaves.

Variable searchPredicate : RawNode -> list string -> bool.
Variable searchTerms : list string.
Variable filteredList : option (list string).
Variable filteredSet : Js.set.

Let walk := addVisibleLeaves searchPredicate searchTerms filteredList
              filteredSet.
Let shown := shownAt searchPredicate searchTerms filteredList filteredSet.

Lemma walk_eq id cs pm acc :
  walk (Tr id cs) pm acc
  = let nodeMatches := pm || searchPredicate (Tr id cs) searchTerms in
    match cs with
    | [] => if nodeMatches && passesFilter filteredList filteredSet id
            then Js.add acc id else acc
    | _ :: _ => fold_left (fun visible child => walk child nodeMatches visible)
                  cs acc
    end.
Proof.
  unfold walk. cbn [addVisibleLeaves].
  unfold isLeaf, getNodeChildren, getNodeId. cbn [children label].
  destruct pm; cbn [orb]; destruct cs; try reflexivity.
  destruct (searchPredicate _ _); reflexivity.
Qed.

Lemma walk_children cs nm :
  Forall (fun c => forall pm acc x,
            In x (walk c pm acc) <-> In x acc \/ exists p, shown c pm x p)
         cs ->
  forall acc x,
    In x (fold_left (fun visible child => walk child nm visible) cs acc) <->
    In x acc \/ exists i c p, nth_error cs i = Some c /\ shown c nm x p.
Proof.
  induction 1 as [|c cs Hc _ IH]; intros acc x; cbn [fold_left].
  - split; [tauto|]. intros [H|(i & c & p & Hi & _)]; [exact H|].
    destruct i; discriminate Hi.
  - rewrite IH, Hc. split.
    + intros [[H|(p & Hp)]|(i & d & p & Hi & Hp)].
      * left. exact H.
      * right. exists 0, c, p. split; [reflexivity|exact Hp].
      * right. exists (S i), d, p. split; [exact Hi|exact Hp].
    + intros [H|(i & d & p & Hi & Hp)]; [left; left; exact H|].
      destruct i as [|i]; cbn in Hi.
      * injection Hi as <-. left. right. exists p. exact Hp.
      * right. exists i, d, p. split; assumption.
Qed.

Lemma walk_spec node : forall pm acc x,
  In x (walk node pm acc) <-> In x acc \/ exists p, shown node pm x p.
Proof.
  induction node as [id cs IH] using Tree_ind'. intros pm acc x.
  rewrite walk_eq. cbn zeta. destruct cs as [|c0 cs0].
  - assert (Hshown : (exists p, shown (Tr id []) pm x p) <->
                     (pm || searchPredicate (Tr id []) searchTerms)
                     && passesFilter filteredList filteredSet id = true
                     /\ x = id).
    { split.
      - intros (p & l & Hp & _ & Hid & Hm & Hf).
        destruct p as [|i p]; cbn in Hp.
        + injection Hp as <-. cbn in Hid, Hm. subst x.
          rewrite orb_false_r in Hm. rewrite Hm, Hf. split; reflexivity.
        + destruct i; discriminate Hp.
      - intros [H ->]. apply andb_true_iff in H as [Hm Hf].
        exists [], (Tr id []). cbn. rewrite orb_false_r.
        repeat split; assumption. }
    rewrite Hshown.
    destruct (_ && _).
    + rewrite In_add. intuition.
    + intuition discriminate.
  - rewrite (walk_children _ IH). split.
    + intros [H|(i & c & p & Hi & l & Hp & Hl & Hid & Hm & Hf)];
        [left; exact H|right].
      exists (i :: p), l. cbn [at_path nodes_along children existsb].
      unfold RawNode in Hi. rewrite Hi. repeat split; try assumption.
      rewrite orb_assoc. exact Hm.
    + intros [H|(p & l & Hp & Hl & Hid & Hm & Hf)]; [left; exact H|right].
      destruct p as [|i p].
      * cbn in Hp. injection Hp as <-. discriminate Hl.
      * cbn [at_path nodes_along children existsb] in Hp, Hm.
        destruct (nth_error (c0 :: cs0) i) as [c|] eqn:Hi; [|discriminate].
        exists i, c, p. split; [exact Hi|]. exists l.
        repeat split; try assumption.
        rewrite <- orb_assoc. exact Hm.
Qed.

End VisibleLeaves.

(** ** Paths and unique leaf ids *)

Lemma at_path_app {A} p : forall q (t n m : Tree A),
  at_path p t = Some n -> at_path q n = Some m -> at_path (p ++ q) t = Some m.
Proof.
  induction p as [|i p IH]; intros q t n m Hp Hq; cbn in *.
  - injection Hp as <-. exact Hq.
  - destruct (nth_error (children t) i); [|discriminate].
    eapply IH; eassumption.
Qed.

Lemma nodes_along_app {A} p : forall q (t n : Tree A),
  at_path p t = Some n -> In n (nodes_along (p ++ q) t).
Proof.
  induction p as [|i p IH]; intros q t n Hp; cbn in Hp.
  - injection Hp as <-. destruct q; left; reflexivity.
  - cbn [app nodes_along].
    destruct (nth_error (children t) i) as [c|]; [|discriminate].
    right. apply IH. exact Hp.
Qed.

Lemma leaf_at_path p : forall (t l : RawNode),
  at_path p t = Some l -> isLeaf getNodeChildren l = true ->
  In l (getLeaves t).
Proof.
  induction p as [|i p IH]; intros t l Hp Hl; cbn in Hp.
  - injection Hp as <-. destruct t as [a [|c cs]]; [left; reflexivity|].
    discriminate Hl.
  - destruct t as [a cs]. cbn [children] in Hp.
    destruct (nth_error cs i) as [c|] eqn:Hi; [|discriminate].
    assert (Hin : In l (flat_map getLeaves cs)).
    { apply in_flat_map. exists c. split; [eapply nth_error_In, Hi|].
      apply IH; assumption. }
    destruct cs; [destruct i; discriminate Hi|exact Hin].
Qed.

Lemma NoDup_app_disjoint {A} (l1 l2 : list A) a :
  NoDup (l1 ++ l2) -> In a l1 -> In a l2 -> False.
Proof.
  induction l1 as [|x l1 IH]; cbn; intros Hnd H1 H2; [exact H1|].
  inversion Hnd as [|? ? Hx Hnd']; subst.
  destruct H1 as [->|H1].
  - apply Hx, in_or_app. right. exact H2.
  - apply IH; assumption.
Qed.

Lemma NoDup_flat_map_nth {A B C} (f : B -> C) (g : A -> list B) cs :
  NoDup (map f (flat_map g cs)) ->
  forall i j c d x y,
    nth_error cs i = Some c -> nth_error cs j = Some d ->
    In x (g c) -> In y (g d) -> f x = f y ->
    i = j /\ NoDup (map f (g c)).
Proof.
  induction cs as [|c0 cs IH]; intros Hnd i j c d x y Hi Hj Hx Hy Hxy.
  - destruct i; discriminate Hi.
  - cbn [flat_map] in Hnd. rewrite map_app in Hnd.
    assert (Hin : forall k e z, nth_error cs k = Some e -> In z (g e) ->
                                In (f z) (map f (flat_map g cs))).
    { intros k e z Hk Hz. apply in_map, in_flat_map. exists e.
      split; [eapply nth_error_In, Hk|exact Hz]. }
    destruct i as [|i], j as [|j]; cbn in Hi, Hj.
    + injection Hi as <-. split; [reflexivity|].
      eapply NoDup_app_remove_r. exact Hnd.
    + injection Hi as <-. exfalso.
      eapply NoDup_app_disjoint; [exact Hnd|apply in_map, Hx|].
      rewrite Hxy. eapply Hin; eassumption.
    + injection Hj as <-. exfalso.
      eapply NoDup_app_disjoint; [exact Hnd|apply in_map, Hy|].
      rewrite <- Hxy. eapply Hin; eassumption.
    + apply NoDup_app_remove_l in Hnd.
      destruct (IH Hnd i j c d x y Hi Hj Hx Hy Hxy) as [-> H].
      split; [reflexivity|exact H].
Qed.

(** When leaf ids are unique, a leaf id names one position of the tree. *)
Lemma unique_leaf_path (t : RawNode) : forall p q l l',
  NoDup (map getNodeId (getLeaves t)) ->
  at_path p t = Some l -> at_path q t = Some l' ->
  isLeaf getNodeChildren l = true -> isLeaf getNodeChildren l' = true ->
  getNodeId l = getNodeId l' -> p = q.
Proof.
  induction t as [a cs IH] using Tree_ind'.
  intros p q l l' Hnd Hp Hq Hl Hl' Hid.
  destruct cs as [|c0 cs0].
  - destruct p as [|[|i] p]; [|discriminate Hp..].
    destruct q as [|[|j] q]; [reflexivity|discriminate Hq..].
  - destruct p as [|i p]; [injection Hp as <-; discriminate Hl|].
    destruct q as [|j q]; [injection Hq as <-; discriminate Hl'|].
    cbn [at_path children] in Hp, Hq.
    destruct (nth_error (c0 :: cs0) i) as [c|] eqn:Hi; [|discriminate].
    destruct (nth_error (c0 :: cs0) j) as [d|] eqn:Hj; [|discriminate].
    change (getLeaves (Tr a (c0 :: cs0)))
      with (flat_map getLeaves (c0 :: cs0)) in Hnd.
    destruct (@NoDup_flat_map_nth _ _ _ getNodeId getLeaves _ Hnd
                i j c d l l' Hi Hj
                (@leaf_at_path p c l Hp Hl) (@leaf_at_path q d l' Hq Hl') Hid)
      as [<- Hndc].
    rewrite Hi in Hj. injection Hj as <-.
    f_equal. rewrite Forall_forall in IH.
    eapply (IH c); try eassumption. eapply nth_error_In, Hi.
Qed.

(** ** Claims about the visibility resolver *)

Lemma visible_by_walk parse pred tree searchTerm filterApplied isSearchable
    filteredList id :
  negb (isActiveSearch filterApplied isSearchable searchTerm)
  && negb (isProvided filteredList) = false ->
  createIsLeafVisible parse pred tree searchTerm filterApplied isSearchable
    filteredList id = true
  <-> exists p, shownAt pred (parse searchTerm) filteredList
                  (Js.set_of (orEmpty filteredList)) tree false id p.
Proof.
  intros Hmode. unfold createIsLeafVisible. rewrite Hmode.
  rewrite has_In, walk_spec. cbn [In]. tauto.
Qed.

(** C6.  An explicitly empty [filteredList] leaves no id visible.  An unset
    [filteredList] restricts nothing: without an active search every id is
    visible; with an active search an id is visible exactly when it is the
    id of a leaf that matches the predicate itself or through an ancestor,
    so that, leaf ids being unique, a leaf is visible exactly when it or one
    of its ancestors satisfies the predicate. *)
Theorem C6_empty_filter_hides_all_unset_filter_restricts_nothing :
  forall (parse : string -> list string)
         (pred : RawNode -> list string -> bool)
         (tree : RawNode) (searchTerm : string)
         (filterApplied : Js.obool) (isSearchable : bool),
    let visibleWith :=
      createIsLeafVisible parse pred tree searchTerm filterApplied
        isSearchable in
    let matches p :=
      existsb (fun n => pred n (parse searchTerm)) (nodes_along p tree) in
    (forall id, visibleWith (Some []) id = false) /\
    (isActiveSearch filterApplied isSearchable searchTerm = false ->
     forall id, visibleWith None id = true) /\
    (isActiveSearch filterApplied isSearchable searchTerm = true ->
     (forall id,
        visibleWith None id = true <->
        exists p leaf, at_path p tree = Some leaf /\
                       isLeaf getNodeChildren leaf = true /\
                       getNodeId leaf = id /\ matches p = true) /\
     (NoDup (map getNodeId (getLeaves tree)) ->
      forall p leaf,
        at_path p tree = Some leaf -> isLeaf getNodeChildren leaf = true ->
        visibleWith None (getNodeId leaf) = matches p)).
Proof.
  intros parse pred tree searchTerm filterApplied isSearchable
    visibleWith matches.
  assert (Hid : isActiveSearch filterApplied isSearchable searchTerm = true ->
                forall id,
                  visibleWith None id = true <->
                  exists p leaf, at_path p tree = Some leaf /\
                                 isLeaf getNodeChildren leaf = true /\
                                 getNodeId leaf = id /\ matches p = true).
  { intros Hactive id. subst visibleWith.
    rewrite visible_by_walk by (rewrite Hactive; reflexivity).
    unfold shownAt. cbn [orb passesFilter]. split.
    - intros (p & l & H1 & H2 & H3 & H4 & _). exists p, l. tauto.
    - intros (p & l & H1 & H2 & H3 & H4). exists p, l. tauto. }
  split; [|split; [|intros Hactive; split; [apply Hid, Hactive|]]].
  - intros id. subst visibleWith.
    destruct (createIsLeafVisible _ _ _ _ _ _ _ _) eqn:E; [|reflexivity].
    apply visible_by_walk in E.
    + destruct E as (p & l & _ & _ & _ & _ & Hf). cbn in Hf. discriminate Hf.
    + cbn. apply andb_false_r.
  - intros Hidle id. subst visibleWith. unfold createIsLeafVisible.
    rewrite Hidle. reflexivity.
  - intros Hnd p leaf Hp Hleaf.
    destruct (matches p) eqn:Em.
    + apply Hid; [exact Hactive|]. exists p, leaf. tauto.
    + destruct (visibleWith None (getNodeId leaf)) eqn:E; [|reflexivity].
      apply (Hid Hactive) in E as (q & l' & Hq & Hl' & Hsame & Hm).
      assert (q = p) as ->
        by (eapply unique_leaf_path; eassumption).
      congruence.
Qed.

Lemma C6_witness :
  isActiveSearch None true "A" = true /\
  NoDup (map getNodeId (getLeaves C6_tree)) /\
  createIsLeafVisible (fun s => [s]) C6_pred C6_tree "A" None true None
    "leaf2" = true /\
  createIsLeafVisible (fun s => [s]) C6_pred C6_tree "A" None true None
    "leaf3" = false.
Proof.
  assert (Hactive : isActiveSearch None true "A" = true) by reflexivity.
  assert (Hnd : NoDup (map getNodeId (getLeaves C6_tree))).
  { cbn. repeat constructor; cbn; intuition discriminate. }
  destruct (C6_empty_filter_hides_all_unset_filter_restricts_nothing
              (fun s => [s]) C6_pred C6_tree "A" None true)
    as (_ & _ & H).
  destruct (H Hactive) as [_ Hleaf].
  split; [exact Hactive|]. split; [exact Hnd|]. split.
  - apply (Hleaf Hnd [0; 1] (Tr "leaf2" [])); reflexivity.
  - apply (Hleaf Hnd [1] (Tr "leaf3" [])); reflexivity.
Defined.

(** C7.  During an active search a match on a node reaches every leaf below
    it: such a leaf is visible exactly when it passes the [filteredList]
    restriction, whatever the predicate says of the leaf itself.  Nothing
    travels sideways: leaf ids being unique, a leaf that does not match and
    has no matching ancestor is not visible, whichever of its siblings
    match. *)
Theorem C7_matches_propagate_downward_only :
  forall (parse : string -> list string)
         (pred : RawNode -> list string -> bool)
         (tree : RawNode) (searchTerm : string)
         (filterApplied : Js.obool) (isSearchable : bool)
         (filteredList : option (list string)),
    isActiveSearch filterApplied isSearchable searchTerm = true ->
    let visible :=
      createIsLeafVisible parse pred tree searchTerm filterApplied
        isSearchable filteredList in
    (forall p branch q leaf,
       at_path p tree = Some branch ->
       pred branch (parse searchTerm) = true ->
       at_path q branch = Some leaf ->
       isLeaf getNodeChildren leaf = true ->
       visible (getNodeId leaf)
       = match filteredList with
         | None => true
         | Some ids => Js.has ids (getNodeId leaf)
         end) /\
    (NoDup (map getNodeId (getLeaves tree)) ->
     forall p leaf,
       at_path p tree = Some leaf ->
       isLeaf getNodeChildren leaf = true ->
       existsb (fun n => pred n (parse searchTerm)) (nodes_along p tree)
       = false ->
       visible (getNodeId leaf) = false).
Proof.
  intros parse pred tree searchTerm filterApplied isSearchable filteredList
    Hactive visible.
  assert (Hmode : negb (isActiveSearch filterApplied isSearchable searchTerm)
                  && negb (isProvided filteredList) = false)
    by (rewrite Hactive; reflexivity).
  split.
  - intros p branch q leaf Hp Hmatch Hq Hleaf.
    assert (Hpass : passesFilter filteredList
                      (Js.set_of (orEmpty filteredList)) (getNodeId leaf)
                    = match filteredList with
                      | None => true
                      | Some ids => Js.has ids (getNodeId leaf)
                      end).
    { destruct filteredList; cbn; [apply has_set_of|reflexivity]. }
    rewrite <- Hpass. subst visible.
    destruct (passesFilter _ _ _) eqn:Ef.
    + apply visible_by_walk; [exact Hmode|].
      exists (p ++ q), leaf. repeat split; try assumption.
      * eapply at_path_app; eassumption.
      * cbn [orb]. apply existsb_exists. exists branch.
        split; [apply nodes_along_app, Hp|exact Hmatch].
    + destruct (createIsLeafVisible _ _ _ _ _ _ _ _) eqn:E; [|reflexivity].
      apply visible_by_walk in E; [|exact Hmode].
      destruct E as (p' & l & _ & _ & _ & _ & Hf). congruence.
  - intros Hnd p leaf Hp Hleaf Hnone. subst visible.
    destruct (createIsLeafVisible _ _ _ _ _ _ _ _) eqn:E; [|reflexivity].
    apply visible_by_walk in E; [|exact Hmode].
    destruct E as (q & l' & Hq & Hl' & Hsame & Hm & _).
    assert (q = p) as -> by (eapply unique_leaf_path; eassumption).
    cbn [orb] in Hm. congruence.
Qed.

Lemma C7_witness :
  isActiveSearch None true "x" = true /\
  NoDup (map getNodeId (getLeaves C7_tree)) /\
  C7_pred (Tr "leaf1" []) ["x"] = false /\
  createIsLeafVisible (fun s => [s]) C7_pred C7_tree "x" None true
    (Some ["leaf1"; "leaf3"]) "leaf1" = true /\
  createIsLeafVisible (fun s => [s]) C7_pred C7_tree "x" None true
    (Some ["leaf1"; "leaf3"]) "leaf2" = false /\
  C7_pred (Tr "match" []) ["x"] = true /\
  createIsLeafVisible (fun s => [s]) C7_pred C7_tree "x" None true
    (Some ["leaf1"; "leaf3"]) "leaf3" = false.
Proof.
  assert (Hactive : isActiveSearch None true "x" = true) by reflexivity.
  assert (Hnd : NoDup (map getNodeId (getLeaves C7_tree))).
  { cbn. repeat constructor; cbn; intuition discriminate. }
  destruct (C7_matches_propagate_downward_only
              (fun s => [s]) C7_pred C7_tree "x" None true
              (Some ["leaf1"; "leaf3"]) Hactive) as [Hdown Hside].
  split; [exact Hactive|]. split; [exact Hnd|]. split; [reflexivity|].
  split; [|split; [|split; [reflexivity|]]].
  - apply (Hdown [0] (Tr "A" [Tr "leaf1" []; Tr "leaf2" []])
             [0] (Tr "leaf1" [])); reflexivity.
  - apply (Hdown [0] (Tr "A" [Tr "leaf1" []; Tr "leaf2" []])
             [1] (Tr "leaf2" [])); reflexivity.
  - apply (Hside Hnd [1; 1] (Tr "leaf3" [])); reflexivity.
Defined.

(** ** Claims about the reconciliation *)

Lemma subtrees_trans {A} (t : Tree A) : forall b n,
  In b (subtrees t) -> In n (subtrees b) -> In n (subtrees t).
Proof.
  induction t as [a cs IH] using Tree_ind'. intros b n Hb Hn.
  apply subtrees_inv in Hb as [->|(c & Hc & Hb)]; [exact Hn|].
  eapply subtrees_child; [exact Hc|].
  rewrite Forall_forall in IH. eapply IH; eassumption.
Qed.

Lemma Forall_subtrees_sub {A} (Q : Tree A -> Prop) t b :
  Forall Q (subtrees t) -> In b (subtrees t) -> Forall Q (subtrees b).
Proof.
  intros H Hb. apply Forall_forall. intros n Hn.
  rewrite Forall_forall in H. apply H. eapply subtrees_trans; eassumption.
Qed.

(** C4.  Reconciling the output of a reconciliation again, with the same
    inputs, returns the very same tree - the same object at the root and at
    every node below it - and allocates no object. *)
Theorem C4_reconciliation_is_idempotent :
  forall (root : StatefulNode)
         (isSelectable : Js.obool) (isSearchable : bool)
         (isMultiPick : Js.obool) (searchTerm : string)
         (selectedList : list string)
         (propsExpandedList : option (list string))
         (isAdditionalFilterApplied : Js.obool)
         (isLeafVisible : string -> bool)
         (stateExpandedList : option (list string)) (w : World),
    wellFormed root -> refsBelow (nextRef w) root ->
    let again tree :=
      applyPropsToStatefulTree tree isSelectable isSearchable isMultiPick
        searchTerm selectedList propsExpandedList isAdditionalFilterApplied
        isLeafVisible stateExpandedList in
    let first := again root w in
    let second := again (statefulTree (fst first)) (snd first) in
    statefulTree (fst second) = statefulTree (fst first) /\
    nextRef (snd second) = nextRef (snd first).
Proof.
  intros root isSelectable isSearchable isMultiPick searchTerm selectedList
    propsExpandedList isAdditionalFilterApplied isLeafVisible
    stateExpandedList w Hwf Hrefs again first second.
  subst second first again. unfold applyPropsToStatefulTree, applyPropsRun.
  set (run := reconcile _ _ _ _ _ _ _ _ _).
  destruct (run root (mkMapState (nextRef w) [])) as [t1 s1] eqn:E1.
  cbn [fst snd statefulTree nextRef].
  apply run_Post in E1; [|exact Hwf|exact Hrefs].
  destruct E1 as (_ & _ & _ & Hok & _).
  destruct (run_settled (mkMapState (next s1) []) Hok) as [Ht Hn].
  fold run in Ht, Hn.
  destruct (run t1 (mkMapState (next s1) [])) as [t2 s2].
  cbn in Ht, Hn |- *. split; assumption.
Qed.

Lemma sample_wellFormed : wellFormed sampleStateful.
Proof. repeat constructor. Qed.

Lemma sample_refsBelow : refsBelow (nextRef sampleWorld) sampleStateful.
Proof. repeat constructor. Qed.

Lemma C4_witness :
  let again tree :=
    applyPropsToStatefulTree tree (Some true) false (Some true) ""
      ["leaf1"] None None (fun _ => true) None in
  let first := again sampleStateful sampleWorld in
  let second := again (statefulTree (fst first)) (snd first) in
  statefulTree (fst second) = statefulTree (fst first) /\
  nextRef (snd second) = nextRef (snd first).
Proof.
  exact (@C4_reconciliation_is_idempotent sampleStateful (Some true) false
           (Some true) "" ["leaf1"] None None (fun _ => true) None
           sampleWorld sample_wellFormed sample_refsBelow).
Defined.

(** What [applyPropsToStatefulTree] guarantees, in terms of the inputs its
    traversal works with. *)
Lemma applyProps_Post root isSelectable isSearchable isMultiPick searchTerm
    selectedList propsExpandedList isAdditionalFilterApplied isLeafVisible
    stateExpandedList w :
  wellFormed root -> refsBelow (nextRef w) root ->
  let result :=
    applyPropsToStatefulTree root isSelectable isSearchable isMultiPick
      searchTerm selectedList propsExpandedList isAdditionalFilterApplied
      isLeafVisible stateExpandedList w in
  let chosen := chosenExpandedList propsExpandedList stateExpandedList in
  Post isSelectable isSearchable isMultiPick searchTerm
    isAdditionalFilterApplied isLeafVisible (isProvided chosen)
    (Js.set_of (fst (trimSelected isMultiPick selectedList)))
    (Js.set_of (orEmpty chosen))
    (nextRef w) (nextRef (snd result)) root (statefulTree (fst result)).
Proof.
  intros Hwf Hrefs result chosen. subst result chosen.
  unfold applyPropsToStatefulTree, applyPropsRun.
  match goal with |- context [reconcile ?a ?b ?c ?d ?e ?f ?g ?h ?i root ?s] =>
    destruct (reconcile a b c d e f g h i root s) as [t1 s1] eqn:E
  end.
  cbn [fst snd statefulTree nextRef].
  apply run_Post in E; assumption.
Qed.

Lemma settled_branch isSelectable isSearchable isMultiPick searchTerm
    isAdditionalFilterApplied isLeafVisible provided selectedSet expandedSet
    t b :
  settled isSelectable isSearchable isMultiPick searchTerm
    isAdditionalFilterApplied isLeafVisible provided selectedSet expandedSet
    t ->
  In b (subtrees t) -> nodeIsLeaf b = false ->
  let f := found (getStatefulChildren b) in
  getNodeState b
  = mkState (Some (branchSelected f)) (visibleChildFound f)
      (Some (branchIndeterminate f))
      (Some (branchExpanded isSearchable isMultiPick searchTerm
               isAdditionalFilterApplied provided expandedSet (nodeId b) f)).
Proof.
  intros Hok Hb Hbranch f. unfold settled in Hok.
  rewrite Forall_forall in Hok. specialize (Hok b Hb).
  unfold settledNode, expectedState in Hok. rewrite Hbranch in Hok.
  exact Hok.
Qed.

Lemma settled_leaf isSelectable isSearchable isMultiPick searchTerm
    isAdditionalFilterApplied isLeafVisible provided selectedSet expandedSet
    t l :
  settled isSelectable isSearchable isMultiPick searchTerm
    isAdditionalFilterApplied isLeafVisible provided selectedSet expandedSet
    t ->
  In l (subtrees t) -> nodeIsLeaf l = true ->
  isSelected (getNodeState l)
  = leafSelected isSelectable selectedSet (nodeId l) /\
  isVisible (getNodeState l) = isLeafVisible (nodeId l).
Proof.
  intros Hok Hl Hleaf. unfold settled in Hok.
  rewrite Forall_forall in Hok. specialize (Hok l Hl).
  unfold settledNode, expectedState in Hok. rewrite Hleaf in Hok.
  cbn zeta in Hok. split.
  - apply (f_equal isSelected) in Hok. exact Hok.
  - apply (f_equal isVisible) in Hok. exact Hok.
Qed.

Lemma expansion_flag root isSelectable isSearchable isMultiPick searchTerm
    selectedList propsExpandedList isAdditionalFilterApplied isLeafVisible
    stateExpandedList w :
  wellFormed root -> refsBelow (nextRef w) root ->
  forall branch,
    In branch
      (subtrees
         (statefulTree
            (fst (applyPropsToStatefulTree root isSelectable isSearchable
                    isMultiPick searchTerm selectedList propsExpandedList
                    isAdditionalFilterApplied isLeafVisible stateExpandedList
                    w)))) ->
    nodeIsLeaf branch = false ->
    isExpanded (getNodeState branch)
    = Some ((isActiveSearch isAdditionalFilterApplied isSearchable searchTerm
             && isVisible (getNodeState branch))
            || match chosenExpandedList propsExpandedList
                       stateExpandedList with
               | Some ids => Js.has ids (nodeId branch)
               | None =>
                   existsb indeterminateNode (getStatefulChildren branch)
                   || (existsb selectedNode (getStatefulChildren branch)
                       && (negb (Js.truthy isMultiPick)
                           || existsb (fun c => negb (selectedNode c))
                                (getStatefulChildren branch)))
               end).
Proof.
  intros Hwf Hrefs branch Hin Hbranch.
  destruct (@applyProps_Post root isSelectable isSearchable isMultiPick
              searchTerm selectedList propsExpandedList
              isAdditionalFilterApplied isLeafVisible stateExpandedList w
              Hwf Hrefs) as (_ & _ & _ & Hok & _).
  pose proof (@settled_branch _ _ _ _ _ _ _ _ _ _ _ Hok Hin Hbranch)
    as Hst.
  cbv zeta in Hst. rewrite Hst.
  cbn [isExpanded isVisible]. unfold branchExpanded. f_equal.
  destruct (chosenExpandedList propsExpandedList stateExpandedList);
    cbn [isProvided orEmpty]; [rewrite has_set_of|]; reflexivity.
Qed.

(** C8.  After a reconciliation every branch carries the expansion flag
    (searchActive AND newIsVisible) OR (the id is in the expansion list,
    when one was provided; otherwise indeterminateChildFound OR
    (selectedChildFound AND (NOT multiPick OR unselectedChildFound))), the
    aggregates being those of its reconciled children.  On
    root -> {A: [leaf1, leaf2], B: [leaf3]} with leaf1 selected, multi-pick
    and no expansion list, A is indeterminate and expanded and B is not
    expanded. *)
Theorem C8_expansion_flag_formula :
  (forall (root : StatefulNode)
          (isSelectable : Js.obool) (isSearchable : bool)
          (isMultiPick : Js.obool) (searchTerm : string)
          (selectedList : list string)
          (propsExpandedList : option (list string))
          (isAdditionalFilterApplied : Js.obool)
          (isLeafVisible : string -> bool)
          (stateExpandedList : option (list string)) (w : World),
     wellFormed root -> refsBelow (nextRef w) root ->
     let result :=
       fst (applyPropsToStatefulTree root isSelectable isSearchable
              isMultiPick searchTerm selectedList propsExpandedList
              isAdditionalFilterApplied isLeafVisible stateExpandedList w) in
     let searchActive :=
       isActiveSearch isAdditionalFilterApplied isSearchable searchTerm in
     forall branch,
       In branch (subtrees (statefulTree result)) ->
       nodeIsLeaf branch = false ->
       let kids := getStatefulChildren branch in
       let selectedChild := existsb selectedNode kids in
       let unselectedChild := existsb (fun c => negb (selectedNode c)) kids in
       let indeterminateChild := existsb indeterminateNode kids in
       isExpanded (getNodeState branch)
       = Some ((searchActive && isVisible (getNodeState branch))
               || match chosenExpandedList propsExpandedList
                          stateExpandedList with
                  | Some ids => Js.has ids (nodeId branch)
                  | None =>
                      indeterminateChild
                      || (selectedChild
                          && (negb (Js.truthy isMultiPick)
                              || unselectedChild))
                  end))
  /\
  (let result :=
     fst (applyPropsToStatefulTree sampleStateful (Some true) false
            (Some true) "" ["leaf1"] None None (fun _ => true) None
            sampleWorld) in
   exists A B,
     at_path [0] (statefulTree result) = Some A /\ nodeId A = "A" /\
     at_path [1] (statefulTree result) = Some B /\ nodeId B = "B" /\
     isIndeterminate (getNodeState A) = Some true /\
     isExpanded (getNodeState A) = Some true /\
     isExpanded (getNodeState B) = Some false).
Proof.
  split.
  - intros root isSelectable isSearchable isMultiPick searchTerm selectedList
      propsExpandedList isAdditionalFilterApplied isLeafVisible
      stateExpandedList w Hwf Hrefs result searchActive branch Hin Hbranch
      kids selectedChild unselectedChild indeterminateChild.
    exact (@expansion_flag root isSelectable isSearchable isMultiPick
             searchTerm selectedList propsExpandedList
             isAdditionalFilterApplied isLeafVisible stateExpandedList w
             Hwf Hrefs branch Hin Hbranch).
  - cbv zeta. eexists. eexists. repeat split.
Qed.

Lemma C8_witness :
  let result :=
    fst (applyPropsToStatefulTree sampleStateful (Some true) false
           (Some false) "" ["leaf3"] None None (fun _ => true) None
           sampleWorld) in
  let B := nth 1 (children (statefulTree result)) (statefulTree result) in
  wellFormed sampleStateful /\
  refsBelow (nextRef sampleWorld) sampleStateful /\
  In B (subtrees (statefulTree result)) /\
  nodeIsLeaf B = false /\
  isExpanded (getNodeState B) = Some true.
Proof.
  intros result B.
  assert (Hin : In B (subtrees (statefulTree result)))
    by (cbn; tauto).
  assert (Hbranch : nodeIsLeaf B = false) by reflexivity.
  split; [exact sample_wellFormed|]. split; [exact sample_refsBelow|].
  split; [exact Hin|]. split; [exact Hbranch|].
  pose proof (proj1 C8_expansion_flag_formula sampleStateful (Some true)
                false (Some false) "" ["leaf3"] None None (fun _ => true)
                None sampleWorld sample_wellFormed sample_refsBelow B Hin
                Hbranch) as Hflag.
  cbv zeta in Hflag. rewrite Hflag. reflexivity.
Defined.

(** C1.  A list of expanded ids supplied by the caller - the empty list
    included - decides the expansion of every branch: the flag of a branch
    is its membership in that list, ORed with the expansion forced by an
    active search; the engine adds nothing to its own generated list and
    returns the caller's ids.  When neither list is supplied the engine
    derives the flags from the selection under each branch and returns the
    generated list, the ids of exactly the branches it left expanded.  The
    generated list is returned only when the caller's list is unset. *)
Theorem C1_caller_expansion_list_is_authoritative :
  forall (root : StatefulNode)
         (isSelectable : Js.obool) (isSearchable : bool)
         (isMultiPick : Js.obool) (searchTerm : string)
         (selectedList : list string)
         (isAdditionalFilterApplied : Js.obool)
         (isLeafVisible : string -> bool)
         (stateExpandedList : option (list string)) (w : World),
    wellFormed root -> refsBelow (nextRef w) root ->
    let searchActive :=
      isActiveSearch isAdditionalFilterApplied isSearchable searchTerm in
    let engine propsExpandedList stateExpandedList :=
      applyPropsToStatefulTree root isSelectable isSearchable isMultiPick
        searchTerm selectedList propsExpandedList isAdditionalFilterApplied
        isLeafVisible stateExpandedList w in
    let traversal propsExpandedList stateExpandedList :=
      applyPropsRun root isSelectable isSearchable isMultiPick
        searchTerm selectedList propsExpandedList isAdditionalFilterApplied
        isLeafVisible stateExpandedList w in
    (forall callerList,
       let result := fst (engine (Some callerList) stateExpandedList) in
       (forall branch,
          In branch (subtrees (statefulTree result)) ->
          nodeIsLeaf branch = false ->
          isExpanded (getNodeState branch)
          = Some ((searchActive && isVisible (getNodeState branch))
                  || Js.has callerList (nodeId branch))) /\
       generatedExpandedList
         (snd (traversal (Some callerList) stateExpandedList)) = [] /\
       expandedList result = Js.array_from (Js.set_of callerList) /\
       (forall x, In x (expandedList result) <-> In x callerList)) /\
    (let result := fst (engine None None) in
     expandedList result
     = Js.array_from (generatedExpandedList (snd (traversal None None))) /\
     (forall x,
        In x (expandedList result) <->
        exists branch,
          In branch (subtrees (statefulTree result)) /\
          nodeIsLeaf branch = false /\ nodeId branch = x /\
          isExpanded (getNodeState branch) = Some true)) /\
    (forall propsExpandedList,
       isProvided (chosenExpandedList propsExpandedList stateExpandedList)
       = false ->
       propsExpandedList = None).
Proof.
  intros root isSelectable isSearchable isMultiPick searchTerm selectedList
    isAdditionalFilterApplied isLeafVisible stateExpandedList w Hwf Hrefs
    searchActive engine traversal.
  split; [|split].
  - intros callerList result.
    split; [|split; [|split]].
    + intros branch Hin Hbranch.
      rewrite (@expansion_flag root isSelectable isSearchable isMultiPick
                 searchTerm selectedList (Some callerList)
                 isAdditionalFilterApplied isLeafVisible stateExpandedList w
                 Hwf Hrefs branch Hin Hbranch).
      reflexivity.
    + subst traversal. cbv beta. unfold applyPropsRun.
      match goal with |- context [reconcile ?a ?b ?c ?d ?e ?f ?g ?h ?i root ?s] =>
        destruct (reconcile a b c d e f g h i root s) as [t1 s1] eqn:E
      end.
      pose proof (fun x => @run_generated _ _ _ _ _ _ _ _ _ root
                             (mkMapState (nextRef w) []) t1 s1
                             Hwf Hrefs E x) as Hgen.
      cbn [snd]. destruct (generatedExpandedList s1) as [|x g];
        [reflexivity|exfalso].
      destruct (proj1 (Hgen x) (or_introl eq_refl)) as [[]|(Hp & _)].
      discriminate Hp.
    + subst result engine. cbv beta.
      unfold applyPropsToStatefulTree.
      destruct (applyPropsRun _ _ _ _ _ _ _ _ _ _ _) as [t1 s1].
      reflexivity.
    + intros x. subst result engine. cbv beta.
      unfold applyPropsToStatefulTree.
      destruct (applyPropsRun _ _ _ _ _ _ _ _ _ _ _) as [t1 s1].
      cbn [fst expandedList chosenExpandedList isProvided orEmpty].
      apply In_set_of.
  - intros result. subst result engine traversal. cbv beta.
    unfold applyPropsToStatefulTree.
    destruct (applyPropsRun _ _ _ _ _ _ _ _ _ _ _) as [t1 s1] eqn:E.
    cbn [fst snd expandedList statefulTree chosenExpandedList isProvided].
    split; [reflexivity|]. intros x.
    unfold applyPropsRun in E.
    rewrite (@run_generated _ _ _ _ _ _ _ _ _ root
               (mkMapState (nextRef w) []) t1 s1 Hwf Hrefs E x).
    cbn [generatedExpandedList In chosenExpandedList isProvided].
    unfold expandedBranch. split.
    + intros [[]|(_ & b & Hb & H1 & H2 & H3)]. exists b. tauto.
    + intros (b & Hb & H1 & H2 & H3). right. split; [reflexivity|].
      exists b. tauto.
  - intros [l|] H; [discriminate H|reflexivity].
Qed.

Lemma C1_witness :
  let result :=
    fst (applyPropsToStatefulTree sampleStateful (Some true) false
           (Some true) "" ["leaf1"] (Some []) None (fun _ => true) None
           sampleWorld) in
  let A := nth 0 (children (statefulTree result)) (statefulTree result) in
  wellFormed sampleStateful /\
  refsBelow (nextRef sampleWorld) sampleStateful /\
  nodeId A = "A" /\
  isIndeterminate (getNodeState A) = Some true /\
  isExpanded (getNodeState A) = Some false /\
  expandedList result = [].
Proof.
  intros result A.
  destruct (@C1_caller_expansion_list_is_authoritative sampleStateful
              (Some true) false (Some true) "" ["leaf1"] None
              (fun _ => true) None sampleWorld
              sample_wellFormed sample_refsBelow) as (Hexplicit & _ & _).
  destruct (Hexplicit []) as (Hflag & _ & Hlist & _).
  split; [exact sample_wellFormed|]. split; [exact sample_refsBelow|].
  split; [reflexivity|]. split; [reflexivity|]. split.
  - rewrite (Hflag A); [reflexivity|cbn; tauto|reflexivity].
  - exact Hlist.
Defined.

(** C9.  With multi-pick disabled and more than one selected id, the engine
    keeps the first id and that id alone: the selection in effect is the
    one-element list of the first id, one diagnostic is written, and the
    result - tree, expansion list and allocations - is that of reconciling
    with the first id alone.  The call does not fail: on a well-formed tree
    it returns a well-formed tree over the same nodes of the caller, in
    which a leaf is selected exactly when selection is enabled and its id
    is the first id, so that the second and later ids select nothing. *)
Theorem C9_single_pick_keeps_first_id :
  forall (root : StatefulNode)
         (isSelectable : Js.obool) (isSearchable : bool)
         (isMultiPick : Js.obool) (searchTerm : string)
         (first second : string) (rest : list string)
         (propsExpandedList : option (list string))
         (isAdditionalFilterApplied : Js.obool)
         (isLeafVisible : string -> bool)
         (stateExpandedList : option (list string)) (w : World),
    Js.truthy isMultiPick = false ->
    let engine selectedList :=
      applyPropsToStatefulTree root isSelectable isSearchable isMultiPick
        searchTerm selectedList propsExpandedList isAdditionalFilterApplied
        isLeafVisible stateExpandedList w in
    let many := engine (first :: second :: rest) in
    let one := engine [first] in
    fst many = fst one /\
    nextRef (snd many) = nextRef (snd one) /\
    console (snd many) = console w ++ [singlePickWarning] /\
    console (snd one) = console w /\
    effectiveSelection isMultiPick (first :: second :: rest) = [first] /\
    (wellFormed root -> refsBelow (nextRef w) root ->
     let out := statefulTree (fst many) in
     wellFormed out /\
     skeleton out = skeleton root /\
     forall leaf,
       In leaf (subtrees out) -> nodeIsLeaf leaf = true ->
       isSelected (getNodeState leaf)
       = Js.and isSelectable (String.eqb (nodeId leaf) first)).
Proof.
  intros root isSelectable isSearchable isMultiPick searchTerm first second
    rest propsExpandedList isAdditionalFilterApplied isLeafVisible
    stateExpandedList w Hsingle engine many one.
  assert (Htrim : trimSelected isMultiPick (first :: second :: rest)
                  = ([first], [singlePickWarning])).
  { unfold trimSelected. now rewrite Hsingle. }
  split; [|split; [|split; [|split; [|split]]]].
  - subst many one engine. cbv beta.
    unfold applyPropsToStatefulTree, applyPropsRun. rewrite Htrim.
    cbn [fst snd trimSelected].
    match goal with
    | |- context [reconcile ?a ?b ?c ?d ?e ?f ?g ?h ?i root ?s] =>
        destruct (reconcile a b c d e f g h i root s) as [t1 s1]
    end.
    reflexivity.
  - subst many one engine. cbv beta.
    unfold applyPropsToStatefulTree, applyPropsRun. rewrite Htrim.
    cbn [fst snd trimSelected].
    match goal with
    | |- context [reconcile ?a ?b ?c ?d ?e ?f ?g ?h ?i root ?s] =>
        destruct (reconcile a b c d e f g h i root s) as [t1 s1]
    end.
    reflexivity.
  - subst many engine. cbv beta.
    unfold applyPropsToStatefulTree. rewrite Htrim.
    destruct (applyPropsRun _ _ _ _ _ _ _ _ _ _ _) as [t1 s1].
    reflexivity.
  - subst one engine. cbv beta.
    unfold applyPropsToStatefulTree. cbn [trimSelected snd].
    destruct (applyPropsRun _ _ _ _ _ _ _ _ _ _ _) as [t1 s1].
    cbn [snd console]. apply app_nil_r.
  - unfold effectiveSelection. now rewrite Htrim.
  - intros Hwf Hrefs out.
    pose proof (@applyProps_Post root isSelectable isSearchable isMultiPick
                  searchTerm (first :: second :: rest) propsExpandedList
                  isAdditionalFilterApplied isLeafVisible stateExpandedList
                  w Hwf Hrefs) as HP.
    cbv zeta in HP. rewrite Htrim in HP. cbn [fst] in HP.
    destruct HP as (_ & _ & _ & Hok & Hwf' & Hsk).
    split; [exact Hwf'|]. split; [exact Hsk|].
    intros leaf Hin Hleaf.
    destruct (@settled_leaf _ _ _ _ _ _ _ _ _ _ _ Hok Hin Hleaf) as [Hsel _].
    rewrite Hsel. unfold leafSelected. rewrite has_set_of.
    cbn [Js.has existsb]. now rewrite orb_false_r.
Qed.

Lemma C9_witness :
  let engine selectedList :=
    applyPropsToStatefulTree sampleStateful (Some true) false (Some false)
      "" selectedList None None (fun _ => true) None sampleWorld in
  let out := statefulTree (fst (engine ["leaf2"; "leaf1"; "leaf3"])) in
  wellFormed sampleStateful /\
  refsBelow (nextRef sampleWorld) sampleStateful /\
  fst (engine ["leaf2"; "leaf1"; "leaf3"]) = fst (engine ["leaf2"]) /\
  console (snd (engine ["leaf2"; "leaf1"; "leaf3"])) = [singlePickWarning] /\
  map (fun l => (nodeId l, isSelected (getNodeState l))) (leafNodes out)
  = [("leaf1", Some false); ("leaf2", Some true); ("leaf3", Some false)].
Proof.
  intros engine out.
  destruct (@C9_single_pick_keeps_first_id sampleStateful (Some true) false
              (Some false) "" "leaf2" "leaf1" ["leaf3"] None None
              (fun _ => true) None sampleWorld eq_refl)
    as (Hsame & _ & Hwarn & _ & _ & Hkept).
  destruct (Hkept sample_wellFormed sample_refsBelow) as (_ & _ & Hleaf).
  fold engine in Hleaf. fold out in Hleaf.
  split; [exact sample_wellFormed|]. split; [exact sample_refsBelow|].
  split; [exact Hsame|]. split; [exact Hwarn|].
  change (leafNodes out)
    with [nth 0 (leafNodes out) sampleStateful;
          nth 1 (leafNodes out) sampleStateful;
          nth 2 (leafNodes out) sampleStateful].
  cbn [map].
  rewrite !Hleaf by (reflexivity || (cbn; tauto)).
  reflexivity.
Defined.

(** ** The returned expansion list *)

Lemma filter_twice {A} (f g : A -> bool) l :
  filter f (filter g l) = filter (fun x => g x && f x) l.
Proof.
  induction l as [|x l IH]; cbn; [reflexivity|].
  destruct (g x); cbn; [destruct (f x)|]; now rewrite IH.
Qed.

Lemma fold_add_keepFirst l : forall s,
  fold_left Js.add l s
  = s ++ filter (fun y => negb (Js.has s y)) (keepFirst l).
Proof.
  induction l as [|x l IH]; intros s; cbn [fold_left keepFirst filter].
  - now rewrite app_nil_r.
  - rewrite IH. unfold Js.add. destruct (Js.has s x) eqn:E; cbn [negb].
    + f_equal. rewrite filter_twice. apply filter_ext. intros y.
      destruct (String.eqb_spec y x) as [->|]; cbn.
      * now rewrite E.
      * reflexivity.
    + rewrite <- app_assoc. cbn [app]. do 2 f_equal.
      rewrite filter_twice. apply filter_ext. intros y.
      rewrite has_app. cbn. rewrite orb_false_r, negb_orb.
      apply andb_comm.
Qed.

Lemma set_of_keepFirst l : Js.set_of l = keepFirst l.
Proof.
  unfold Js.set_of. rewrite fold_add_keepFirst. cbn.
  induction (keepFirst l) as [|x k IH]; cbn; [reflexivity|].
  now rewrite IH.
Qed.

(** C10.  With a list supplied by the caller, the list the engine returns is
    that list with duplicates removed, first occurrences kept in order: the
    same ids as the caller's list, but not always the same list. *)
Theorem C10_returned_list_is_deduplicated :
  forall (root : StatefulNode)
         (isSelectable : Js.obool) (isSearchable : bool)
         (isMultiPick : Js.obool) (searchTerm : string)
         (selectedList : list string)
         (isAdditionalFilterApplied : Js.obool)
         (isLeafVisible : string -> bool)
         (stateExpandedList : option (list string)) (w : World),
    let returned callerList :=
      expandedList
        (fst (applyPropsToStatefulTree root isSelectable isSearchable
                isMultiPick searchTerm selectedList (Some callerList)
                isAdditionalFilterApplied isLeafVisible stateExpandedList
                w)) in
    (forall callerList,
       returned callerList = keepFirst callerList /\
       (forall x, In x (returned callerList) <-> In x callerList)) /\
    returned ["a"; "b"; "a"] = ["a"; "b"] /\
    returned ["a"; "b"; "a"] <> ["a"; "b"; "a"].
Proof.
  intros root isSelectable isSearchable isMultiPick searchTerm selectedList
    isAdditionalFilterApplied isLeafVisible stateExpandedList w returned.
  assert (Hret : forall callerList,
             returned callerList = Js.set_of callerList).
  { intros callerList. subst returned. cbv beta.
    unfold applyPropsToStatefulTree.
    destruct (applyPropsRun _ _ _ _ _ _ _ _ _ _ _) as [t1 s1].
    reflexivity. }
  split; [|split].
  - intros callerList. rewrite Hret. split.
    + apply set_of_keepFirst.
    + intros x. apply In_set_of.
  - rewrite Hret. reflexivity.
  - rewrite Hret. cbn. discriminate.
Qed.

(** ** Tri-state selection *)

Lemma subtrees_descendants {A} (t : Tree A) :
  subtrees t = t :: descendants t.
Proof. destruct t; reflexivity. Qed.

Lemma wf_root n :
  wellFormed n -> nodeIsLeaf n = isLeaf getStatefulChildren n.
Proof.
  intros H. unfold wellFormed in H. rewrite Forall_forall in H.
  apply H, subtrees_self.
Qed.

Lemma wf_leaf_descendants n :
  wellFormed n -> nodeIsLeaf n = true -> descendants n = [].
Proof.
  intros Hwf Hleaf. apply wf_root in Hwf. rewrite Hleaf in Hwf.
  unfold descendants. unfold isLeaf, getStatefulChildren in Hwf.
  destruct (children n); [reflexivity|discriminate].
Qed.

Lemma wf_has_leaf n :
  wellFormed n -> exists l, In l (subtrees n) /\ nodeIsLeaf l = true.
Proof.
  induction n as [a cs IH] using Tree_ind'. intros Hwf.
  destruct (nodeIsLeaf (Tr a cs)) eqn:Eleaf.
  - exists (Tr a cs). split; [apply subtrees_self|exact Eleaf].
  - pose proof (wf_root Hwf) as Hroot. rewrite Eleaf in Hroot.
    apply Forall_subtrees in Hwf as [_ Hwfs].
    destruct cs as [|c cs]; [discriminate Hroot|].
    inversion IH as [|? ? Hc _]; subst.
    inversion Hwfs as [|? ? Hwc _]; subst.
    destruct (Hc Hwc) as (l & Hl & Hleaf).
    exists l. split; [|exact Hleaf].
    eapply subtrees_child; [left; reflexivity|exact Hl].
Qed.

Lemma branchSelected_all cs :
  branchSelected (found cs) = true <->
  forall c, In c cs -> indeterminateNode c = false /\ selectedNode c = true.
Proof.
  unfold branchSelected, found. cbn.
  rewrite andb_true_iff, !negb_true_iff. split.
  - intros [Hi Hu] c Hc. split.
    + destruct (indeterminateNode c) eqn:E; [|reflexivity].
      assert (existsb indeterminateNode cs = true)
        by (apply existsb_exists; exists c; tauto).
      congruence.
    + destruct (selectedNode c) eqn:E; [reflexivity|].
      assert (existsb (fun c => negb (selectedNode c)) cs = true)
        by (apply existsb_exists; exists c; rewrite E; tauto).
      congruence.
  - intros H. split.
    + destruct (existsb indeterminateNode cs) eqn:E; [|reflexivity].
      apply existsb_exists in E as (c & Hc & E).
      destruct (H c Hc) as [Hi _]. congruence.
    + destruct (existsb _ cs) eqn:E; [|reflexivity].
      apply existsb_exists in E as (c & Hc & E).
      destruct (H c Hc) as [_ Hs]. rewrite Hs in E. discriminate E.
Qed.

Section TriState.

Variable isSelectable : Js.obool.
Variable isSearchable : bool.
Variable isMultiPick : Js.obool.
Variable searchTerm : string.
Variable isAdditionalFilterApplied : Js.obool.
Variable isLeafVisible : string -> bool.
Variable expansionListProvided : bool.
Variable selectedSet : Js.set.
Variable expandedSet : Js.set.

Let ok := settled isSelectable isSearchable isMultiPick searchTerm
            isAdditionalFilterApplied isLeafVisible expansionListProvided
            selectedSet expandedSet.

Lemma tri_state t :
  ok t -> wellFormed t -> nodeIsLeaf t = false ->
  (selectedNode t = true <-> fullySelected t) /\
  (indeterminateNode t = true <->
   selectedNode t = false /\ partlySelected t).
Proof.
  induction t as [a cs IH] using Tree_ind'. intros Hok Hwf Hbranch.
  pose proof (@settled_branch _ _ _ _ _ _ _ _ _ _ _ Hok
                (subtrees_self (Tr a cs)) Hbranch) as Hst.
  cbv zeta in Hst. unfold getStatefulChildren in Hst. cbn [children] in Hst.
  apply Forall_subtrees in Hok as [_ Hoks].
  apply Forall_subtrees in Hwf as [_ Hwfs].
  rewrite Forall_forall in IH, Hoks, Hwfs.
  assert (Hsel : selectedNode (Tr a cs) = branchSelected (found cs))
    by (unfold selectedNode; rewrite Hst; cbn [isSelected];
        destruct (branchSelected (found cs)); reflexivity).
  assert (Hind : indeterminateNode (Tr a cs)
                 = branchIndeterminate (found cs))
    by (unfold indeterminateNode; rewrite Hst; cbn [isIndeterminate];
        destruct (branchIndeterminate (found cs)); reflexivity).
  assert (Hdesc : forall n, In n (descendants (Tr a cs)) <->
                            exists c, In c cs /\ In n (subtrees c)).
  { intros n. unfold descendants. cbn [children]. apply in_flat_map. }
  assert (Hfull : selectedNode (Tr a cs) = true <-> fullySelected (Tr a cs)).
  { rewrite Hsel, branchSelected_all. unfold fullySelected. split.
    - intros Hall. split.
      + intros l Hl Hleaf. apply Hdesc in Hl as (c & Hc & Hl).
        destruct (Hall c Hc) as [_ Hcs].
        rewrite subtrees_descendants in Hl. destruct Hl as [<-|Hl];
          [exact Hcs|].
        destruct (nodeIsLeaf c) eqn:Ec.
        * rewrite (wf_leaf_descendants (Hwfs c Hc) Ec) in Hl. destruct Hl.
        * apply (IH c Hc (Hoks c Hc) (Hwfs c Hc) Ec) in Hcs.
          apply Hcs; assumption.
      + intros d Hd. apply Hdesc in Hd as (c & Hc & Hd).
        destruct (Hall c Hc) as [Hci Hcs].
        rewrite subtrees_descendants in Hd. destruct Hd as [<-|Hd];
          [exact Hci|].
        destruct (nodeIsLeaf c) eqn:Ec.
        * rewrite (wf_leaf_descendants (Hwfs c Hc) Ec) in Hd. destruct Hd.
        * apply (IH c Hc (Hoks c Hc) (Hwfs c Hc) Ec) in Hcs.
          apply Hcs; assumption.
    - intros [Hleaves Hnone] c Hc.
      assert (Hself : In c (descendants (Tr a cs)))
        by (apply Hdesc; exists c; split; [exact Hc|apply subtrees_self]).
      split; [apply Hnone, Hself|].
      destruct (nodeIsLeaf c) eqn:Ec; [apply Hleaves; assumption|].
      apply (IH c Hc (Hoks c Hc) (Hwfs c Hc) Ec). split.
      + intros l Hl. apply Hleaves, Hdesc. exists c. split; [exact Hc|].
        rewrite subtrees_descendants. right. exact Hl.
      + intros d Hd. apply Hnone, Hdesc. exists c. split; [exact Hc|].
        rewrite subtrees_descendants. right. exact Hd. }
  split; [exact Hfull|].
  rewrite Hind. unfold branchIndeterminate.
  rewrite andb_true_iff, negb_true_iff, <- Hsel, orb_true_iff.
  unfold found. cbn [indeterminateChildFound selectedChildFound].
  unfold partlySelected, getStatefulChildren. cbn [children].
  split; intros [Hnot Hsome]; (split; [exact Hnot|]).
  - destruct Hsome as [Hsome|Hsome];
      apply existsb_exists in Hsome as (c & Hc & Hprop).
    + right. exists c. split; assumption.
    + left. destruct (nodeIsLeaf c) eqn:Ec.
      * exists c. split; [|split; assumption].
        apply Hdesc. exists c. split; [exact Hc|apply subtrees_self].
      * destruct (wf_has_leaf (Hwfs c Hc)) as (l & Hl & Hleaf).
        assert (Hl' : In l (descendants c)).
        { rewrite subtrees_descendants in Hl. destruct Hl as [<-|Hl];
            [congruence|exact Hl]. }
        exists l. split; [|split; [exact Hleaf|]].
        -- apply Hdesc. exists c. split; [exact Hc|].
           rewrite subtrees_descendants. right. exact Hl'.
        -- apply (IH c Hc (Hoks c Hc) (Hwfs c Hc) Ec) in Hprop.
           apply Hprop; assumption.
  - destruct Hsome as [(l & Hl & Hleaf & Hls)|(c & Hc & Hci)].
    + apply Hdesc in Hl as (c & Hc & Hl).
      rewrite subtrees_descendants in Hl. destruct Hl as [<-|Hl].
      * right. apply existsb_exists. exists c. split; assumption.
      * destruct (nodeIsLeaf c) eqn:Ec.
        { rewrite (wf_leaf_descendants (Hwfs c Hc) Ec) in Hl. destruct Hl. }
        destruct (selectedNode c) eqn:Ecs.
        -- right. apply existsb_exists. exists c. split; assumption.
        -- left. apply existsb_exists. exists c. split; [exact Hc|].
           apply (IH c Hc (Hoks c Hc) (Hwfs c Hc) Ec). split; [exact Ecs|].
           left. exists l. repeat split; assumption.
    + left. apply existsb_exists. exists c. split; assumption.
Qed.

End TriState.

(** C3.  After a reconciliation, a branch is selected exactly when every
    leaf below it is selected and nothing below it is indeterminate; it is
    indeterminate exactly when it is not selected and either some leaf below
    it is selected or one of its children is indeterminate.  A branch over
    two leaves is selected and not indeterminate when both are selected,
    indeterminate and not selected when one is, and neither when none is. *)
Theorem C3_tri_state_selection :
  (forall (root : StatefulNode)
          (isSelectable : Js.obool) (isSearchable : bool)
          (isMultiPick : Js.obool) (searchTerm : string)
          (selectedList : list string)
          (propsExpandedList : option (list string))
          (isAdditionalFilterApplied : Js.obool)
          (isLeafVisible : string -> bool)
          (stateExpandedList : option (list string)) (w : World),
     wellFormed root -> refsBelow (nextRef w) root ->
     let result :=
       fst (applyPropsToStatefulTree root isSelectable isSearchable
              isMultiPick searchTerm selectedList propsExpandedList
              isAdditionalFilterApplied isLeafVisible stateExpandedList w) in
     forall branch,
       In branch (subtrees (statefulTree result)) ->
       nodeIsLeaf branch = false ->
       (selectedNode branch = true <-> fullySelected branch) /\
       (indeterminateNode branch = true <->
        selectedNode branch = false /\ partlySelected branch))
  /\
  (let stateFor selectedList :=
     getNodeState
       (statefulTree
          (fst (applyPropsToStatefulTree twoLeaves (Some true) false
                  (Some true) "" selectedList None None (fun _ => true)
                  None twoLeavesWorld))) in
   (isSelected (stateFor ["x"; "y"]) = Some true /\
    isIndeterminate (stateFor ["x"; "y"]) = Some false) /\
   (isSelected (stateFor ["x"]) = Some false /\
    isIndeterminate (stateFor ["x"]) = Some true) /\
   (isSelected (stateFor []) = Some false /\
    isIndeterminate (stateFor []) = Some false)).
Proof.
  split.
  - intros root isSelectable isSearchable isMultiPick searchTerm selectedList
      propsExpandedList isAdditionalFilterApplied isLeafVisible
      stateExpandedList w Hwf Hrefs result branch Hin Hbranch.
    destruct (@applyProps_Post root isSelectable isSearchable isMultiPick
                searchTerm selectedList propsExpandedList
                isAdditionalFilterApplied isLeafVisible stateExpandedList w
                Hwf Hrefs) as (_ & _ & _ & Hok & Hwf' & _).
    eapply tri_state.
    + eapply Forall_subtrees_sub; [exact Hok|exact Hin].
    + eapply Forall_subtrees_sub; [exact Hwf'|exact Hin].
    + exact Hbranch.
  - cbv zeta. repeat split.
Qed.

Lemma C3_witness :
  let result :=
    fst (applyPropsToStatefulTree sampleStateful (Some true) false
           (Some true) "" ["leaf1"; "leaf3"] None None (fun _ => true) None
           sampleWorld) in
  wellFormed sampleStateful /\
  refsBelow (nextRef sampleWorld) sampleStateful /\
  In (statefulTree result) (subtrees (statefulTree result)) /\
  nodeIsLeaf (statefulTree result) = false /\
  indeterminateNode (statefulTree result) = true /\
  partlySelected (statefulTree result).
Proof.
  intros result.
  assert (Hin : In (statefulTree result) (subtrees (statefulTree result)))
    by apply subtrees_self.
  assert (Hbranch : nodeIsLeaf (statefulTree result) = false)
    by reflexivity.
  destruct (proj1 C3_tri_state_selection sampleStateful (Some true) false
              (Some true) "" ["leaf1"; "leaf3"] None None (fun _ => true)
              None sampleWorld sample_wellFormed sample_refsBelow
              (statefulTree result) Hin Hbranch) as [_ Hind].
  split; [exact sample_wellFormed|]. split; [exact sample_refsBelow|].
  split; [exact Hin|]. split; [exact Hbranch|].
  split; [reflexivity|]. apply Hind. reflexivity.
Defined.

(** ** Locality of a selection change *)

Lemma existsb_flat_map {A B} (f : B -> bool) (g : A -> list B) l :
  existsb f (flat_map g l) = existsb (fun x => existsb f (g x)) l.
Proof.
  induction l as [|x l IH]; cbn; [reflexivity|].
  now rewrite existsb_app, IH.
Qed.

Lemma mapM_rel (f : StatefulNode -> St MapState StatefulNode)
    (Pre : StatefulNode -> Prop)
    (R : nat -> nat -> StatefulNode -> StatefulNode -> Prop) :
  (forall k1 k1' k k' t t',
     k <= k1 -> k1' <= k' -> R k1 k1' t t' -> R k k' t t') ->
  (forall k k' t t', R k k' t t' -> k <= k') ->
  forall cs,
    Forall (fun c => forall s t' s',
              Pre c -> refsBelow (next s) c -> f c s = (t', s') ->
              R (next s) (next s') c t') cs ->
    forall s ms s',
      Forall Pre cs -> Forall (refsBelow (next s)) cs ->
      mapM f cs s = (ms, s') ->
      next s <= next s' /\ Forall2 (R (next s) (next s')) cs ms.
Proof.
  intros Hmono Hle cs.
  induction 1 as [|c cs Hc _ IH]; intros s ms s' Hpre Hrefs Hrun;
    cbn in Hrun.
  - injection Hrun as <- <-. split; [lia|constructor].
  - unfold bind in Hrun.
    destruct (f c s) as [m s1] eqn:E1.
    destruct (mapM f cs s1) as [ms1 s2] eqn:E2.
    injection Hrun as <- <-.
    inversion Hpre as [|? ? Hpc Hpcs]; subst.
    inversion Hrefs as [|? ? Hrc Hrcs]; subst.
    specialize (Hc s m s1 Hpc Hrc E1).
    pose proof (Hle _ _ _ _ Hc) as Hle1.
    destruct (IH s1 ms1 s2 Hpcs) as [Hle2 Hall]; [|exact E2|].
    { eapply Forall_impl; [|exact Hrcs].
      intros x. apply refsBelow_mono. exact Hle1. }
    split; [lia|]. constructor.
    + eapply Hmono; [| |exact Hc]; lia.
    + eapply Forall2_impl; [|exact Hall].
      intros x y. apply Hmono; lia.
Qed.

Lemma onPathTo_eq L a cs :
  onPathTo L (Tr a cs)
  = (nodeIsLeaf (Tr a cs) && String.eqb (nodeId (Tr a cs)) L)
    || existsb (onPathTo L) cs.
Proof.
  unfold onPathTo. cbn [subtrees existsb]. f_equal.
  apply existsb_flat_map.
Qed.

Section Locality.

Variable isSelectable : Js.obool.
Variable isSearchable : bool.
Variable isMultiPick : Js.obool.
Variable searchTerm : string.
Variable isAdditionalFilterApplied : Js.obool.
Variable isLeafVisible : string -> bool.
Variable expansionListProvided : bool.
Variable selectedSet selectedSet' : Js.set.
Variable expandedSet : Js.set.
Variable L : string.

Hypothesis selectable : isSelectable = Some true.
Hypothesis toggled : Js.has selectedSet' L = negb (Js.has selectedSet L).
Hypothesis others :
  forall x, x <> L -> Js.has selectedSet' x = Js.has selectedSet x.

Let ok := settled isSelectable isSearchable isMultiPick searchTerm
            isAdditionalFilterApplied isLeafVisible expansionListProvided
            selectedSet expandedSet.
Let ok' := settled isSelectable isSearchable isMultiPick searchTerm
             isAdditionalFilterApplied isLeafVisible expansionListProvided
             selectedSet' expandedSet.
Let run' := reconcile isSelectable isSearchable isMultiPick searchTerm
              isAdditionalFilterApplied isLeafVisible expansionListProvided
              selectedSet' expandedSet.
Let mapFn' := mapFunction isSelectable isSearchable isMultiPick searchTerm
                isAdditionalFilterApplied isLeafVisible expansionListProvided
                selectedSet' expandedSet.
Let Post' := Post isSelectable isSearchable isMultiPick searchTerm
               isAdditionalFilterApplied isLeafVisible expansionListProvided
               selectedSet' expandedSet.
Let expected' := expected isSelectable isSearchable isMultiPick searchTerm
                   isAdditionalFilterApplied isLeafVisible
                   expansionListProvided selectedSet' expandedSet.

Lemma Moved_mono k1 k1' k k' t t' :
  k <= k1 -> k1' <= k' -> Moved L k1 k1' t t' -> Moved L k k' t t'.
Proof.
  intros H1 H2 H p n Hp. destruct (H p n Hp) as (n' & Hn' & Hcase).
  exists n'. split; [exact Hn'|].
  destruct (onPathTo L n); [lia|exact Hcase].
Qed.

Lemma off_path_node n :
  nodeIsLeaf n && String.eqb (nodeId n) L = false ->
  expectedState isSelectable isSearchable isMultiPick searchTerm
    isAdditionalFilterApplied isLeafVisible expansionListProvided
    selectedSet' expandedSet n
  = expectedState isSelectable isSearchable isMultiPick searchTerm
      isAdditionalFilterApplied isLeafVisible expansionListProvided
      selectedSet expandedSet n.
Proof.
  intros Hoff. unfold expectedState.
  destruct (nodeIsLeaf n); [|reflexivity].
  cbn [andb] in Hoff. apply String.eqb_neq in Hoff.
  unfold leafSelected. now rewrite (others Hoff).
Qed.

Lemma off_path_settled t : ok t -> onPathTo L t = false -> ok' t.
Proof.
  intros Hok Hoff. unfold ok, ok', settled in *.
  rewrite Forall_forall in *. intros n Hn.
  unfold settledNode. rewrite off_path_node; [apply Hok, Hn|].
  unfold onPathTo in Hoff.
  destruct (nodeIsLeaf n && String.eqb (nodeId n) L) eqn:E; [|reflexivity].
  rewrite <- Hoff. symmetry. apply existsb_exists. exists n. tauto.
Qed.

Lemma Forall2_nth {A B} (R : A -> B -> Prop) l m :
  Forall2 R l m ->
  forall i a, nth_error l i = Some a ->
              exists b, nth_error m i = Some b /\ R a b.
Proof.
  induction 1 as [|x y l m Hxy _ IH]; intros i a Hi.
  - destruct i; discriminate Hi.
  - destruct i as [|i]; cbn in Hi.
    + injection Hi as <-. exists y. split; [reflexivity|exact Hxy].
    + apply IH, Hi.
Qed.

Lemma toggle_node a cs ms s1 t' s' k :
  ok (Tr a cs) -> wellFormed (Tr a cs) -> refsBelow k (Tr a cs) ->
  k <= next s1 ->
  Forall2 (fun c m => Post' k (next s1) c m /\ Moved L k (next s1) c m) cs ms ->
  mapFn' (Tr a cs) ms s1 = (t', s') ->
  Moved L k (next s') (Tr a cs) t'.
Proof.
  intros Hok Hwf Hrefs Hk Hall Hrun.
  pose proof (wf_root Hwf) as Hroot.
  apply Forall_subtrees in Hrefs as [Hrk Hrefs].
  assert (HallP : Forall2 (Post' k (next s1)) cs ms)
    by (eapply Forall2_impl; [|exact Hall]; intros ? ? [H _]; exact H).
  destruct (@mapFn_result isSelectable isSearchable isMultiPick searchTerm
              isAdditionalFilterApplied isLeafVisible expansionListProvided
              selectedSet' expandedSet a cs ms s1 t' s' k Hroot Hrefs HallP
              Hrun) as (Hch & _ & Hst & _ & Hcases).
  assert (Hnext : next s1 <= next s')
    by (destruct Hcases as [(_ & -> & _)|(_ & -> & _)]; lia).
  intros p n Hp. destruct p as [|i p].
  - (* the node itself *)
    cbn in Hp. injection Hp as <-. exists t'. split; [reflexivity|].
    destruct (onPathTo L (Tr a cs)) eqn:Eon.
    + (* on the way to [L]: a new object *)
      destruct Hcases as [(-> & _ & Hkept)|(Hr & Hs & _)];
        [exfalso|rewrite Hr, Hs; lia].
      rewrite onPathTo_eq in Eon. apply orb_true_iff in Eon as [Eself|Ebelow].
      * apply andb_true_iff in Eself as [Eleaf Eid].
        apply String.eqb_eq in Eid.
        pose proof (@settled_leaf _ _ _ _ _ _ _ _ _ _ _ Hok
                      (subtrees_self (Tr a cs)) Eleaf) as [Hsel _].
        rewrite Hst in Hsel. unfold expected, expectedState in Hsel.
        change (nodeIsLeaf (Tr a ms)) with (nodeIsLeaf (Tr a cs)) in Hsel.
        rewrite Eleaf in Hsel. cbn [isSelected] in Hsel.
        change (nodeId (Tr a ms)) with (nodeId (Tr a cs)) in Hsel.
        rewrite Eid in Hsel. unfold leafSelected in Hsel.
        rewrite selectable, toggled in Hsel. cbn in Hsel.
        destruct (Js.has selectedSet L); discriminate Hsel.
      * destruct Hkept as [Eleaf|Hkept].
        { rewrite Eleaf in Hroot. unfold isLeaf, getStatefulChildren in Hroot.
          cbn in Hroot. destruct cs; [discriminate Ebelow|discriminate Hroot]. }
        clear Hst Hrun Hch Hok Hwf Hroot HallP Hrk.
        induction Hall as [|c m cs ms [_ Hcm] _ IH]; [discriminate Ebelow|].
        inversion Hrefs as [|? ? Hrc Hrcs]; subst.
        cbn in Hkept, Ebelow.
        apply orb_false_iff in Hkept as [Href Hkept].
        apply negb_false_iff, Nat.eqb_eq in Href.
        apply orb_true_iff in Ebelow as [Ec|Ebelow];
          [|apply IH; assumption].
        destruct (Hcm [] c eq_refl) as (m' & Hm' & Hcase).
        cbn in Hm'. injection Hm' as <-. rewrite Ec in Hcase.
        apply refsBelow_root in Hrc. lia.
    + (* off the way: the same object *)
      assert (ms = cs) as ->.
      { rewrite onPathTo_eq in Eon. apply orb_false_iff in Eon as [_ Ebelow].
        clear Hst Hrun Hch Hok Hwf Hroot HallP Hcases Hrefs Hrk.
        induction Hall as [|c m cs ms [_ Hcm] _ IH]; [reflexivity|].
        cbn in Ebelow. apply orb_false_iff in Ebelow as [Ec Ebelow].
        destruct (Hcm [] c eq_refl) as (m' & Hm' & Hcase).
        cbn in Hm'. injection Hm' as <-. rewrite Ec in Hcase. subst m.
        f_equal. apply IH, Ebelow. }
      destruct Hcases as [(-> & _)|(_ & _ & [[_ Hrep]|Hdiff])];
        [reflexivity|exfalso..].
      * rewrite childReplaced_same in Hrep. discriminate Hrep.
      * apply Hdiff. apply off_path_settled in Hok; [|exact Eon].
        unfold ok', settled in Hok. rewrite Forall_forall in Hok.
        apply (Hok (Tr a cs)), subtrees_self.
  - (* a node below *)
    cbn [at_path children] in Hp.
    destruct (nth_error cs i) as [c|] eqn:Hi; [|discriminate Hp].
    destruct (Forall2_nth Hall i Hi) as (m & Hm & _ & Hcm).
    destruct (Hcm p n Hp) as (n' & Hn' & Hcase).
    exists n'. split.
    + destruct t' as [a' ms']. cbn in Hch. subst ms'.
      cbn [at_path children]. unfold StatefulNode in Hm.
      rewrite Hm. exact Hn'.
    + destruct (onPathTo L n); [lia|exact Hcase].
Qed.

Lemma toggle_run t : forall s t' s',
  ok t /\ wellFormed t -> refsBelow (next s) t -> run' t s = (t', s') ->
  Post' (next s) (next s') t t' /\ Moved L (next s) (next s') t t'.
Proof.
  induction t as [a cs IH] using Tree_ind'.
  intros s t' s' [Hok Hwf] Hrefs Hrun.
  split; [eapply run_Post; eassumption|].
  unfold run', reconcile in Hrun. rewrite mapStructure_eq in Hrun.
  unfold bind in Hrun.
  match type of Hrun with (let (_, _) := mapM ?f cs s in _) = _ =>
    destruct (mapM f cs s) as [ms s1] eqn:E
  end.
  pose proof Hok as Hoks. apply Forall_subtrees in Hoks as [_ Hoks].
  pose proof Hwf as Hwfs. apply Forall_subtrees in Hwfs as [_ Hwfs].
  pose proof Hrefs as Hrefs'. apply Forall_subtrees in Hrefs' as [_ Hrefs'].
  destruct (@mapM_rel run' (fun c => ok c /\ wellFormed c)
              (fun k k' c m => Post' k k' c m /\ Moved L k k' c m))
    with (cs := cs) (s := s) (ms := ms) (s' := s1) as [Hle Hall].
  - intros k1 k1' k k' c m H1 H2 [HP HM].
    split; [eapply Post_mono|eapply Moved_mono]; eassumption.
  - intros k k' c m [HP _]. apply HP.
  - exact IH.
  - apply Forall_forall. intros c Hc. rewrite Forall_forall in Hoks, Hwfs.
    split; [apply Hoks|apply Hwfs]; exact Hc.
  - exact Hrefs'.
  - exact E.
  - eapply toggle_node; eassumption.
Qed.

End Locality.

Lemma has_filter_neq ids id x :
  Js.has (filter (fun y => negb (String.eqb y id)) ids) x
  = Js.has ids x && negb (String.eqb x id).
Proof.
  unfold Js.has. induction ids as [|y l IH]; [reflexivity|].
  cbn. destruct (String.eqb_spec y id) as [->|Hy]; cbn.
  - rewrite IH. destruct (String.eqb x id); [|reflexivity].
    now rewrite andb_false_r.
  - rewrite IH. destruct (String.eqb_spec x y) as [->|Hx]; cbn;
      [|reflexivity].
    apply String.eqb_neq in Hy. now rewrite Hy.
Qed.

(** The toggle of the source changes the membership of the toggled id and
    of no other. *)
Lemma addOrRemove_toggles ids id :
  Js.has (addOrRemove ids id) id = negb (Js.has ids id) /\
  forall x, x <> id -> Js.has (addOrRemove ids id) x = Js.has ids x.
Proof.
  unfold addOrRemove. destruct (Js.has ids id) eqn:E; cbn [negb]; split.
  - now rewrite has_filter_neq, String.eqb_refl, andb_false_r.
  - intros x Hx. apply String.eqb_neq in Hx.
    now rewrite has_filter_neq, Hx, andb_true_r.
  - rewrite has_app, E. cbn. now rewrite String.eqb_refl.
  - intros x Hx. apply String.eqb_neq in Hx.
    rewrite has_app. cbn. now rewrite Hx, !orb_false_r.
Qed.

(** C5.  Take the output of a reconciliation and reconcile it again after
    the selection of the leaf [L] alone was toggled (selection enabled, all
    other inputs unchanged).  Position by position, the node is replaced
    by an object that did not exist in the prior tree when it is the leaf
    [L] or one of its ancestors, and is the very same object otherwise. *)
Theorem C5_locality_of_change :
  forall (root : StatefulNode)
         (isSelectable : Js.obool) (isSearchable : bool)
         (isMultiPick : Js.obool) (searchTerm : string)
         (selectedList selectedList' : list string) (L : string)
         (propsExpandedList : option (list string))
         (isAdditionalFilterApplied : Js.obool)
         (isLeafVisible : string -> bool)
         (stateExpandedList : option (list string)) (w : World),
    wellFormed root -> refsBelow (nextRef w) root ->
    isSelectable = Some true ->
    Js.has (effectiveSelection isMultiPick selectedList') L
    = negb (Js.has (effectiveSelection isMultiPick selectedList) L) ->
    (forall x, x <> L ->
       Js.has (effectiveSelection isMultiPick selectedList') x
       = Js.has (effectiveSelection isMultiPick selectedList) x) ->
    let engine tree selection :=
      applyPropsToStatefulTree tree isSelectable isSearchable isMultiPick
        searchTerm selection propsExpandedList isAdditionalFilterApplied
        isLeafVisible stateExpandedList in
    let before := engine root selectedList w in
    let after :=
      engine (statefulTree (fst before)) selectedList' (snd before) in
    forall p node,
      at_path p (statefulTree (fst before)) = Some node ->
      exists node',
        at_path p (statefulTree (fst after)) = Some node' /\
        if onPathTo L node
        then ~ In (refOf node')
                  (map refOf (subtrees (statefulTree (fst before))))
        else node' = node.
Proof.
  intros root isSelectable isSearchable isMultiPick searchTerm selectedList
    selectedList' L propsExpandedList isAdditionalFilterApplied
    isLeafVisible stateExpandedList w Hwf Hrefs Hselectable Htoggled Hothers
    engine before after p node Hp.
  pose proof (@applyProps_Post root isSelectable isSearchable isMultiPick
                searchTerm selectedList propsExpandedList
                isAdditionalFilterApplied isLeafVisible stateExpandedList w
                Hwf Hrefs) as HP.
  cbv zeta in HP. fold (engine root selectedList) in HP. fold before in HP.
  destruct HP as (_ & Hrefs1 & _ & Hok1 & Hwf1 & _).
  subst after. unfold engine at 1.
  unfold applyPropsToStatefulTree, applyPropsRun.
  match goal with |- context [reconcile ?a ?b ?c ?d ?e ?f ?g ?h ?i ?t ?s] =>
    destruct (reconcile a b c d e f g h i t s) as [t2 s2] eqn:E
  end.
  cbn [fst statefulTree].
  assert (Htoggled' :
            Js.has (Js.set_of (effectiveSelection isMultiPick selectedList')) L
            = negb (Js.has (Js.set_of
                              (effectiveSelection isMultiPick selectedList)) L))
    by (rewrite !has_set_of; exact Htoggled).
  assert (Hothers' :
            forall x, x <> L ->
              Js.has (Js.set_of (effectiveSelection isMultiPick selectedList')) x
              = Js.has (Js.set_of
                          (effectiveSelection isMultiPick selectedList)) x)
    by (intros x Hx; rewrite !has_set_of; apply Hothers, Hx).
  destruct (@toggle_run isSelectable isSearchable isMultiPick searchTerm
              isAdditionalFilterApplied isLeafVisible
              (isProvided (chosenExpandedList propsExpandedList
                             stateExpandedList))
              (Js.set_of (effectiveSelection isMultiPick selectedList))
              (Js.set_of (effectiveSelection isMultiPick selectedList'))
              (Js.set_of (orEmpty (chosenExpandedList propsExpandedList
                                     stateExpandedList)))
              L Hselectable Htoggled' Hothers'
              (statefulTree (fst before))
              (mkMapState (nextRef (snd before)) []) t2 s2
              (conj Hok1 Hwf1) Hrefs1 E) as [_ Hmoved].
  destruct (Hmoved p node Hp) as (node' & Hnode' & Hcase).
  exists node'. split; [exact Hnode'|].
  destruct (onPathTo L node); [|exact Hcase].
  cbn [next] in Hcase. intros Hin. apply in_map_iff in Hin as (old & Heq & Hold).
  unfold refsBelow in Hrefs1. rewrite Forall_forall in Hrefs1.
  specialize (Hrefs1 old Hold). cbn in Hrefs1. lia.
Qed.

Lemma C5_witness :
  let engine tree selection :=
    applyPropsToStatefulTree tree (Some true) false (Some true) ""
      selection None None (fun _ => true) None in
  let before := engine sampleStateful ["leaf3"] sampleWorld in
  let after :=
    engine (statefulTree (fst before)) (addOrRemove ["leaf3"] "leaf1")
      (snd before) in
  (exists leaf1 leaf1',
     at_path [0; 0] (statefulTree (fst before)) = Some leaf1 /\
     nodeId leaf1 = "leaf1" /\
     at_path [0; 0] (statefulTree (fst after)) = Some leaf1' /\
     ~ In (refOf leaf1')
          (map refOf (subtrees (statefulTree (fst before))))) /\
  (exists B,
     at_path [1] (statefulTree (fst before)) = Some B /\
     nodeId B = "B" /\
     at_path [1] (statefulTree (fst after)) = Some B).
Proof.
  intros engine before after.
  assert (Htoggled :
            Js.has (effectiveSelection (Some true) ["leaf3"; "leaf1"]) "leaf1"
            = negb (Js.has (effectiveSelection (Some true) ["leaf3"]) "leaf1"))
    by reflexivity.
  assert (Hothers :
            forall x, x <> "leaf1" ->
              Js.has (effectiveSelection (Some true) ["leaf3"; "leaf1"]) x
              = Js.has (effectiveSelection (Some true) ["leaf3"]) x).
  { intros x Hx. apply String.eqb_neq in Hx. cbn. now rewrite Hx. }
  pose proof (@C5_locality_of_change sampleStateful (Some true) false
                (Some true) "" ["leaf3"] ["leaf3"; "leaf1"] "leaf1" None None
                (fun _ => true) None sampleWorld sample_wellFormed
                sample_refsBelow eq_refl Htoggled Hothers) as Hlocal.
  cbv zeta in Hlocal. fold engine in Hlocal. fold before in Hlocal.
  fold after in Hlocal.
  split.
  - destruct (at_path [0; 0] (statefulTree (fst before))) as [leaf1|] eqn:E1;
      [|discriminate E1].
    destruct (Hlocal [0; 0] leaf1 E1) as (leaf1' & Hat & Hnew).
    assert (Hid : nodeId leaf1 = "leaf1")
      by (injection E1 as <-; reflexivity).
    assert (Hon : onPathTo "leaf1" leaf1 = true)
      by (injection E1 as <-; reflexivity).
    rewrite Hon in Hnew.
    exists leaf1, leaf1'. repeat split; assumption.
  - destruct (at_path [1] (statefulTree (fst before))) as [B|] eqn:E1;
      [|discriminate E1].
    destruct (Hlocal [1] B E1) as (B' & Hat & Hsame).
    assert (Hid : nodeId B = "B") by (injection E1 as <-; reflexivity).
    assert (Hoff : onPathTo "leaf1" B = false)
      by (injection E1 as <-; reflexivity).
    rewrite Hoff in Hsame. subst B'.
    exists B. repeat split; assumption.
Defined.

(** ** The debounced controller *)


Lemma nonempty_term s : (0 <? String.length s) = false <-> s = "".
Proof.
  destruct s; cbn; split; intros H; (reflexivity || discriminate H).
Qed.



(** ** Every tree the builder makes is well formed *)

Lemma createStatefulTree_built (node : RawNode) : forall k t k',
  createStatefulTree node k = (t, k') ->
  k <= k' /\ wellFormed t /\ refsBelow k' t /\ raw (label t) = node.
Proof.
  induction node as [id cs IH] using Tree_ind'. intros k t k' Hrun.
  unfold createStatefulTree in Hrun. rewrite mapStructure_eq in Hrun.
  unfold bind in Hrun.
  match type of Hrun with (let (_, _) := mapM ?f cs k in _) = _ =>
    destruct (mapM f cs k) as [ms k1] eqn:E;
    assert (Hkids : k <= k1 /\ Forall wellFormed ms /\
                    Forall (refsBelow k1) ms /\
                    List.length ms = List.length cs)
  end.
  { clear Hrun. revert k ms k1 E.
    induction cs as [|c cs IHcs]; intros k ms k1 E; cbn in E.
    - injection E as <- <-. repeat split; (lia || constructor).
    - unfold bind in E.
      match type of E with (let (_, _) := ?f c k in _) = _ =>
        destruct (f c k) as [m k2] eqn:E1 end.
      match type of E with (let (_, _) := ?e in _) = _ =>
        destruct e as [ms2 k3] eqn:E2 end.
      injection E as <- <-.
      inversion IH as [|? ? Hc Hcs]; subst.
      destruct (Hc k m k2 E1) as (H1 & H2 & H3 & _).
      destruct (IHcs Hcs k2 ms2 k3 E2) as (H4 & H5 & H6 & H7).
      repeat split; try lia.
      + constructor; assumption.
      + constructor; [eapply refsBelow_mono; eassumption|assumption].
      + cbn. now rewrite H7. }
  destruct Hkids as (Hle & Hwfs & Hrefs & Hlen).
  injection Hrun as <- <-. repeat split; try lia.
  - apply Forall_subtrees. split; [|exact Hwfs].
    unfold nodeIsLeaf, isLeaf, getNodeChildren, getStatefulChildren. cbn.
    destruct cs, ms; try reflexivity; discriminate Hlen.
  - apply Forall_subtrees. split; [unfold refOf; cbn; lia|].
    eapply Forall_impl; [|exact Hrefs]. intros x. apply refsBelow_mono. lia.
Qed.

(* ================================================================== *)
(** * Further properties of the engine and of the component *)

(** ** The builder *)

Lemma subtrees_tmap {A B} (f : A -> B) (t : Tree A) :
  subtrees (tmap f t) = map (tmap f) (subtrees t).
Proof.
  induction t as [a cs IH] using Tree_ind'. cbn [tmap subtrees map].
  f_equal. induction cs as [|c cs IHcs]; [reflexivity|].
  inversion IH as [|? ? Hc Hcs]; subst.
  cbn [map flat_map]. rewrite map_app, Hc, IHcs by exact Hcs. reflexivity.
Qed.

Lemma size_subtrees {A} (t : Tree A) : List.length (subtrees t) = size t.
Proof.
  induction t as [a cs IH] using Tree_ind'. cbn [subtrees size List.length].
  f_equal. induction cs as [|c cs IHcs]; [reflexivity|].
  inversion IH as [|? ? Hc Hcs]; subst.
  cbn [flat_map map list_sum fold_right].
  rewrite length_app, Hc, IHcs by exact Hcs. reflexivity.
Qed.

Lemma size_tmap {A B} (f : A -> B) (t : Tree A) : size (tmap f t) = size t.
Proof.
  induction t as [a cs IH] using Tree_ind'. cbn [tmap size].
  do 2 f_equal. rewrite map_map. apply map_ext_in.
  rewrite Forall_forall in IH. exact IH.
Qed.

Lemma mirrors_wellFormed t : mirrors t -> wellFormed t.
Proof.
  intros H. unfold mirrors, wellFormed in *.
  eapply Forall_impl; [|exact H]. intros [a cs] Hn.
  unfold nodeIsLeaf, isLeaf, getNodeChildren, getStatefulChildren.
  cbn [label children]. cbn [label] in Hn. rewrite <- Hn.
  unfold idTree. cbn. destruct cs; reflexivity.
Qed.

Lemma built_spec (node : RawNode) : forall k t k',
  createStatefulTree node k = (t, k') ->
  idTree t = node /\ mirrors t /\ k' = k + size node /\
  Forall (fun n => getNodeState n = getInitialNodeState (raw (label n)) /\
                   k <= refOf n /\ refOf n < k') (subtrees t) /\
  NoDup (map refOf (subtrees t)).
Proof.
  induction node as [id cs IH] using Tree_ind'. intros k t k' Hrun.
  unfold createStatefulTree in Hrun. rewrite mapStructure_eq in Hrun.
  unfold bind in Hrun.
  match type of Hrun with (let (_, _) := mapM ?f cs k in _) = _ =>
    destruct (mapM f cs k) as [ms k1] eqn:E;
    assert (Hkids :
      map idTree ms = cs /\ Forall mirrors ms /\
      k1 = k + list_sum (map size cs) /\
      Forall (fun n => getNodeState n = getInitialNodeState (raw (label n)) /\
                       k <= refOf n /\ refOf n < k1)
             (flat_map subtrees ms) /\
      NoDup (map refOf (flat_map subtrees ms)))
  end.
  { clear Hrun. revert k ms k1 E.
    induction cs as [|c cs IHcs]; intros k ms k1 E; cbn in E.
    - injection E as <- <-. cbn. repeat split; (lia || constructor).
    - unfold bind in E.
      match type of E with (let (_, _) := ?f c k in _) = _ =>
        destruct (f c k) as [m k2] eqn:E1 end.
      match type of E with (let (_, _) := ?e in _) = _ =>
        destruct e as [ms2 k3] eqn:E2 end.
      injection E as <- <-.
      inversion IH as [|? ? Hc Hcs]; subst.
      destruct (Hc k m k2 E1) as (H1 & H2 & H3 & H4 & H5).
      destruct (IHcs Hcs k2 ms2 k3 E2) as (G1 & G2 & G3 & G4 & G5).
      cbn [map flat_map].
      change (list_sum (size c :: map size cs))
        with (size c + list_sum (map size cs)).
      split; [now rewrite H1, G1|]. split; [constructor; assumption|].
      split; [lia|]. split.
      + apply Forall_app. split.
        * eapply Forall_impl; [|exact H4]. cbn. intros n (? & ? & ?).
          repeat split; (assumption || lia).
        * eapply Forall_impl; [|exact G4]. cbn. intros n (? & ? & ?).
          repeat split; (assumption || lia).
      + rewrite map_app. apply NoDup_app; try assumption.
        intros r Hr1 Hr2.
        apply in_map_iff in Hr1 as (n1 & <- & Hn1).
        apply in_map_iff in Hr2 as (n2 & Heq & Hn2).
        rewrite Forall_forall in H4, G4.
        destruct (H4 n1 Hn1) as (_ & _ & Hlt).
        destruct (G4 n2 Hn2) as (_ & Hge & _). lia. }
  destruct Hkids as (Hids & Hmir & Hk1 & Hall & Hnd).
  injection Hrun as <- <-.
  assert (Hroot : idTree (Tr (mkAnnot k1 (Tr id cs)
                                (getInitialNodeState (Tr id cs))) ms)
                  = Tr id cs).
  { unfold idTree. cbn [tmap raw getNodeId label]. f_equal. exact Hids. }
  split; [exact Hroot|]. split.
  { apply Forall_subtrees. split; [exact Hroot|exact Hmir]. }
  split; [cbn [size]; lia|]. split.
  - cbn [subtrees]. constructor.
    + unfold getNodeState, refOf. cbn. repeat split; lia.
    + eapply Forall_impl; [|exact Hall]. cbn. intros n (? & ? & ?).
      repeat split; (assumption || lia).
  - cbn [subtrees map]. constructor; [|exact Hnd].
    intros Hin. apply in_map_iff in Hin as (n & Heq & Hn).
    rewrite Forall_forall in Hall. destruct (Hall n Hn) as (_ & _ & Hlt).
    unfold refOf in Heq at 2. cbn in Heq. lia.
Qed.

(** X1.  [createStatefulTree] makes one new object per node of the caller's
    tree: the stateful tree has the ids and the shape of the caller's tree,
    every node lies over the caller's node it was made from and carries the
    initial state of that node, and the objects are pairwise distinct and
    were all allocated by this call. *)
Theorem X1_builder_makes_one_fresh_default_node_per_node :
  forall (tree : RawNode) (k : nat),
    let built := createStatefulTree tree k in
    idTree (fst built) = tree /\
    mirrors (fst built) /\
    snd built = k + size tree /\
    List.length (subtrees (fst built)) = size tree /\
    Forall (fun n => getNodeState n = getInitialNodeState (raw (label n)) /\
                     k <= refOf n /\ refOf n < snd built)
           (subtrees (fst built)) /\
    NoDup (map refOf (subtrees (fst built))).
Proof.
  intros tree k built.
  destruct (createStatefulTree tree k) as [t k'] eqn:E. subst built.
  cbn [fst snd].
  destruct (built_spec tree k E) as (H1 & H2 & H3 & H4 & H5).
  repeat split; try assumption.
  rewrite size_subtrees. rewrite <- H1. unfold idTree.
  symmetry. apply size_tmap.
Qed.

Lemma built_bare t :
  Forall (fun n => getNodeState n = getInitialNodeState (raw (label n)))
         (subtrees t) ->
  leavesBare t.
Proof.
  intros H. unfold leavesBare. eapply Forall_impl; [|exact H].
  intros n Hn Hleaf. cbn in Hn. rewrite Hn. unfold getInitialNodeState.
  unfold nodeIsLeaf in Hleaf. rewrite Hleaf. split; reflexivity.
Qed.

(** ** Invariants of the reconciliation *)

Lemma leafNodes_leaf n :
  wellFormed n -> nodeIsLeaf n = true -> leafNodes n = [n].
Proof.
  intros Hwf Hleaf. unfold leafNodes.
  rewrite subtrees_descendants, (wf_leaf_descendants Hwf Hleaf).
  cbn. now rewrite Hleaf.
Qed.

Lemma filter_flat_map {A B} (f : B -> bool) (g : A -> list B) l :
  filter f (flat_map g l) = flat_map (fun x => filter f (g x)) l.
Proof.
  induction l as [|x l IH]; [reflexivity|].
  cbn [flat_map]. now rewrite filter_app, IH.
Qed.

Lemma leafNodes_branch a cs :
  nodeIsLeaf (Tr a cs) = false ->
  leafNodes (Tr a cs) = flat_map leafNodes cs.
Proof.
  intros Hbranch. unfold leafNodes at 1. cbn [subtrees filter].
  rewrite Hbranch. apply filter_flat_map.
Qed.

Lemma leafNodes_nonempty n : wellFormed n -> leafNodes n <> [].
Proof.
  intros Hwf. destruct (wf_has_leaf Hwf) as (l & Hl & Hleaf).
  intros Hnil. assert (Hin : In l (leafNodes n))
    by (apply filter_In; split; assumption).
  rewrite Hnil in Hin. destruct Hin.
Qed.

Lemma forallb_flat_map {A B} (f : B -> bool) (g : A -> list B) l :
  forallb f (flat_map g l) = forallb (fun x => forallb f (g x)) l.
Proof.
  induction l as [|x l IH]; cbn; [reflexivity|].
  now rewrite forallb_app, IH.
Qed.

Lemma existsb_ext_in {A} (f g : A -> bool) l :
  (forall x, In x l -> f x = g x) -> existsb f l = existsb g l.
Proof.
  induction l as [|x l IH]; intros H; cbn; [reflexivity|].
  rewrite (H x (or_introl eq_refl)), IH; [reflexivity|].
  intros y Hy. apply H. right. exact Hy.
Qed.

Lemma forallb_ext_in {A} (f g : A -> bool) l :
  (forall x, In x l -> f x = g x) -> forallb f l = forallb g l.
Proof.
  induction l as [|x l IH]; intros H; cbn; [reflexivity|].
  rewrite (H x (or_introl eq_refl)), IH; [reflexivity|].
  intros y Hy. apply H. right. exact Hy.
Qed.

Lemma forall_exists_nonempty {A} (f : A -> bool) l :
  l <> [] -> forallb f l = true -> existsb f l = true.
Proof.
  destruct l as [|x l]; [congruence|]. cbn. intros _ H.
  apply andb_true_iff in H as [-> _]. reflexivity.
Qed.

Section Invariants.

Variable isSelectable : Js.obool.
Variable isSearchable : bool.
Variable isMultiPick : Js.obool.
Variable searchTerm : string.
Variable isAdditionalFilterApplied : Js.obool.
Variable isLeafVisible : string -> bool.
Variable expansionListProvided : bool.
Variable selectedSet : Js.set.
Variable expandedSet : Js.set.

Let run := reconcile isSelectable isSearchable isMultiPick searchTerm
             isAdditionalFilterApplied isLeafVisible expansionListProvided
             selectedSet expandedSet.
Let mapFn := mapFunction isSelectable isSearchable isMultiPick searchTerm
               isAdditionalFilterApplied isLeafVisible expansionListProvided
               selectedSet expandedSet.
Let ok := settled isSelectable isSearchable isMultiPick searchTerm
            isAdditionalFilterApplied isLeafVisible expansionListProvided
            selectedSet expandedSet.
Let post := Post isSelectable isSearchable isMultiPick searchTerm
              isAdditionalFilterApplied isLeafVisible expansionListProvided
              selectedSet expandedSet.

(** Leaves keep the flags they do not own. *)
Lemma run_bare t : forall s t' s',
  wellFormed t -> refsBelow (next s) t -> run t s = (t', s') ->
  post (next s) (next s') t t' /\ (leavesBare t -> leavesBare t').
Proof.
  induction t as [a cs IH] using Tree_ind'.
  intros s t' s' Hwf Hrefs Hrun.
  pose proof (@run_Post isSelectable isSearchable isMultiPick searchTerm
                isAdditionalFilterApplied isLeafVisible expansionListProvided
                selectedSet expandedSet (Tr a cs) s t' s' Hwf Hrefs Hrun)
    as HP.
  split; [exact HP|]. intros Hbare.
  unfold run, reconcile in Hrun. rewrite mapStructure_eq in Hrun.
  unfold bind in Hrun.
  match type of Hrun with (let (_, _) := mapM ?f cs s in _) = _ =>
    destruct (mapM f cs s) as [ms s1] eqn:E
  end.
  pose proof Hwf as Hwfs. apply Forall_subtrees in Hwfs as [Hroot Hwfs].
  pose proof Hrefs as Hrefs'. apply Forall_subtrees in Hrefs' as [_ Hrefs'].
  destruct (@mapM_rel run wellFormed
              (fun k k' c m => post k k' c m /\ (leavesBare c -> leavesBare m)))
    with (cs := cs) (s := s) (ms := ms) (s' := s1) as [Hle Hall];
    try assumption.
  - intros k1 k1' k k' c m H1 H2 [HP1 HB].
    split; [eapply Post_mono; eassumption|exact HB].
  - intros k k' c m [HP1 _]. apply HP1.
  - assert (HallP : Forall2 (post (next s) (next s1)) cs ms)
      by (eapply Forall2_impl; [|exact Hall]; intros ? ? [H _]; exact H).
    destruct (@mapFn_result isSelectable isSearchable isMultiPick searchTerm
                isAdditionalFilterApplied isLeafVisible expansionListProvided
                selectedSet expandedSet a cs ms s1 t' s' (next s) Hroot
                Hrefs' HallP Hrun) as (Hch & Hraw & Hst & _).
    destruct t' as [a' ms']. cbn in Hch, Hraw. subst ms'.
    apply Forall_subtrees in Hbare as [Hself Hkids].
    apply Forall_subtrees. split.
    + intros Hleaf. rewrite Hst. unfold expected, expectedState.
      assert (Hsame : nodeIsLeaf (Tr a ms) = nodeIsLeaf (Tr a' ms))
        by (unfold nodeIsLeaf; cbn; now rewrite Hraw).
      rewrite Hsame, Hleaf. cbn [isIndeterminate isExpanded].
      apply Hself. unfold nodeIsLeaf in *. cbn in *. now rewrite <- Hraw.
    + clear - Hall Hkids. induction Hall as [|c m cs ms [_ Hcm] _ IHall];
        [constructor|].
      inversion Hkids; subst. constructor; [apply Hcm; assumption|].
      apply IHall. assumption.
Qed.

(** At most one object is allocated per node. *)
Lemma run_allocates t : forall s,
  next (snd (run t s)) <= next s + size t.
Proof.
  induction t as [a cs IH] using Tree_ind'. intros s.
  unfold run, reconcile in *. rewrite mapStructure_eq. unfold bind.
  match goal with |- context [mapM ?f cs s] =>
    set (go := f) in *;
    destruct (mapM go cs s) as [ms s1] eqn:E;
    assert (Hkids : next s1 <= next s + list_sum (map size cs) /\
                    List.length ms = List.length cs)
  end.
  { revert s ms s1 E. induction cs as [|c cs IHcs]; intros s ms s1 E;
      cbn in E.
    - injection E as <- <-. cbn. split; [lia|reflexivity].
    - unfold bind in E.
      inversion IH as [|? ? Hc Hcs]; subst.
      specialize (Hc s).
      destruct (go c s) as [m s2] eqn:E1.
      destruct (mapM go cs s2) as [ms2 s3] eqn:E2.
      injection E as <- <-. cbn [snd] in Hc.
      destruct (IHcs Hcs s2 ms2 s3 E2) as [H1 H2].
      cbn [map]. change (list_sum (size c :: map size cs))
        with (size c + list_sum (map size cs)).
      split; [lia|cbn; now rewrite H2]. }
  destruct Hkids as [Hle Hlen].
  destruct (@mapFn_cases isSelectable isSearchable isMultiPick searchTerm
              isAdditionalFilterApplied isLeafVisible expansionListProvided
              selectedSet expandedSet a cs ms s1 Hlen)
    as [(Eq & _)|(Eq & _)]; rewrite Eq; cbn [snd next size]; lia.
Qed.

End Invariants.

(** ** Flags of a node in terms of the leaves below it *)

Lemma agg_all {A} (S E : A -> bool) cs :
  negb (existsb (fun c => E c && negb (S c)) cs)
  && negb (existsb (fun c => negb (S c)) cs)
  = forallb S cs.
Proof.
  induction cs as [|c cs IH]; [reflexivity|].
  cbn. rewrite <- IH. destruct (S c), (E c); cbn; try reflexivity.
  all: now rewrite ?andb_false_r.
Qed.

Lemma agg_some {A} (S E : A -> bool) cs :
  (forall c, In c cs -> S c = true -> E c = true) ->
  existsb (fun c => E c && negb (S c)) cs || existsb S cs = existsb E cs.
Proof.
  induction cs as [|c cs IH]; intros H; [reflexivity|].
  cbn. rewrite <- IH by (intros d Hd; apply H; right; exact Hd).
  pose proof (H c (or_introl eq_refl)) as Hc.
  destruct (S c) eqn:ES, (E c) eqn:EE; cbn; rewrite ?orb_true_r;
    try reflexivity.
  specialize (Hc eq_refl). discriminate Hc.
Qed.

Lemma agg_not_all {A} (S : A -> bool) cs :
  existsb (fun c => negb (S c)) cs = negb (forallb S cs).
Proof.
  induction cs as [|c cs IH]; [reflexivity|].
  cbn. rewrite IH. now destruct (S c).
Qed.

Lemma agg_mixed {A} (S E : A -> bool) cs :
  (forall c, In c cs -> S c = true -> E c = true) ->
  existsb (fun c => E c && negb (S c)) cs
  || (existsb S cs && existsb (fun c => negb (S c)) cs)
  = existsb E cs && negb (forallb S cs).
Proof.
  intros H. rewrite <- (agg_some S E cs H), <- agg_not_all.
  destruct (existsb (fun c => E c && negb (S c)) cs) eqn:X; cbn [orb];
    [|reflexivity].
  apply existsb_exists in X as (c & Hc & HX).
  apply andb_true_iff in HX as [_ HS].
  assert (Z : existsb (fun c => negb (S c)) cs = true)
    by (apply existsb_exists; exists c; split; assumption).
  now rewrite Z.
Qed.

Lemma truthy_Some b : Js.truthy (Some b) = b.
Proof. now destruct b. Qed.

Section ByLeaves.

Variable isSelectable : Js.obool.
Variable isSearchable : bool.
Variable isMultiPick : Js.obool.
Variable searchTerm : string.
Variable isAdditionalFilterApplied : Js.obool.
Variable isLeafVisible : string -> bool.
Variable expansionListProvided : bool.
Variable selectedSet : Js.set.
Variable expandedSet : Js.set.

Let ok := settled isSelectable isSearchable isMultiPick searchTerm
            isAdditionalFilterApplied isLeafVisible expansionListProvided
            selectedSet expandedSet.

Lemma settled_child a cs c : ok (Tr a cs) -> In c cs -> ok c.
Proof.
  intros H Hc. apply Forall_subtrees in H as [_ H].
  rewrite Forall_forall in H. apply H, Hc.
Qed.

Lemma wf_child a cs c : wellFormed (Tr a cs) -> In c cs -> wellFormed c.
Proof.
  intros H Hc. apply Forall_subtrees in H as [_ H].
  rewrite Forall_forall in H. apply H, Hc.
Qed.

Lemma leafNodes_child a cs c l :
  nodeIsLeaf (Tr a cs) = false -> In c cs -> In l (leafNodes c) ->
  In l (leafNodes (Tr a cs)).
Proof.
  intros Hb Hc Hl. rewrite (leafNodes_branch _ _ Hb).
  apply in_flat_map. exists c. split; assumption.
Qed.

Lemma visible_by_leaves t :
  ok t -> wellFormed t ->
  visibleNode t
  = existsb (fun l => isLeafVisible (nodeId l)) (leafNodes t).
Proof.
  induction t as [a cs IH] using Tree_ind'. intros Hok Hwf.
  destruct (nodeIsLeaf (Tr a cs)) eqn:Eleaf.
  - rewrite (leafNodes_leaf Hwf Eleaf). cbn [existsb].
    rewrite orb_false_r.
    apply (@settled_leaf _ _ _ _ _ _ _ _ _ _ _ Hok
             (subtrees_self (Tr a cs)) Eleaf).
  - pose proof (@settled_branch _ _ _ _ _ _ _ _ _ _ _ Hok
                  (subtrees_self (Tr a cs)) Eleaf) as Hst.
    cbv zeta in Hst. unfold visibleNode at 1. rewrite Hst.
    cbn [isVisible]. unfold found, getStatefulChildren.
    cbn [visibleChildFound children].
    rewrite (leafNodes_branch _ _ Eleaf), existsb_flat_map.
    apply existsb_ext_in. intros c Hc. rewrite Forall_forall in IH.
    apply IH; [exact Hc|eapply settled_child|eapply wf_child]; eassumption.
Qed.

Lemma selected_by_leaves t :
  ok t -> wellFormed t ->
  (forall l, In l (leafNodes t) -> indeterminateNode l = false) ->
  selectedNode t = forallb selectedNode (leafNodes t) /\
  indeterminateNode t
  = existsb selectedNode (leafNodes t)
    && negb (forallb selectedNode (leafNodes t)).
Proof.
  induction t as [a cs IH] using Tree_ind'. intros Hok Hwf Hclean.
  destruct (nodeIsLeaf (Tr a cs)) eqn:Eleaf.
  - rewrite (leafNodes_leaf Hwf Eleaf) in *. cbn [forallb existsb].
    rewrite (Hclean (Tr a cs) (or_introl eq_refl)).
    destruct (selectedNode (Tr a cs)); split; reflexivity.
  - pose proof (@settled_branch _ _ _ _ _ _ _ _ _ _ _ Hok
                  (subtrees_self (Tr a cs)) Eleaf) as Hst.
    cbv zeta in Hst. unfold selectedNode at 1, indeterminateNode at 1.
    rewrite Hst. cbn [isSelected isIndeterminate]. rewrite !truthy_Some.
    unfold branchIndeterminate, branchSelected, found, getStatefulChildren.
    cbn [indeterminateChildFound unselectedChildFound selectedChildFound
         children].
    rewrite (leafNodes_branch _ _ Eleaf), forallb_flat_map, existsb_flat_map.
    set (S := fun c => forallb selectedNode (leafNodes c)).
    set (E := fun c => existsb selectedNode (leafNodes c)).
    assert (Hkids : forall c, In c cs ->
              selectedNode c = S c /\
              indeterminateNode c = E c && negb (S c)).
    { intros c Hc. rewrite Forall_forall in IH.
      apply IH; [exact Hc|eapply settled_child; eassumption
                |eapply wf_child; eassumption|].
      intros l Hl. apply Hclean. eapply leafNodes_child; eassumption. }
    assert (HSE : forall c, In c cs -> S c = true -> E c = true).
    { intros c Hc HS. apply forall_exists_nonempty; [|exact HS].
      apply leafNodes_nonempty. eapply wf_child; eassumption. }
    rewrite (existsb_ext_in indeterminateNode (fun c => E c && negb (S c)))
      by (intros c Hc; apply Hkids, Hc).
    rewrite (existsb_ext_in (fun c => negb (selectedNode c))
               (fun c => negb (S c)))
      by (intros c Hc; f_equal; apply Hkids, Hc).
    rewrite (existsb_ext_in selectedNode S)
      by (intros c Hc; apply Hkids, Hc).
    rewrite agg_all, (agg_some S E cs HSE). split; [reflexivity|].
    apply andb_comm.
Qed.

End ByLeaves.

Lemma tmap_tmap {A B C} (f : A -> B) (g : B -> C) (t : Tree A) :
  tmap g (tmap f t) = tmap (fun a => g (f a)) t.
Proof.
  induction t as [a cs IH] using Tree_ind'. cbn [tmap]. f_equal.
  rewrite map_map. apply map_ext_in. rewrite Forall_forall in IH. exact IH.
Qed.

Lemma mirrors_skeleton t t' :
  skeleton t' = skeleton t -> mirrors t -> mirrors t'.
Proof.
  assert (Hiff : forall u, mirrors u <->
            Forall (fun n => tmap getNodeId n = label n)
                   (subtrees (skeleton u))).
  { intros u. unfold mirrors, skeleton. rewrite subtrees_tmap, Forall_map.
    split; intros H; (eapply Forall_impl; [|exact H]); intros [a cs] Hn.
    - rewrite tmap_tmap. exact Hn.
    - rewrite tmap_tmap in Hn. exact Hn. }
  intros Hsk H. apply Hiff. rewrite Hsk. apply Hiff, H.
Qed.

Lemma map_flat_map {A B C} (f : B -> C) (g : A -> list B) l :
  map f (flat_map g l) = flat_map (fun x => map f (g x)) l.
Proof.
  induction l as [|x l IH]; [reflexivity|].
  cbn [flat_map]. now rewrite map_app, IH.
Qed.

Lemma flat_map_map {A B C} (f : A -> B) (g : B -> list C) l :
  flat_map g (map f l) = flat_map (fun x => g (f x)) l.
Proof.
  induction l as [|x l IH]; [reflexivity|]. cbn. now rewrite IH.
Qed.

Lemma flat_map_ext_in' {A B} (f g : A -> list B) l :
  (forall x, In x l -> f x = g x) -> flat_map f l = flat_map g l.
Proof.
  induction l as [|x l IH]; intros H; [reflexivity|].
  cbn. rewrite (H x (or_introl eq_refl)), IH; [reflexivity|].
  intros y Hy. apply H. right. exact Hy.
Qed.

Lemma mirrors_child a cs c : mirrors (Tr a cs) -> In c cs -> mirrors c.
Proof.
  intros H Hc. apply Forall_subtrees in H as [_ H].
  rewrite Forall_forall in H. apply H, Hc.
Qed.

Lemma mirrors_root t : mirrors t -> idTree t = raw (label t).
Proof.
  intros H. unfold mirrors in H. rewrite Forall_forall in H.
  apply H, subtrees_self.
Qed.

(** Over a mirrored tree the stateful leaves are the caller's leaves. *)
Lemma leafNodes_ids t :
  mirrors t ->
  map nodeId (leafNodes t) = map getNodeId (getLeaves (raw (label t))).
Proof.
  induction t as [a cs IH] using Tree_ind'. intros Hm.
  pose proof (mirrors_root Hm) as Hroot.
  unfold idTree in Hroot. cbn [tmap label] in Hroot. cbn [label].
  destruct cs as [|c0 cs0].
  - rewrite (leafNodes_leaf (mirrors_wellFormed Hm)).
    + rewrite <- Hroot. reflexivity.
    + unfold nodeIsLeaf. cbn [label]. rewrite <- Hroot. reflexivity.
  - assert (Hbranch : nodeIsLeaf (Tr a (c0 :: cs0)) = false)
      by (unfold nodeIsLeaf; cbn [label]; rewrite <- Hroot; reflexivity).
    rewrite (leafNodes_branch _ _ Hbranch), map_flat_map, <- Hroot.
    change (getLeaves (Tr (getNodeId (raw a))
                         (map (tmap (fun a0 => getNodeId (raw a0)))
                              (c0 :: cs0))))
      with (flat_map getLeaves
              (map (tmap (fun a0 => getNodeId (raw a0))) (c0 :: cs0))).
    rewrite flat_map_map, (map_flat_map getNodeId).
    apply flat_map_ext_in'. intros c Hc.
    rewrite Forall_forall in IH.
    pose proof (@mirrors_child a (c0 :: cs0) c Hm Hc) as Hmc.
    rewrite (IH c Hc Hmc). now rewrite <- (mirrors_root Hmc).
Qed.

(** ** What every reconciliation keeps *)

Lemma truthy_and a b : Js.truthy (Js.and a b) = Js.truthy a && b.
Proof. destruct a as [[|]|]; cbn; try reflexivity. now destruct b. Qed.

Lemma applyProps_facts root isSelectable isSearchable isMultiPick searchTerm
    selectedList propsExpandedList isAdditionalFilterApplied isLeafVisible
    stateExpandedList w :
  wellFormed root -> refsBelow (nextRef w) root ->
  let result :=
    applyPropsToStatefulTree root isSelectable isSearchable isMultiPick
      searchTerm selectedList propsExpandedList isAdditionalFilterApplied
      isLeafVisible stateExpandedList w in
  let out := statefulTree (fst result) in
  let chosen := chosenExpandedList propsExpandedList stateExpandedList in
  settled isSelectable isSearchable isMultiPick searchTerm
    isAdditionalFilterApplied isLeafVisible (isProvided chosen)
    (Js.set_of (effectiveSelection isMultiPick selectedList))
    (Js.set_of (orEmpty chosen)) out /\
  wellFormed out /\ skeleton out = skeleton root /\
  (out = root \/ nextRef w <= refOf out) /\
  refsBelow (nextRef (snd result)) out /\
  nextRef w <= nextRef (snd result) /\
  nextRef (snd result) <= nextRef w + size root /\
  (leavesBare root -> leavesBare out) /\
  (mirrors root -> mirrors out).
Proof.
  intros Hwf Hrefs result out chosen.
  pose proof (@applyProps_Post root isSelectable isSearchable isMultiPick
                searchTerm selectedList propsExpandedList
                isAdditionalFilterApplied isLeafVisible stateExpandedList w
                Hwf Hrefs) as HP.
  cbv zeta in HP. fold result in HP. fold out in HP. fold chosen in HP.
  destruct HP as (Hle & Hb & Hid & Hok & Hwf' & Hsk).
  repeat split; try assumption.
  - subst result. unfold applyPropsToStatefulTree, applyPropsRun.
    match goal with |- context [reconcile ?a ?b ?c ?d ?e ?f ?g ?h ?i root ?s] =>
      pose proof (@run_allocates a b c d e f g h i root s) as Halloc;
      destruct (reconcile a b c d e f g h i root s) as [t1 s1]
    end.
    cbn [fst snd nextRef next] in *. exact Halloc.
  - subst out result. unfold applyPropsToStatefulTree, applyPropsRun.
    match goal with |- context [reconcile ?a ?b ?c ?d ?e ?f ?g ?h ?i root ?s] =>
      destruct (reconcile a b c d e f g h i root s) as [t1 s1] eqn:E;
      pose proof (@run_bare a b c d e f g h i root s t1 s1 Hwf Hrefs E)
        as [_ Hbare]
    end.
    cbn [fst statefulTree]. exact Hbare.
  - apply mirrors_skeleton. exact Hsk.
Qed.

Lemma sample_mirrors : mirrors sampleStateful.
Proof.
  unfold sampleStateful.
  destruct (createStatefulTree sampleTree 0) as [t k] eqn:E.
  apply (built_spec sampleTree 0) in E as (_ & H & _). exact H.
Qed.

Lemma sample_bare : leavesBare sampleStateful.
Proof.
  unfold sampleStateful.
  destruct (createStatefulTree sampleTree 0) as [t k] eqn:E.
  apply (built_spec sampleTree 0) in E as (_ & _ & _ & H & _).
  apply built_bare. cbn [fst].
  eapply Forall_impl; [|exact H]. cbn. intros n (Hn & _). exact Hn.
Qed.

(** X2.  Leaves never carry [isIndeterminate] or [isExpanded]: the builder
    gives them neither, and a reconciliation of a tree whose leaves have
    neither returns a tree whose leaves have neither. *)
Theorem X2_leaves_never_carry_branch_flags :
  (forall (tree : RawNode) (k : nat),
     leavesBare (fst (createStatefulTree tree k))) /\
  (forall (root : StatefulNode)
          (isSelectable : Js.obool) (isSearchable : bool)
          (isMultiPick : Js.obool) (searchTerm : string)
          (selectedList : list string)
          (propsExpandedList : option (list string))
          (isAdditionalFilterApplied : Js.obool)
          (isLeafVisible : string -> bool)
          (stateExpandedList : option (list string)) (w : World),
     wellFormed root -> refsBelow (nextRef w) root -> leavesBare root ->
     leavesBare
       (statefulTree
          (fst (applyPropsToStatefulTree root isSelectable isSearchable
                  isMultiPick searchTerm selectedList propsExpandedList
                  isAdditionalFilterApplied isLeafVisible stateExpandedList
                  w)))).
Proof.
  split.
  - intros tree k. destruct (createStatefulTree tree k) as [t k'] eqn:E.
    apply (built_spec tree k) in E as (_ & _ & _ & H & _).
    apply built_bare. cbn [fst].
    eapply Forall_impl; [|exact H]. cbn. intros n (Hn & _). exact Hn.
  - intros root isSelectable isSearchable isMultiPick searchTerm selectedList
      propsExpandedList isAdditionalFilterApplied isLeafVisible
      stateExpandedList w Hwf Hrefs Hbare.
    apply (@applyProps_facts root isSelectable isSearchable isMultiPick
             searchTerm selectedList propsExpandedList
             isAdditionalFilterApplied isLeafVisible stateExpandedList w
             Hwf Hrefs).
    exact Hbare.
Qed.

Lemma X2_witness :
  wellFormed sampleStateful /\
  refsBelow (nextRef sampleWorld) sampleStateful /\
  leavesBare sampleStateful /\
  leavesBare
    (statefulTree
       (fst (applyPropsToStatefulTree sampleStateful (Some true) true
               (Some true) "x" ["leaf1"] None None (fun _ => true) None
               sampleWorld))).
Proof.
  split; [exact sample_wellFormed|]. split; [exact sample_refsBelow|].
  split; [exact sample_bare|].
  exact (proj2 X2_leaves_never_carry_branch_flags sampleStateful (Some true)
           true (Some true) "x" ["leaf1"] None None (fun _ => true) None
           sampleWorld sample_wellFormed sample_refsBelow sample_bare).
Defined.

(** X3.  After a reconciliation a leaf is visible exactly when the
    visibility function accepts its id, and a branch is visible exactly when
    some leaf below it is: at every node, [isVisible] is the disjunction of
    the visibility function over the ids of the leaves at or below it. *)
Theorem X3_visible_iff_some_leaf_below_is_visible :
  forall (root : StatefulNode)
         (isSelectable : Js.obool) (isSearchable : bool)
         (isMultiPick : Js.obool) (searchTerm : string)
         (selectedList : list string)
         (propsExpandedList : option (list string))
         (isAdditionalFilterApplied : Js.obool)
         (isLeafVisible : string -> bool)
         (stateExpandedList : option (list string)) (w : World),
    wellFormed root -> refsBelow (nextRef w) root ->
    Forall (fun n => isVisible (getNodeState n)
                     = existsb (fun l => isLeafVisible (nodeId l))
                         (leafNodes n))
      (subtrees
         (statefulTree
            (fst (applyPropsToStatefulTree root isSelectable isSearchable
                    isMultiPick searchTerm selectedList propsExpandedList
                    isAdditionalFilterApplied isLeafVisible
                    stateExpandedList w)))).
Proof.
  intros root isSelectable isSearchable isMultiPick searchTerm selectedList
    propsExpandedList isAdditionalFilterApplied isLeafVisible
    stateExpandedList w Hwf Hrefs.
  destruct (@applyProps_facts root isSelectable isSearchable isMultiPick
              searchTerm selectedList propsExpandedList
              isAdditionalFilterApplied isLeafVisible stateExpandedList w
              Hwf Hrefs) as (Hok & Hwf' & _).
  apply Forall_forall. intros n Hn.
  eapply visible_by_leaves.
  - eapply Forall_subtrees_sub; [exact Hok|exact Hn].
  - eapply Forall_subtrees_sub; [exact Hwf'|exact Hn].
Qed.

Lemma X3_witness :
  let visible id := String.eqb id "leaf3" in
  let out :=
    statefulTree
      (fst (applyPropsToStatefulTree sampleStateful (Some true) true
              (Some true) "x" [] None None visible None sampleWorld)) in
  wellFormed sampleStateful /\
  refsBelow (nextRef sampleWorld) sampleStateful /\
  isVisible (getNodeState out) = true /\
  isVisible (getNodeState (nth 0 (children out) out)) = false.
Proof.
  intros visible out.
  pose proof (@X3_visible_iff_some_leaf_below_is_visible sampleStateful
                (Some true) true (Some true) "x" [] None None visible None
                sampleWorld sample_wellFormed sample_refsBelow) as H.
  fold out in H. rewrite Forall_forall in H.
  split; [exact sample_wellFormed|]. split; [exact sample_refsBelow|]. split.
  - rewrite (H out); [reflexivity|apply subtrees_self].
  - rewrite (H (nth 0 (children out) out)); [reflexivity|cbn; tauto].
Defined.

Lemma nodes_along_sub {A} p : forall (t l n : Tree A),
  at_path p t = Some l -> In n (nodes_along p t) ->
  In n (subtrees t) /\ In l (subtrees n).
Proof.
  induction p as [|i p IH]; intros t l n Hp Hn; cbn in Hp, Hn.
  - injection Hp as <-. destruct Hn as [<-|[]].
    split; apply subtrees_self.
  - destruct t as [a cs]. cbn [children] in Hp, Hn.
    destruct (nth_error cs i) as [c|] eqn:Hi; [|discriminate Hp].
    pose proof (nth_error_In _ _ Hi) as Hc.
    destruct Hn as [<-|Hn].
    + split; [apply subtrees_self|].
      eapply subtrees_child; [exact Hc|]. eapply at_path_subtrees, Hp.
    + destruct (IH c l n Hp Hn) as [H1 H2].
      split; [eapply subtrees_child; eassumption|exact H2].
Qed.

(** X4.  While a search is active, the way down to a visible leaf is open:
    every node from the root to a leaf that the visibility function accepts
    is visible, and every branch among them is expanded, whatever the
    expansion list says. *)
Theorem X4_search_opens_the_way_to_visible_leaves :
  forall (root : StatefulNode)
         (isSelectable : Js.obool) (isSearchable : bool)
         (isMultiPick : Js.obool) (searchTerm : string)
         (selectedList : list string)
         (propsExpandedList : option (list string))
         (isAdditionalFilterApplied : Js.obool)
         (isLeafVisible : string -> bool)
         (stateExpandedList : option (list string)) (w : World)
         (p : list nat) (leaf : StatefulNode),
    wellFormed root -> refsBelow (nextRef w) root ->
    isActiveSearch isAdditionalFilterApplied isSearchable searchTerm = true ->
    let out :=
      statefulTree
        (fst (applyPropsToStatefulTree root isSelectable isSearchable
                isMultiPick searchTerm selectedList propsExpandedList
                isAdditionalFilterApplied isLeafVisible stateExpandedList
                w)) in
    at_path p out = Some leaf ->
    nodeIsLeaf leaf = true ->
    isLeafVisible (nodeId leaf) = true ->
    Forall (fun n => isVisible (getNodeState n) = true /\
                     (nodeIsLeaf n = true \/
                      isExpanded (getNodeState n) = Some true))
           (nodes_along p out).
Proof.
  intros root isSelectable isSearchable isMultiPick searchTerm selectedList
    propsExpandedList isAdditionalFilterApplied isLeafVisible
    stateExpandedList w p leaf Hwf Hrefs Hactive out Hp Hleaf Hvis.
  destruct (@applyProps_facts root isSelectable isSearchable isMultiPick
              searchTerm selectedList propsExpandedList
              isAdditionalFilterApplied isLeafVisible stateExpandedList w
              Hwf Hrefs) as (Hok & Hwf' & _).
  fold out in Hok, Hwf'.
  apply Forall_forall. intros n Hn.
  destruct (@nodes_along_sub _ p out leaf n Hp Hn) as [Hin Hbelow].
  assert (Hnvis : isVisible (getNodeState n) = true).
  { change (visibleNode n = true).
    erewrite visible_by_leaves.
    - apply existsb_exists. exists leaf. split; [|exact Hvis].
      apply filter_In. split; assumption.
    - eapply Forall_subtrees_sub; [exact Hok|exact Hin].
    - eapply Forall_subtrees_sub; [exact Hwf'|exact Hin]. }
  split; [exact Hnvis|].
  destruct (nodeIsLeaf n) eqn:En; [left; reflexivity|right].
  rewrite (@expansion_flag root isSelectable isSearchable isMultiPick
             searchTerm selectedList propsExpandedList
             isAdditionalFilterApplied isLeafVisible stateExpandedList w
             Hwf Hrefs n Hin En).
  rewrite Hactive, Hnvis. reflexivity.
Qed.

Lemma X4_witness :
  let visible id := String.eqb id "leaf2" in
  let out :=
    statefulTree
      (fst (applyPropsToStatefulTree sampleStateful (Some true) true
              (Some true) "x" [] (Some []) None visible None sampleWorld)) in
  isActiveSearch None true "x" = true /\
  map nodeId (nodes_along [0; 1] out) = ["root"; "A"; "leaf2"] /\
  Forall (fun n => isVisible (getNodeState n) = true /\
                   (nodeIsLeaf n = true \/
                    isExpanded (getNodeState n) = Some true))
         (nodes_along [0; 1] out).
Proof.
  intros visible out.
  split; [reflexivity|]. split; [reflexivity|].
  exact (@X4_search_opens_the_way_to_visible_leaves sampleStateful
           (Some true) true (Some true) "x" [] (Some []) None visible None
           sampleWorld [0; 1]
           (nth 1 (children (nth 0 (children out) out)) out)
           sample_wellFormed sample_refsBelow eq_refl eq_refl eq_refl
           eq_refl).
Defined.

(** X5.  On a tree whose leaves carry no indeterminate flag, a
    reconciliation leaves every node with the tri-state its leaves call
    for: a leaf is selected exactly when selection is enabled and its id is
    in the selection in effect; any node is selected exactly when all the
    leaves at or below it are, and indeterminate exactly when some of them
    are selected and some are not. *)
Theorem X5_tri_state_follows_the_leaves :
  forall (root : StatefulNode)
         (isSelectable : Js.obool) (isSearchable : bool)
         (isMultiPick : Js.obool) (searchTerm : string)
         (selectedList : list string)
         (propsExpandedList : option (list string))
         (isAdditionalFilterApplied : Js.obool)
         (isLeafVisible : string -> bool)
         (stateExpandedList : option (list string)) (w : World),
    wellFormed root -> refsBelow (nextRef w) root -> leavesBare root ->
    let out :=
      statefulTree
        (fst (applyPropsToStatefulTree root isSelectable isSearchable
                isMultiPick searchTerm selectedList propsExpandedList
                isAdditionalFilterApplied isLeafVisible stateExpandedList
                w)) in
    Forall (fun l => selectedNode l
                     = Js.truthy isSelectable
                       && Js.has (effectiveSelection isMultiPick selectedList)
                            (nodeId l))
           (leafNodes out) /\
    Forall (fun n => selectedNode n = allLeavesSelected n /\
                     indeterminateNode n
                     = someLeafSelected n && negb (allLeavesSelected n))
           (subtrees out).
Proof.
  intros root isSelectable isSearchable isMultiPick searchTerm selectedList
    propsExpandedList isAdditionalFilterApplied isLeafVisible
    stateExpandedList w Hwf Hrefs Hbare out.
  destruct (@applyProps_facts root isSelectable isSearchable isMultiPick
              searchTerm selectedList propsExpandedList
              isAdditionalFilterApplied isLeafVisible stateExpandedList w
              Hwf Hrefs) as (Hok & Hwf' & _ & _ & _ & _ & _ & Hbare' & _).
  fold out in Hok, Hwf', Hbare'. specialize (Hbare' Hbare).
  split.
  - apply Forall_forall. intros l Hl. apply filter_In in Hl as [Hl Hleaf].
    destruct (@settled_leaf _ _ _ _ _ _ _ _ _ _ _ Hok Hl Hleaf) as [Hsel _].
    unfold selectedNode. rewrite Hsel. unfold leafSelected.
    now rewrite truthy_and, has_set_of.
  - apply Forall_forall. intros n Hn.
    eapply selected_by_leaves.
    + eapply Forall_subtrees_sub; [exact Hok|exact Hn].
    + eapply Forall_subtrees_sub; [exact Hwf'|exact Hn].
    + intros l Hl. apply filter_In in Hl as [Hl Hleaf].
      unfold leavesBare in Hbare'. rewrite Forall_forall in Hbare'.
      unfold indeterminateNode.
      destruct (Hbare' l (subtrees_trans _ _ _ Hn Hl) Hleaf) as [-> _].
      reflexivity.
Qed.

Lemma X5_witness :
  let out :=
    statefulTree
      (fst (applyPropsToStatefulTree sampleStateful (Some true) false
              (Some true) "" ["leaf1"; "leaf2"] None None (fun _ => true)
              None sampleWorld)) in
  wellFormed sampleStateful /\
  refsBelow (nextRef sampleWorld) sampleStateful /\
  leavesBare sampleStateful /\
  selectedNode (nth 0 (children out) out) = true /\
  indeterminateNode out = true.
Proof.
  intros out.
  destruct (@X5_tri_state_follows_the_leaves sampleStateful (Some true)
              false (Some true) "" ["leaf1"; "leaf2"] None None
              (fun _ => true) None sampleWorld sample_wellFormed
              sample_refsBelow sample_bare) as [_ H].
  fold out in H. rewrite Forall_forall in H.
  split; [exact sample_wellFormed|]. split; [exact sample_refsBelow|].
  split; [exact sample_bare|]. split.
  - destruct (H (nth 0 (children out) out)) as [-> _];
      [cbn; tauto|reflexivity].
  - destruct (H out) as [_ ->]; [apply subtrees_self|reflexivity].
Defined.

Lemma some_selected_child cs :
  cs <> [] ->
  existsb (fun c => negb (selectedNode c)) cs = false ->
  existsb selectedNode cs = true.
Proof.
  destruct cs as [|c cs]; [congruence|]. cbn. intros _ H.
  apply orb_false_iff in H as [H _]. apply negb_false_iff in H.
  now rewrite H.
Qed.

(** X6.  With no expansion list and no active search, on a tree whose leaves
    carry no indeterminate flag, the engine expands a branch by the
    selection below it: under multi-pick exactly when some but not all of
    the leaves below it are selected, and when multi-pick is off exactly
    when some leaf below it is selected (also when all of them are). *)
Theorem X6_derived_expansion_follows_the_selection_below :
  forall (root : StatefulNode)
         (isSelectable : Js.obool) (isSearchable : bool)
         (isMultiPick : Js.obool) (searchTerm : string)
         (selectedList : list string)
         (isAdditionalFilterApplied : Js.obool)
         (isLeafVisible : string -> bool) (w : World),
    wellFormed root -> refsBelow (nextRef w) root -> leavesBare root ->
    isActiveSearch isAdditionalFilterApplied isSearchable searchTerm = false ->
    let out :=
      statefulTree
        (fst (applyPropsToStatefulTree root isSelectable isSearchable
                isMultiPick searchTerm selectedList None
                isAdditionalFilterApplied isLeafVisible None w)) in
    Forall (fun b => isExpanded (getNodeState b)
                     = Some (if Js.truthy isMultiPick
                             then someLeafSelected b
                                  && negb (allLeavesSelected b)
                             else someLeafSelected b))
           (branchNodes out).
Proof.
  intros root isSelectable isSearchable isMultiPick searchTerm selectedList
    isAdditionalFilterApplied isLeafVisible w Hwf Hrefs Hbare Hidle out.
  destruct (@applyProps_facts root isSelectable isSearchable isMultiPick
              searchTerm selectedList None isAdditionalFilterApplied
              isLeafVisible None w Hwf Hrefs)
    as (Hok & Hwf' & _ & _ & _ & _ & _ & Hbare' & _).
  fold out in Hok, Hwf', Hbare'. specialize (Hbare' Hbare).
  apply Forall_forall. intros b Hb.
  apply filter_In in Hb as [Hb Hbranch]. apply negb_true_iff in Hbranch.
  pose proof (Forall_subtrees_sub _ _ Hok Hb) as Hokb.
  pose proof (Forall_subtrees_sub _ _ Hwf' Hb) as Hwfb.
  destruct (@selected_by_leaves _ _ _ _ _ _ _ _ _ b Hokb Hwfb)
    as [Hsel Hind].
  { intros l Hl. apply filter_In in Hl as [Hl Hleaf].
    unfold leavesBare in Hbare'. rewrite Forall_forall in Hbare'.
    unfold indeterminateNode.
    destruct (Hbare' l (subtrees_trans _ _ _ Hb Hl) Hleaf) as [-> _].
    reflexivity. }
  pose proof (@settled_branch _ _ _ _ _ _ _ _ _ _ _ Hokb
                (subtrees_self b) Hbranch) as Hst.
  cbv zeta in Hst.
  unfold selectedNode in Hsel at 1. unfold indeterminateNode in Hind at 1.
  rewrite Hst in Hsel, Hind |- *.
  cbn [isSelected isIndeterminate isExpanded] in *.
  rewrite truthy_Some in Hsel, Hind.
  fold (allLeavesSelected b) in Hsel, Hind.
  fold (someLeafSelected b) in Hind.
  unfold branchExpanded, branchIndeterminate, branchSelected in *.
  rewrite Hidle. cbn [andb orb chosenExpandedList isProvided].
  assert (Hkids : getStatefulChildren b <> []).
  { apply wf_root in Hwfb. rewrite Hbranch in Hwfb.
    unfold isLeaf in Hwfb. intros Hnil. rewrite Hnil in Hwfb.
    discriminate Hwfb. }
  pose proof (some_selected_child Hkids) as Hsome.
  unfold found in *.
  cbn [indeterminateChildFound unselectedChildFound selectedChildFound]
    in *.
  set (i := existsb indeterminateNode (getStatefulChildren b)) in *.
  set (s := existsb selectedNode (getStatefulChildren b)) in *.
  set (u := existsb (fun c => negb (selectedNode c)) (getStatefulChildren b))
    in *.
  f_equal. destruct (Js.truthy isMultiPick); cbn [negb orb].
  - rewrite <- Hind. destruct i, s, u; reflexivity.
  - rewrite andb_true_r.
    destruct (allLeavesSelected b) eqn:ES.
    + assert (HE : someLeafSelected b = true).
      { apply forall_exists_nonempty; [|exact ES].
        apply leafNodes_nonempty, Hwfb. }
      rewrite HE.
      apply andb_true_iff in Hsel as [_ Hu]. apply negb_true_iff in Hu.
      rewrite (Hsome Hu). apply orb_true_r.
    + cbn [negb] in Hind. rewrite andb_true_r in Hind.
      rewrite <- Hind, Hsel. reflexivity.
Qed.

Lemma X6_witness :
  let outFor isMultiPick :=
    statefulTree
      (fst (applyPropsToStatefulTree sampleStateful (Some true) false
              isMultiPick "" ["leaf3"] None None (fun _ => true) None
              sampleWorld)) in
  wellFormed sampleStateful /\
  refsBelow (nextRef sampleWorld) sampleStateful /\
  leavesBare sampleStateful /\
  isActiveSearch None false "" = false /\
  isExpanded (getNodeState (nth 1 (children (outFor (Some true)))
                              sampleStateful)) = Some false /\
  isExpanded (getNodeState (nth 1 (children (outFor (Some false)))
                              sampleStateful)) = Some true.
Proof.
  intros outFor.
  pose proof (fun mp =>
    @X6_derived_expansion_follows_the_selection_below sampleStateful
      (Some true) false mp "" ["leaf3"] None (fun _ => true) sampleWorld
      sample_wellFormed sample_refsBelow sample_bare eq_refl) as H.
  split; [exact sample_wellFormed|]. split; [exact sample_refsBelow|].
  split; [exact sample_bare|]. split; [reflexivity|]. split.
  - specialize (H (Some true)). cbv zeta in H. rewrite Forall_forall in H.
    rewrite (H (nth 1 (children (outFor (Some true))) sampleStateful));
      [reflexivity|cbn; tauto].
  - specialize (H (Some false)). cbv zeta in H. rewrite Forall_forall in H.
    rewrite (H (nth 1 (children (outFor (Some false))) sampleStateful));
      [reflexivity|cbn; tauto].
Defined.

(** X7.  A reconciliation keeps the caller's node and the shape at every
    position of the tree, whatever the inputs; it allocates at most one object
    per node, the root it returns is the root it was given or an object
    allocated by this call, and a tree that lies over the caller's tree
    still does. *)
Theorem X7_reconciliation_keeps_the_shape_and_bounds_allocation :
  forall (root : StatefulNode)
         (isSelectable : Js.obool) (isSearchable : bool)
         (isMultiPick : Js.obool) (searchTerm : string)
         (selectedList : list string)
         (propsExpandedList : option (list string))
         (isAdditionalFilterApplied : Js.obool)
         (isLeafVisible : string -> bool)
         (stateExpandedList : option (list string)) (w : World),
    wellFormed root -> refsBelow (nextRef w) root ->
    let result :=
      applyPropsToStatefulTree root isSelectable isSearchable isMultiPick
        searchTerm selectedList propsExpandedList isAdditionalFilterApplied
        isLeafVisible stateExpandedList w in
    let out := statefulTree (fst result) in
    skeleton out = skeleton root /\
    size out = size root /\
    wellFormed out /\
    (out = root \/ nextRef w <= refOf out) /\
    nextRef w <= nextRef (snd result) /\
    nextRef (snd result) <= nextRef w + size root /\
    refsBelow (nextRef (snd result)) out /\
    (mirrors root -> mirrors out /\ idTree out = idTree root).
Proof.
  intros root isSelectable isSearchable isMultiPick searchTerm selectedList
    propsExpandedList isAdditionalFilterApplied isLeafVisible
    stateExpandedList w Hwf Hrefs result out.
  destruct (@applyProps_facts root isSelectable isSearchable isMultiPick
              searchTerm selectedList propsExpandedList
              isAdditionalFilterApplied isLeafVisible stateExpandedList w
              Hwf Hrefs)
    as (_ & Hwf' & Hsk & Hroot & Hbelow & Hle & Hbound & _ & Hm).
  fold result in Hwf', Hsk, Hroot, Hbelow, Hle, Hbound, Hm.
  fold out in Hwf', Hsk, Hroot, Hbelow, Hm.
  repeat split; try assumption.
  - rewrite <- (size_tmap raw out), <- (size_tmap raw root).
    unfold skeleton in Hsk. now rewrite Hsk.
  - now apply Hm.
  - unfold idTree.
    rewrite <- (tmap_tmap raw getNodeId out),
            <- (tmap_tmap raw getNodeId root).
    unfold skeleton in Hsk. now rewrite Hsk.
Qed.

Lemma X7_witness :
  let result :=
    applyPropsToStatefulTree sampleStateful (Some true) true (Some true)
      "leaf" ["leaf1"] None None (fun id => String.eqb id "leaf1") None
      sampleWorld in
  wellFormed sampleStateful /\
  refsBelow (nextRef sampleWorld) sampleStateful /\
  skeleton (statefulTree (fst result)) = skeleton sampleStateful /\
  nextRef (snd result) <= nextRef sampleWorld + size sampleStateful.
Proof.
  intros result.
  pose proof (@X7_reconciliation_keeps_the_shape_and_bounds_allocation
                sampleStateful (Some true) true (Some true) "leaf"
                ["leaf1"] None None (fun id => String.eqb id "leaf1") None
                sampleWorld sample_wellFormed sample_refsBelow) as H.
  cbv zeta in H. fold result in H.
  destruct H as (Hsk & _ & _ & _ & _ & Hbound & _).
  split; [exact sample_wellFormed|]. split; [exact sample_refsBelow|].
  split; [exact Hsk|exact Hbound].
Defined.

(** ** The result of a reconciliation, read off the leaves *)

Lemma forallb_map' {A B} (f : B -> bool) (g : A -> B) l :
  forallb f (map g l) = forallb (fun x => f (g x)) l.
Proof. induction l as [|x l IH]; cbn; [reflexivity|now rewrite IH]. Qed.

Lemma existsb_map' {A B} (f : B -> bool) (g : A -> B) l :
  existsb f (map g l) = existsb (fun x => f (g x)) l.
Proof. induction l as [|x l IH]; cbn; [reflexivity|now rewrite IH]. Qed.

Lemma leafNodes_sub t n l :
  In n (subtrees t) -> In l (leafNodes n) -> In l (leafNodes t).
Proof.
  intros Hn Hl. apply filter_In in Hl as [Hl Hleaf].
  apply filter_In. split; [|exact Hleaf]. eapply subtrees_trans; eassumption.
Qed.

Lemma skeleton_root t t' :
  skeleton t' = skeleton t -> raw (label t') = raw (label t).
Proof.
  destruct t as [a cs], t' as [a' cs']. unfold skeleton. cbn.
  intros H. now injection H.
Qed.

Lemma applyProps_leafwise root isSelectable isSearchable isMultiPick
    searchTerm selectedList propsExpandedList isAdditionalFilterApplied
    isLeafVisible stateExpandedList w :
  wellFormed root -> refsBelow (nextRef w) root -> leavesBare root ->
  let out :=
    statefulTree
      (fst (applyPropsToStatefulTree root isSelectable isSearchable
              isMultiPick searchTerm selectedList propsExpandedList
              isAdditionalFilterApplied isLeafVisible stateExpandedList
              w)) in
  let sel id :=
    Js.truthy isSelectable
    && Js.has (effectiveSelection isMultiPick selectedList) id in
  forall n, In n (subtrees out) ->
    wellFormed n /\
    selectedNode n = forallb sel (map nodeId (leafNodes n)) /\
    indeterminateNode n
    = existsb sel (map nodeId (leafNodes n))
      && negb (forallb sel (map nodeId (leafNodes n))) /\
    visibleNode n = existsb isLeafVisible (map nodeId (leafNodes n)).
Proof.
  intros Hwf Hrefs Hbare out sel n Hn.
  destruct (@applyProps_facts root isSelectable isSearchable isMultiPick
              searchTerm selectedList propsExpandedList
              isAdditionalFilterApplied isLeafVisible stateExpandedList w
              Hwf Hrefs) as (Hok & Hwf' & _ & _ & _ & _ & _ & Hbare' & _).
  fold out in Hok, Hwf', Hbare'. specialize (Hbare' Hbare).
  pose proof (Forall_subtrees_sub _ _ Hok Hn) as Hokn.
  pose proof (Forall_subtrees_sub _ _ Hwf' Hn) as Hwfn.
  assert (Hleafsel : forall l, In l (leafNodes n) ->
                               selectedNode l = sel (nodeId l)).
  { intros l Hl. apply filter_In in Hl as [Hl Hleaf].
    destruct (@settled_leaf _ _ _ _ _ _ _ _ _ _ _ Hok
                (subtrees_trans _ _ _ Hn Hl) Hleaf) as [Hsel _].
    unfold selectedNode. rewrite Hsel. unfold leafSelected, sel.
    now rewrite truthy_and, has_set_of. }
  destruct (@selected_by_leaves _ _ _ _ _ _ _ _ _ n Hokn Hwfn)
    as [Hsel Hind].
  { intros l Hl. apply filter_In in Hl as [Hl Hleaf].
    unfold leavesBare in Hbare'. rewrite Forall_forall in Hbare'.
    unfold indeterminateNode.
    destruct (Hbare' l (subtrees_trans _ _ _ Hn Hl) Hleaf) as [-> _].
    reflexivity. }
  split; [exact Hwfn|].
  rewrite forallb_map', !existsb_map'.
  rewrite Hsel, Hind, (@visible_by_leaves _ _ _ _ _ _ _ _ _ n Hokn Hwfn).
  rewrite (forallb_ext_in _ _ _ Hleafsel), (existsb_ext_in _ _ _ Hleafsel).
  repeat split; reflexivity.
Qed.

Lemma forallb_none {A} (l : list A) :
  l <> [] -> forallb (fun _ => false) l = false.
Proof. destruct l; [congruence|reflexivity]. Qed.

Lemma existsb_none {A} (l : list A) : existsb (fun _ => false) l = false.
Proof. induction l; [reflexivity|exact IHl]. Qed.

(** X8.  While selection is disabled ([isSelectable] false or left out) the
    selected list has no effect: after a reconciliation no node is selected
    and none is indeterminate, and with no expansion list and no active
    search no branch is expanded. *)
Theorem X8_disabled_selection_ignores_the_selected_list :
  forall (root : StatefulNode)
         (isSelectable : Js.obool) (isSearchable : bool)
         (isMultiPick : Js.obool) (searchTerm : string)
         (selectedList : list string)
         (propsExpandedList : option (list string))
         (isAdditionalFilterApplied : Js.obool)
         (isLeafVisible : string -> bool)
         (stateExpandedList : option (list string)) (w : World),
    wellFormed root -> refsBelow (nextRef w) root -> leavesBare root ->
    Js.truthy isSelectable = false ->
    let result :=
      fst (applyPropsToStatefulTree root isSelectable isSearchable
             isMultiPick searchTerm selectedList propsExpandedList
             isAdditionalFilterApplied isLeafVisible stateExpandedList w) in
    Forall (fun n => selectedNode n = false /\ indeterminateNode n = false)
           (subtrees (statefulTree result)) /\
    (propsExpandedList = None -> stateExpandedList = None ->
     isActiveSearch isAdditionalFilterApplied isSearchable searchTerm
     = false ->
     Forall (fun b => isExpanded (getNodeState b) = Some false)
            (branchNodes (statefulTree result)) /\
     expandedList result = []).
Proof.
  intros root isSelectable isSearchable isMultiPick searchTerm selectedList
    propsExpandedList isAdditionalFilterApplied isLeafVisible
    stateExpandedList w Hwf Hrefs Hbare Hoff result.
  pose proof (@applyProps_leafwise root isSelectable isSearchable
                isMultiPick searchTerm selectedList propsExpandedList
                isAdditionalFilterApplied isLeafVisible stateExpandedList w
                Hwf Hrefs Hbare) as Hleaf.
  cbv zeta in Hleaf. fold result in Hleaf. rewrite Hoff in Hleaf.
  cbn [andb] in Hleaf.
  assert (Hnone : Forall (fun n => selectedNode n = false /\
                                   indeterminateNode n = false)
                         (subtrees (statefulTree result))).
  { apply Forall_forall. intros n Hn.
    destruct (Hleaf n Hn) as (Hwfn & Hsel & Hind & _).
    rewrite Hsel, Hind, existsb_none.
    split; [|reflexivity]. apply forallb_none.
    intros Hnil. apply map_eq_nil in Hnil.
    exact (leafNodes_nonempty Hwfn Hnil). }
  split; [exact Hnone|].
  intros -> -> Hidle.
  destruct (@applyProps_facts root isSelectable isSearchable isMultiPick
              searchTerm selectedList None isAdditionalFilterApplied
              isLeafVisible None w Hwf Hrefs) as (Hok & _).
  fold result in Hok.
  assert (Hclosed : Forall (fun b => isExpanded (getNodeState b) = Some false)
                           (branchNodes (statefulTree result))).
  { apply Forall_forall. intros b Hb.
    apply filter_In in Hb as [Hb Hbranch]. apply negb_true_iff in Hbranch.
    rewrite (@settled_branch _ _ _ _ _ _ _ _ _ _ _ Hok Hb Hbranch).
    cbn [isExpanded]. unfold branchExpanded. rewrite Hidle.
    cbn [andb orb chosenExpandedList isProvided]. f_equal.
    unfold found.
    cbn [indeterminateChildFound selectedChildFound unselectedChildFound].
    rewrite Forall_forall in Hnone.
    assert (Hkids : forall c, In c (getStatefulChildren b) ->
                              In c (subtrees (statefulTree result))).
    { intros c Hc. eapply subtrees_trans; [exact Hb|].
      destruct b as [a cs]. eapply subtrees_child; [exact Hc|].
      apply subtrees_self. }
    rewrite (existsb_ext_in indeterminateNode (fun _ => false)),
            (existsb_ext_in selectedNode (fun _ => false)).
    - now rewrite !existsb_none.
    - intros c Hc. apply (Hnone c (Hkids c Hc)).
    - intros c Hc. apply (Hnone c (Hkids c Hc)). }
  split; [exact Hclosed|].
  destruct (expandedList result) as [|x l] eqn:Elist; [reflexivity|].
  exfalso.
  assert (Hx : In x (expandedList result)) by (rewrite Elist; now left).
  unfold result in Hx.
  unfold applyPropsToStatefulTree in Hx, Hclosed, Hok.
  unfold result, applyPropsToStatefulTree in Hclosed.
  pose proof (@run_generated isSelectable isSearchable isMultiPick
                searchTerm isAdditionalFilterApplied isLeafVisible false
                (Js.set_of (effectiveSelection isMultiPick selectedList))
                (Js.set_of []) root (mkMapState (nextRef w) [])) as Hgen.
  unfold applyPropsRun in *.
  cbn [chosenExpandedList isProvided orEmpty] in *.
  fold (effectiveSelection isMultiPick selectedList) in *.
  destruct (reconcile isSelectable isSearchable isMultiPick searchTerm
              isAdditionalFilterApplied isLeafVisible false
              (Js.set_of (effectiveSelection isMultiPick selectedList))
              (Js.set_of []) root (mkMapState (nextRef w) []))
    as [t' s'] eqn:Erun.
  cbn [fst statefulTree expandedList] in *.
  unfold Js.array_from in Hx.
  apply (Hgen t' s' Hwf Hrefs eq_refl x) in Hx.
  destruct Hx as [[]|(_ & b & Hb & Hbranch & _ & Hopen)].
  rewrite Forall_forall in Hclosed.
  rewrite (Hclosed b) in Hopen; [discriminate|].
  apply filter_In. split; [exact Hb|]. now rewrite Hbranch.
Qed.

Lemma X8_witness :
  let result :=
    fst (applyPropsToStatefulTree sampleStateful None false (Some true) ""
           ["leaf1"; "leaf3"] None None (fun _ => true) None sampleWorld) in
  wellFormed sampleStateful /\
  refsBelow (nextRef sampleWorld) sampleStateful /\
  leavesBare sampleStateful /\
  Js.truthy None = false /\
  selectedNode (statefulTree result) = false /\
  expandedList result = [].
Proof.
  intros result.
  destruct (@X8_disabled_selection_ignores_the_selected_list sampleStateful
              None false (Some true) "" ["leaf1"; "leaf3"] None None
              (fun _ => true) None sampleWorld sample_wellFormed
              sample_refsBelow sample_bare eq_refl) as [Hnone Hclosed].
  fold result in Hnone, Hclosed.
  rewrite Forall_forall in Hnone.
  split; [exact sample_wellFormed|]. split; [exact sample_refsBelow|].
  split; [exact sample_bare|]. split; [reflexivity|]. split.
  - apply (Hnone (statefulTree result)), subtrees_self.
  - apply (Hclosed eq_refl eq_refl eq_refl).
Defined.

(** ** What the inputs are read for *)

Lemma mapM_ext_in {S A B} (f g : A -> St S B) l :
  (forall a, In a l -> forall s, f a s = g a s) ->
  forall s, mapM f l s = mapM g l s.
Proof.
  induction l as [|a l IH]; intros H s; cbn [mapM]; [reflexivity|].
  unfold bind. rewrite (H a (or_introl eq_refl) s).
  destruct (g a s) as [b s1]. rewrite IH; [reflexivity|].
  intros a' Ha'. apply H. right. exact Ha'.
Qed.

(** The traversal reads the selection and the visibility function at the
    ids of the leaves of the tree, and the expansion list at the ids of its
    branches. *)
Lemma reconcile_ext isSelectable isSearchable isMultiPick searchTerm
    isAdditionalFilterApplied provided
    (visible1 visible2 : string -> bool) (selected1 selected2 : Js.set)
    (expanded1 expanded2 : Js.set) t :
  (forall l, In l (subtrees t) -> nodeIsLeaf l = true ->
             Js.has selected1 (nodeId l) = Js.has selected2 (nodeId l) /\
             visible1 (nodeId l) = visible2 (nodeId l)) ->
  (forall b, In b (subtrees t) -> nodeIsLeaf b = false ->
             Js.has expanded1 (nodeId b) = Js.has expanded2 (nodeId b)) ->
  forall s,
    reconcile isSelectable isSearchable isMultiPick searchTerm
      isAdditionalFilterApplied visible1 provided selected1 expanded1 t s
    = reconcile isSelectable isSearchable isMultiPick searchTerm
        isAdditionalFilterApplied visible2 provided selected2 expanded2 t s.
Proof.
  induction t as [a cs IH] using Tree_ind'. intros Hleaves Hbranches s.
  unfold reconcile. rewrite !mapStructure_eq. unfold bind.
  rewrite (@mapM_ext_in _ _ _
             (mapStructure (mapFunction isSelectable isSearchable isMultiPick
                searchTerm isAdditionalFilterApplied visible1 provided
                selected1 expanded1))
             (mapStructure (mapFunction isSelectable isSearchable isMultiPick
                searchTerm isAdditionalFilterApplied visible2 provided
                selected2 expanded2)) cs).
  - destruct (mapM _ cs s) as [ms s1].
    unfold mapFunction.
    destruct (nodeIsLeaf (Tr a cs)) eqn:Eleaf.
    + destruct (Hleaves (Tr a cs) (subtrees_self _) Eleaf) as [Hs Hv].
      unfold leafSelected. now rewrite Hs, Hv.
    + unfold branchExpanded.
      now rewrite (Hbranches (Tr a cs) (subtrees_self _) Eleaf).
  - intros c Hc s0. rewrite Forall_forall in IH.
    apply (IH c Hc).
    + intros l Hl. apply Hleaves. eapply subtrees_child; eassumption.
    + intros b Hb. apply Hbranches. eapply subtrees_child; eassumption.
Qed.

(** X9.  The engine reads the selected list and the visibility function
    only at the ids of the leaves of the tree, and the expansion list only
    at the ids of its branches: two selected lists with the same leaves of
    the tree in them (after the single-pick trim), and two visibility
    functions that agree on the leaves, give the same result, whatever the
    order, the repetitions and the foreign ids of the lists; two expansion
    lists with the same branches of the tree in them give the same tree. *)
Theorem X9_only_the_ids_of_the_tree_are_read :
  forall (root : StatefulNode)
         (isSelectable : Js.obool) (isSearchable : bool)
         (isMultiPick : Js.obool) (searchTerm : string)
         (isAdditionalFilterApplied : Js.obool)
         (stateExpandedList : option (list string)) (w : World),
    (forall (selectedList1 selectedList2 : list string)
            (visible1 visible2 : string -> bool)
            (propsExpandedList : option (list string)),
       (forall l, In l (leafNodes root) ->
          Js.has (effectiveSelection isMultiPick selectedList1) (nodeId l)
          = Js.has (effectiveSelection isMultiPick selectedList2) (nodeId l)
          /\ visible1 (nodeId l) = visible2 (nodeId l)) ->
       let result1 :=
         applyPropsToStatefulTree root isSelectable isSearchable isMultiPick
           searchTerm selectedList1 propsExpandedList
           isAdditionalFilterApplied visible1 stateExpandedList w in
       let result2 :=
         applyPropsToStatefulTree root isSelectable isSearchable isMultiPick
           searchTerm selectedList2 propsExpandedList
           isAdditionalFilterApplied visible2 stateExpandedList w in
       fst result1 = fst result2 /\
       nextRef (snd result1) = nextRef (snd result2)) /\
    (forall (selectedList expandedList1 expandedList2 : list string)
            (isLeafVisible : string -> bool),
       (forall b, In b (branchNodes root) ->
          Js.has expandedList1 (nodeId b) = Js.has expandedList2 (nodeId b)) ->
       let result1 :=
         applyPropsToStatefulTree root isSelectable isSearchable isMultiPick
           searchTerm selectedList (Some expandedList1)
           isAdditionalFilterApplied isLeafVisible stateExpandedList w in
       let result2 :=
         applyPropsToStatefulTree root isSelectable isSearchable isMultiPick
           searchTerm selectedList (Some expandedList2)
           isAdditionalFilterApplied isLeafVisible stateExpandedList w in
       statefulTree (fst result1) = statefulTree (fst result2) /\
       snd result1 = snd result2).
Proof.
  intros root isSelectable isSearchable isMultiPick searchTerm
    isAdditionalFilterApplied stateExpandedList w.
  split.
  - intros selectedList1 selectedList2 visible1 visible2 propsExpandedList
      Hagree result1 result2.
    unfold result1, result2, applyPropsToStatefulTree, applyPropsRun.
    fold (effectiveSelection isMultiPick selectedList1).
    fold (effectiveSelection isMultiPick selectedList2).
    rewrite (@reconcile_ext isSelectable isSearchable isMultiPick searchTerm
               isAdditionalFilterApplied
               (isProvided
                  (chosenExpandedList propsExpandedList stateExpandedList))
               visible1 visible2
               (Js.set_of (effectiveSelection isMultiPick selectedList1))
               (Js.set_of (effectiveSelection isMultiPick selectedList2))
               (Js.set_of
                  (orEmpty
                     (chosenExpandedList propsExpandedList
                        stateExpandedList)))
               (Js.set_of
                  (orEmpty
                     (chosenExpandedList propsExpandedList
                        stateExpandedList)))
               root).
    + destruct (reconcile _ _ _ _ _ _ _ _ _ root _) as [t' s'].
      split; reflexivity.
    + intros l Hl Hleaf. rewrite !has_set_of. apply Hagree.
      apply filter_In. split; assumption.
    + reflexivity.
  - intros selectedList expandedList1 expandedList2 isLeafVisible Hagree
      result1 result2.
    unfold result1, result2, applyPropsToStatefulTree, applyPropsRun.
    cbn [chosenExpandedList isProvided orEmpty].
    rewrite (@reconcile_ext isSelectable isSearchable isMultiPick searchTerm
               isAdditionalFilterApplied true isLeafVisible isLeafVisible
               (Js.set_of (fst (trimSelected isMultiPick selectedList)))
               (Js.set_of (fst (trimSelected isMultiPick selectedList)))
               (Js.set_of expandedList1) (Js.set_of expandedList2) root).
    + destruct (reconcile _ _ _ _ _ _ _ _ _ root _) as [t' s'].
      split; reflexivity.
    + intros l _ _. split; reflexivity.
    + intros b Hb Hbranch. rewrite !has_set_of. apply Hagree.
      apply filter_In. split; [exact Hb|]. now rewrite Hbranch.
Qed.

Lemma X9_witness :
  let engine selectedList expandedList :=
    applyPropsToStatefulTree sampleStateful (Some true) false (Some true) ""
      selectedList expandedList None (fun _ => true) None sampleWorld in
  fst (engine ["leaf1"; "leaf3"] None)
  = fst (engine ["leaf3"; "elsewhere"; "leaf1"; "leaf3"; "A"] None) /\
  statefulTree (fst (engine [] (Some ["A"])))
  = statefulTree (fst (engine [] (Some ["leaf1"; "A"; "A"]))).
Proof.
  intros engine.
  pose proof (@X9_only_the_ids_of_the_tree_are_read sampleStateful
                (Some true) false (Some true) "" None None sampleWorld)
    as [Hsel Hexp].
  split.
  - apply (Hsel ["leaf1"; "leaf3"]
             ["leaf3"; "elsewhere"; "leaf1"; "leaf3"; "A"]
             (fun _ => true) (fun _ => true) None).
    intros l Hl. split; [|reflexivity].
    cbn in Hl. repeat destruct Hl as [<-|Hl]; try reflexivity.
    destruct Hl.
  - apply (Hexp [] ["A"] ["leaf1"; "A"; "A"] (fun _ => true)).
    intros b Hb.
    cbn in Hb. repeat destruct Hb as [<-|Hb]; try reflexivity.
    destruct Hb.
Defined.

(** ** Trees that are already reconciled *)

Lemma applyProps_settled root isSelectable isSearchable isMultiPick
    searchTerm selectedList propsExpandedList isAdditionalFilterApplied
    isLeafVisible stateExpandedList w :
  let chosen := chosenExpandedList propsExpandedList stateExpandedList in
  settled isSelectable isSearchable isMultiPick searchTerm
    isAdditionalFilterApplied isLeafVisible (isProvided chosen)
    (Js.set_of (effectiveSelection isMultiPick selectedList))
    (Js.set_of (orEmpty chosen)) root ->
  let result :=
    applyPropsToStatefulTree root isSelectable isSearchable isMultiPick
      searchTerm selectedList propsExpandedList isAdditionalFilterApplied
      isLeafVisible stateExpandedList w in
  statefulTree (fst result) = root /\ nextRef (snd result) = nextRef w.
Proof.
  intros chosen Hok result.
  unfold result, applyPropsToStatefulTree, applyPropsRun.
  fold chosen. fold (effectiveSelection isMultiPick selectedList).
  destruct (run_settled (mkMapState (nextRef w) []) Hok) as [Ht Hn].
  destruct (reconcile _ _ _ _ _ _ _ _ _ root _) as [t' s'].
  cbn in Ht, Hn |- *. split; assumption.
Qed.

Lemma existsb_all {A} (l : list A) : l <> [] -> existsb (fun _ => true) l = true.
Proof. destruct l; [congruence|reflexivity]. Qed.

Lemma initial_flags (n : StatefulNode) :
  getNodeState n = getInitialNodeState (raw (label n)) ->
  selectedNode n = false /\ indeterminateNode n = false /\
  visibleNode n = true.
Proof.
  intros H. unfold selectedNode, indeterminateNode, visibleNode.
  rewrite H. unfold getInitialNodeState.
  destruct (isLeaf getNodeChildren (raw (label n))); repeat split.
Qed.

Lemma child_subtree {A} (n c : Tree A) : In c (children n) -> In c (subtrees n).
Proof.
  destruct n as [a cs]. cbn [children]. intros Hc.
  eapply subtrees_child; [exact Hc|apply subtrees_self].
Qed.

(** X10.  A tree that [createStatefulTree] has just built is already
    reconciled with inputs that select none of its leaves, show all of
    them, have no search active and expand none of its branches: the
    reconciliation returns the tree it was given, the same object, allocates
    nothing, and with no expansion list it derives the empty list. *)
Theorem X10_a_new_tree_is_reconciled_with_the_empty_inputs :
  forall (tree : RawNode) (k : nat)
         (selectable isSearchable : bool)
         (isMultiPick : Js.obool) (searchTerm : string)
         (selectedList : list string)
         (propsExpandedList : option (list string))
         (isAdditionalFilterApplied : Js.obool)
         (isLeafVisible : string -> bool)
         (stateExpandedList : option (list string)) (w : World),
    let built := createStatefulTree tree k in
    let chosen := chosenExpandedList propsExpandedList stateExpandedList in
    snd built <= nextRef w ->
    isActiveSearch isAdditionalFilterApplied isSearchable searchTerm = false ->
    (forall l, In l (leafNodes (fst built)) ->
       selectable
       && Js.has (effectiveSelection isMultiPick selectedList) (nodeId l)
       = false /\
       isLeafVisible (nodeId l) = true) ->
    (forall b, In b (branchNodes (fst built)) ->
       Js.has (orEmpty chosen) (nodeId b) = false) ->
    let result :=
      applyPropsToStatefulTree (fst built) (Some selectable) isSearchable
        isMultiPick searchTerm selectedList propsExpandedList
        isAdditionalFilterApplied isLeafVisible stateExpandedList w in
    statefulTree (fst result) = fst built /\
    nextRef (snd result) = nextRef w /\
    (chosen = None -> expandedList (fst result) = []).
Proof.
  intros tree k selectable isSearchable isMultiPick searchTerm selectedList
    propsExpandedList isAdditionalFilterApplied isLeafVisible
    stateExpandedList w built chosen Hnext Hidle Hleaves Hbranches result.
  subst built. destruct (createStatefulTree tree k) as [t k'] eqn:E.
  cbn [fst snd] in *.
  destruct (built_spec tree k E) as (_ & Hm & _ & Hinit & _).
  pose proof (mirrors_wellFormed Hm) as Hwf.
  rewrite Forall_forall in Hinit.
  assert (Hrefs : refsBelow (nextRef w) t).
  { apply Forall_forall. intros n Hn. destruct (Hinit n Hn) as (_ & _ & Hlt).
    lia. }
  assert (Hok : settled (Some selectable) isSearchable isMultiPick
                  searchTerm isAdditionalFilterApplied isLeafVisible
                  (isProvided chosen)
                  (Js.set_of (effectiveSelection isMultiPick selectedList))
                  (Js.set_of (orEmpty chosen)) t).
  { apply Forall_forall. intros n Hn. unfold settledNode, expectedState.
    destruct (Hinit n Hn) as (Hst & _). rewrite Hst at 1.
    unfold getInitialNodeState. fold (nodeIsLeaf n).
    destruct (nodeIsLeaf n) eqn:Eleaf.
    - destruct (Hleaves n) as [Hsel Hvis];
        [apply filter_In; split; assumption|].
      rewrite Hvis, Hst. unfold getInitialNodeState. fold (nodeIsLeaf n).
      rewrite Eleaf. cbn [isIndeterminate isExpanded].
      unfold leafSelected. rewrite has_set_of.
      destruct selectable; cbn in Hsel |- *; [now rewrite Hsel|reflexivity].
    - assert (Hkids : getStatefulChildren n <> []).
      { pose proof (Forall_subtrees_sub _ _ Hwf Hn) as Hwfn.
        apply wf_root in Hwfn. rewrite Eleaf in Hwfn.
        unfold isLeaf in Hwfn. intros Hnil. rewrite Hnil in Hwfn.
        discriminate Hwfn. }
      assert (Hflags : forall c, In c (getStatefulChildren n) ->
                selectedNode c = false /\ indeterminateNode c = false /\
                visibleNode c = true).
      { intros c Hc. apply initial_flags.
        apply (Hinit c), (subtrees_trans _ _ _ Hn), child_subtree, Hc. }
      unfold found, branchSelected, branchIndeterminate, branchExpanded.
      cbn [indeterminateChildFound selectedChildFound unselectedChildFound
           visibleChildFound].
      rewrite (existsb_ext_in selectedNode (fun _ => false)),
              (existsb_ext_in indeterminateNode (fun _ => false)),
              (existsb_ext_in visibleNode (fun _ => true)),
              (existsb_ext_in (fun c => negb (selectedNode c))
                 (fun _ => true));
        try (intros c Hc; destruct (Hflags c Hc) as (Hs & Hi & Hv);
             rewrite ?Hs, ?Hi, ?Hv; reflexivity).
      rewrite !existsb_none, !(existsb_all Hkids), Hidle.
      rewrite has_set_of, Hbranches;
        [|apply filter_In; split; [exact Hn|now rewrite Eleaf]].
      destruct (isProvided chosen); reflexivity. }
  destruct (@applyProps_settled t (Some selectable) isSearchable isMultiPick
              searchTerm selectedList propsExpandedList
              isAdditionalFilterApplied isLeafVisible stateExpandedList w
              Hok) as [Ht Hn].
  fold result in Ht, Hn.
  split; [exact Ht|]. split; [exact Hn|].
  intros Hnone.
  destruct (expandedList (fst result)) as [|x l] eqn:Elist; [reflexivity|].
  exfalso.
  assert (Hx : In x (expandedList (fst result)))
    by (rewrite Elist; now left).
  pose proof (@run_generated (Some selectable) isSearchable isMultiPick
                searchTerm isAdditionalFilterApplied isLeafVisible
                (isProvided chosen)
                (Js.set_of (effectiveSelection isMultiPick selectedList))
                (Js.set_of (orEmpty chosen)) t (mkMapState (nextRef w) []))
    as Hgen.
  unfold result, applyPropsToStatefulTree, applyPropsRun in Hx, Ht.
  fold chosen in Hx, Ht.
  fold (effectiveSelection isMultiPick selectedList) in Hx, Ht.
  destruct (reconcile _ _ _ _ _ _ _ _ _ t _) as [t' s'] eqn:Erun.
  cbn [fst statefulTree expandedList] in Hx, Ht. subst t'.
  rewrite Hnone in Hx, Hgen. cbn [isProvided] in Hx, Hgen.
  unfold Js.array_from in Hx.
  apply (Hgen t s' Hwf Hrefs eq_refl x) in Hx.
  destruct Hx as [[]|(_ & b & Hb & _ & _ & Hopen)].
  destruct (Hinit b Hb) as (Hst & _). rewrite Hst in Hopen.
  unfold getInitialNodeState in Hopen.
  destruct (isLeaf getNodeChildren (raw (label b))); discriminate Hopen.
Qed.

Lemma X10_witness :
  let built := createStatefulTree sampleTree 0 in
  let result :=
    applyPropsToStatefulTree (fst built) (Some true) true (Some true) ""
      ["elsewhere"] None None (fun _ => true) None
      (mkWorld (snd built) []) in
  statefulTree (fst result) = fst built /\
  nextRef (snd result) = snd built /\
  expandedList (fst result) = [].
Proof.
  intros built result.
  destruct (@X10_a_new_tree_is_reconciled_with_the_empty_inputs sampleTree 0
              true true (Some true) "" ["elsewhere"] None None
              (fun _ => true) None (mkWorld (snd built) []))
    as (Ht & Hn & Hl).
  - apply le_n.
  - reflexivity.
  - intros l Hl. split; [|reflexivity].
    cbn in Hl. repeat destruct Hl as [<-|Hl]; try reflexivity.
    destruct Hl.
  - intros b _. reflexivity.
  - split; [exact Ht|]. split; [exact Hn|]. apply Hl. reflexivity.
Defined.

(** ** Visibility under a filter list *)

(** X11.  With a filter list, search active or not, the visibility function
    accepts exactly the ids of the list that are ids of leaves of the tree
    with a node matching the search predicate on the way down to them, the
    leaf included: the predicate is consulted, on the terms parsed from the
    search term, also while no search is active. *)
Theorem X11_filter_list_keeps_the_listed_matching_leaves :
  forall (parse : string -> list string)
         (pred : RawNode -> list string -> bool)
         (tree : RawNode) (searchTerm : string)
         (filterApplied : Js.obool) (isSearchable : bool)
         (ids : list string) (id : string),
    createIsLeafVisible parse pred tree searchTerm filterApplied isSearchable
      (Some ids) id = true
    <-> In id ids /\
        exists p leaf,
          at_path p tree = Some leaf /\
          isLeaf getNodeChildren leaf = true /\
          getNodeId leaf = id /\
          existsb (fun n => pred n (parse searchTerm)) (nodes_along p tree)
          = true.
Proof.
  intros parse pred tree searchTerm filterApplied isSearchable ids id.
  rewrite visible_by_walk by apply andb_false_r.
  unfold shownAt. cbn [orb passesFilter orEmpty].
  split.
  - intros (p & l & Hp & Hleaf & Hid & Hmatch & Hpass).
    rewrite has_set_of in Hpass. apply has_In in Hpass.
    split; [exact Hpass|]. exists p, l. repeat split; assumption.
  - intros (Hin & p & l & Hp & Hleaf & Hid & Hmatch).
    exists p, l. repeat split; try assumption.
    rewrite has_set_of. apply has_In, Hin.
Qed.

(** ** The links and the check boxes, followed by a reconciliation *)

Lemma effective_multi isMultiPick selectedList :
  Js.truthy isMultiPick = true ->
  effectiveSelection isMultiPick selectedList = selectedList.
Proof.
  intros H. unfold effectiveSelection, trimSelected.
  destruct selectedList as [|x [|y l]]; try reflexivity.
  now rewrite H.
Qed.

Lemma In_keepFirst l x : In x (keepFirst l) <-> In x l.
Proof. rewrite <- set_of_keepFirst. apply In_set_of. Qed.

Lemma has_keepFirst l x : Js.has (keepFirst l) x = Js.has l x.
Proof. rewrite <- set_of_keepFirst. apply has_set_of. Qed.

Lemma NoDup_keepFirst l : NoDup (keepFirst l).
Proof.
  induction l as [|x l IH]; cbn [keepFirst]; constructor.
  - intros Hin. apply filter_In in Hin as [_ Hne].
    now rewrite String.eqb_refl in Hne.
  - apply NoDup_filter, IH.
Qed.

Lemma has_filter (f : string -> bool) l x :
  Js.has (filter f l) x = Js.has l x && f x.
Proof.
  unfold Js.has. induction l as [|y l IH]; [reflexivity|].
  cbn [filter existsb]. destruct (String.eqb_spec x y) as [->|Hxy].
  - destruct (f y) eqn:Ef; cbn [existsb orb andb].
    + now rewrite String.eqb_refl.
    + rewrite IH, !andb_false_r. reflexivity.
  - apply String.eqb_neq in Hxy.
    destruct (f y); cbn [existsb orb]; rewrite ?Hxy; exact IH.
Qed.

(** The leaves of the result of a reconciliation. *)
Lemma applyProps_leaves root isSelectable isSearchable isMultiPick
    searchTerm selectedList propsExpandedList isAdditionalFilterApplied
    isLeafVisible stateExpandedList w :
  mirrors root -> refsBelow (nextRef w) root ->
  let out :=
    statefulTree
      (fst (applyPropsToStatefulTree root isSelectable isSearchable
              isMultiPick searchTerm selectedList propsExpandedList
              isAdditionalFilterApplied isLeafVisible stateExpandedList
              w)) in
  map nodeId (leafNodes out) = map getNodeId (getLeaves (raw (label root))) /\
  forall l, In l (leafNodes out) ->
    selectedNode l
    = Js.truthy isSelectable
      && Js.has (effectiveSelection isMultiPick selectedList) (nodeId l) /\
    visibleNode l = isLeafVisible (nodeId l) /\
    Js.has (map getNodeId (getLeaves (raw (label root)))) (nodeId l) = true.
Proof.
  intros Hm Hrefs out.
  destruct (@applyProps_facts root isSelectable isSearchable isMultiPick
              searchTerm selectedList propsExpandedList
              isAdditionalFilterApplied isLeafVisible stateExpandedList w
              (mirrors_wellFormed Hm) Hrefs)
    as (Hok & _ & Hsk & _ & _ & _ & _ & _ & Hm').
  fold out in Hok, Hsk, Hm'. specialize (Hm' Hm).
  assert (Hids : map nodeId (leafNodes out)
                 = map getNodeId (getLeaves (raw (label root)))).
  { rewrite (leafNodes_ids Hm'). now rewrite (skeleton_root _ _ Hsk). }
  split; [exact Hids|].
  intros l Hl. pose proof Hl as Hl'. apply filter_In in Hl' as [Hsub Hleaf].
  destruct (@settled_leaf _ _ _ _ _ _ _ _ _ _ _ Hok Hsub Hleaf)
    as [Hsel Hvis].
  unfold selectedNode, visibleNode. rewrite Hsel, Hvis.
  unfold leafSelected. rewrite truthy_and, has_set_of.
  repeat split. rewrite <- Hids. apply has_In, in_map, Hl.
Qed.

(** X12.  The links on the visible leaves, followed by a reconciliation
    with the same visibility function (selection enabled, multi-pick on):
    after "add these" a leaf is selected when it was in the selected list
    or is visible, and the list handed to the caller has no repetition;
    after "select only these" exactly the visible leaves are selected;
    after "clear these" a leaf is selected when it was in the selected list
    and is not visible. *)
Theorem X12_links_on_the_visible_leaves :
  forall (root : StatefulNode)
         (isSelectable : Js.obool) (isSearchable : bool)
         (isMultiPick : Js.obool) (searchTerm : string)
         (selectedList : list string)
         (propsExpandedList : option (list string))
         (isAdditionalFilterApplied : Js.obool)
         (stateExpandedList : option (list string)) (w : World)
         (current : TreeState),
    mirrors root -> refsBelow (nextRef w) root ->
    Js.truthy isSelectable = true -> Js.truthy isMultiPick = true ->
    let tree := raw (label root) in
    let visible := isLeafVisible current in
    let after ids :=
      statefulTree
        (fst (applyPropsToStatefulTree root isSelectable isSearchable
                isMultiPick searchTerm ids propsExpandedList
                isAdditionalFilterApplied visible stateExpandedList w)) in
    (exists ids,
       addVisible tree selectedList current = Some ids /\ NoDup ids /\
       Forall (fun l => selectedNode l
                        = Js.has selectedList (nodeId l) || visible (nodeId l))
              (leafNodes (after ids))) /\
    (exists ids,
       selectOnlyVisible tree current = Some ids /\
       Forall (fun l => selectedNode l = visible (nodeId l))
              (leafNodes (after ids))) /\
    (exists ids,
       removeVisible selectedList current = Some ids /\
       Forall (fun l => selectedNode l
                        = Js.has selectedList (nodeId l)
                          && negb (visible (nodeId l)))
              (leafNodes (after ids))).
Proof.
  intros root isSelectable isSearchable isMultiPick searchTerm selectedList
    propsExpandedList isAdditionalFilterApplied stateExpandedList w current
    Hm Hrefs Hsel Hmulti tree visible after.
  assert (Hleaf : forall ids l, In l (leafNodes (after ids)) ->
            selectedNode l = Js.has ids (nodeId l) /\
            Js.has (map getNodeId (getLeaves tree)) (nodeId l) = true).
  { intros ids l Hl.
    destruct (@applyProps_leaves root isSelectable isSearchable isMultiPick
                searchTerm ids propsExpandedList isAdditionalFilterApplied
                visible stateExpandedList w Hm Hrefs) as [_ H].
    destruct (H l Hl) as (Hs & _ & Hin).
    rewrite Hsel, (@effective_multi isMultiPick ids Hmulti) in Hs.
    split; assumption. }
  split; [|split]; eexists; (split; [reflexivity|]).
  - split; [apply NoDup_keepFirst|].
    apply Forall_forall. intros l Hl. destruct (Hleaf _ l Hl) as [Hs Hin].
    rewrite Hs. unfold Seq.toArray, Seq.uniq, Seq.concat, Seq.from.
    rewrite has_keepFirst, has_app, has_filter. fold tree visible.
    now rewrite Hin.
  - apply Forall_forall. intros l Hl. destruct (Hleaf _ l Hl) as [Hs Hin].
    rewrite Hs, has_filter. fold tree visible. now rewrite Hin.
  - apply Forall_forall. intros l Hl. destruct (Hleaf _ l Hl) as [Hs Hin].
    rewrite Hs. apply has_filter.
Qed.

Lemma X12_witness :
  let current := mkTreeState (fun id => String.eqb id "leaf2")
                   (mkReconciled [] sampleStateful) in
  let after ids :=
    statefulTree
      (fst (applyPropsToStatefulTree sampleStateful (Some true) true
              (Some true) "2" ids None None (isLeafVisible current) None
              sampleWorld)) in
  mirrors sampleStateful /\
  refsBelow (nextRef sampleWorld) sampleStateful /\
  addVisible (raw (label sampleStateful)) ["leaf3"; "leaf3"] current
  = Some ["leaf3"; "leaf2"] /\
  map selectedNode (leafNodes (after ["leaf3"; "leaf2"]))
  = [false; true; true].
Proof.
  intros current after.
  destruct (@X12_links_on_the_visible_leaves sampleStateful (Some true) true
              (Some true) "2" ["leaf3"; "leaf3"] None None None sampleWorld
              current sample_mirrors sample_refsBelow eq_refl eq_refl)
    as ((ids & Hids & _ & Hadd) & _).
  injection Hids as <-.
  split; [exact sample_mirrors|]. split; [exact sample_refsBelow|].
  split; [reflexivity|].
  rewrite Forall_forall in Hadd.
  change (leafNodes (after ["leaf3"; "leaf2"]))
    with [nth 0 (leafNodes (after ["leaf3"; "leaf2"])) sampleStateful;
          nth 1 (leafNodes (after ["leaf3"; "leaf2"])) sampleStateful;
          nth 2 (leafNodes (after ["leaf3"; "leaf2"])) sampleStateful].
  cbn [map]. rewrite !Hadd by (cbn; tauto). reflexivity.
Defined.

(** X13.  "Select all" and "clear all", followed by a reconciliation, on a
    tree whose leaves carry no indeterminate flag: after "select all"
    (selection enabled, multi-pick on) every node of the tree is selected
    and none is indeterminate; after "clear all" no node is selected and
    none is indeterminate, whatever the other inputs. *)
Theorem X13_select_all_and_clear_all :
  forall (root : StatefulNode)
         (isSelectable : Js.obool) (isSearchable : bool)
         (isMultiPick : Js.obool) (searchTerm : string)
         (propsExpandedList : option (list string))
         (isAdditionalFilterApplied : Js.obool)
         (isLeafVisible : string -> bool)
         (stateExpandedList : option (list string)) (w : World),
    mirrors root -> refsBelow (nextRef w) root -> leavesBare root ->
    let after ids :=
      statefulTree
        (fst (applyPropsToStatefulTree root isSelectable isSearchable
                isMultiPick searchTerm ids propsExpandedList
                isAdditionalFilterApplied isLeafVisible stateExpandedList
                w)) in
    (Js.truthy isSelectable = true -> Js.truthy isMultiPick = true ->
     exists ids,
       selectAll (raw (label root)) = Some ids /\
       Forall (fun n => selectedNode n = true /\ indeterminateNode n = false)
              (subtrees (after ids))) /\
    (exists ids,
       selectNone = Some ids /\
       Forall (fun n => selectedNode n = false /\ indeterminateNode n = false)
              (subtrees (after ids))).
Proof.
  intros root isSelectable isSearchable isMultiPick searchTerm
    propsExpandedList isAdditionalFilterApplied isLeafVisible
    stateExpandedList w Hm Hrefs Hbare after.
  pose proof (mirrors_wellFormed Hm) as Hwf.
  pose proof (fun ids =>
    @applyProps_leafwise root isSelectable isSearchable isMultiPick
      searchTerm ids propsExpandedList isAdditionalFilterApplied
      isLeafVisible stateExpandedList w Hwf Hrefs Hbare) as Hwise.
  cbv zeta in Hwise.
  split.
  - intros Hsel Hmulti. eexists. split; [reflexivity|].
    apply Forall_forall. intros n Hn.
    destruct (Hwise _ n Hn) as (_ & Hs & Hi & _).
    assert (Hall : forallb
              (fun id => Js.truthy isSelectable
                 && Js.has (effectiveSelection isMultiPick
                              (map getNodeId (getLeaves (raw (label root)))))
                      id)
              (map nodeId (leafNodes n)) = true).
    { apply forallb_forall. intros x Hx.
      apply in_map_iff in Hx as (l & <- & Hl).
      destruct (@applyProps_leaves root isSelectable isSearchable
                  isMultiPick searchTerm
                  (map getNodeId (getLeaves (raw (label root))))
                  propsExpandedList isAdditionalFilterApplied isLeafVisible
                  stateExpandedList w Hm Hrefs) as [_ H].
      destruct (H l (leafNodes_sub _ _ _ Hn Hl)) as (_ & _ & Hin).
      rewrite Hsel, (@effective_multi isMultiPick _ Hmulti). exact Hin. }
    rewrite Hs, Hi, Hall. split; [reflexivity|apply andb_false_r].
  - eexists. split; [reflexivity|].
    apply Forall_forall. intros n Hn.
    destruct (Hwise _ n Hn) as (Hwfn & Hs & Hi & _).
    assert (Heff : effectiveSelection isMultiPick [] = []) by reflexivity.
    rewrite Heff in Hs, Hi. cbn [Js.has existsb] in Hs, Hi.
    rewrite (existsb_ext_in _ (fun _ => false)) in Hi
      by (intros; apply andb_false_r).
    rewrite (forallb_ext_in _ (fun _ => false)) in Hs, Hi
      by (intros; apply andb_false_r).
    rewrite Hs, Hi, existsb_none. split; [|reflexivity].
    apply forallb_none. intros Hnil. apply map_eq_nil in Hnil.
    exact (leafNodes_nonempty Hwfn Hnil).
Qed.

Lemma X13_witness :
  let after ids :=
    statefulTree
      (fst (applyPropsToStatefulTree sampleStateful (Some true) false
              (Some true) "" ids None None (fun _ => true) None
              sampleWorld)) in
  mirrors sampleStateful /\
  refsBelow (nextRef sampleWorld) sampleStateful /\
  leavesBare sampleStateful /\
  selectAll (raw (label sampleStateful)) = Some ["leaf1"; "leaf2"; "leaf3"] /\
  selectedNode (after ["leaf1"; "leaf2"; "leaf3"]) = true /\
  selectedNode (after []) = false.
Proof.
  intros after.
  destruct (@X13_select_all_and_clear_all sampleStateful (Some true) false
              (Some true) "" None None (fun _ => true) None sampleWorld
              sample_mirrors sample_refsBelow sample_bare) as [Hall Hnone].
  destruct (Hall eq_refl eq_refl) as (ids & Hids & Hsel).
  destruct Hnone as (none & Hnone & Hclear).
  injection Hids as <-. injection Hnone as <-.
  rewrite Forall_forall in Hsel, Hclear.
  split; [exact sample_mirrors|]. split; [exact sample_refsBelow|].
  split; [exact sample_bare|]. split; [reflexivity|]. split.
  - apply (Hsel (after ["leaf1"; "leaf2"; "leaf3"])), subtrees_self.
  - apply (Hclear (after [])), subtrees_self.
Defined.

Lemma branchNodes_leaf n :
  wellFormed n -> nodeIsLeaf n = true -> branchNodes n = [].
Proof.
  intros Hwf Hleaf. unfold branchNodes.
  rewrite subtrees_descendants, (wf_leaf_descendants Hwf Hleaf).
  cbn. now rewrite Hleaf.
Qed.

Lemma branchNodes_branch a cs :
  nodeIsLeaf (Tr a cs) = false ->
  branchNodes (Tr a cs) = Tr a cs :: flat_map branchNodes cs.
Proof.
  intros Hbranch. unfold branchNodes at 1. cbn [subtrees filter].
  rewrite Hbranch. cbn [negb]. f_equal. apply filter_flat_map.
Qed.

(** Over a mirrored tree the stateful branches are the caller's branches. *)
Lemma branchNodes_ids t :
  mirrors t ->
  map nodeId (branchNodes t) = map getNodeId (getBranches (raw (label t))).
Proof.
  induction t as [a cs IH] using Tree_ind'. intros Hm.
  pose proof (mirrors_root Hm) as Hroot.
  unfold idTree in Hroot. cbn [tmap label] in Hroot. cbn [label].
  destruct cs as [|c0 cs0].
  - rewrite (branchNodes_leaf (mirrors_wellFormed Hm)).
    + rewrite <- Hroot. reflexivity.
    + unfold nodeIsLeaf. cbn [label]. rewrite <- Hroot. reflexivity.
  - assert (Hbranch : nodeIsLeaf (Tr a (c0 :: cs0)) = false)
      by (unfold nodeIsLeaf; cbn [label]; rewrite <- Hroot; reflexivity).
    rewrite (branchNodes_branch _ _ Hbranch). cbn [map].
    rewrite map_flat_map, <- Hroot.
    change (getBranches (Tr (getNodeId (raw a))
                           (map (tmap (fun a0 => getNodeId (raw a0)))
                                (c0 :: cs0))))
      with (Tr (getNodeId (raw a))
              (map (tmap (fun a0 => getNodeId (raw a0))) (c0 :: cs0))
            :: flat_map getBranches
                 (map (tmap (fun a0 => getNodeId (raw a0))) (c0 :: cs0))).
    cbn [map]. f_equal.
    change (tmap (fun a0 : Annot => getNodeId (raw a0)) c0
            :: map (tmap (fun a0 : Annot => getNodeId (raw a0))) cs0)
      with (map (tmap (fun a0 : Annot => getNodeId (raw a0))) (c0 :: cs0)).
    rewrite flat_map_map, (map_flat_map getNodeId).
    apply flat_map_ext_in'. intros c Hc.
    rewrite Forall_forall in IH.
    pose proof (@mirrors_child a (c0 :: cs0) c Hm Hc) as Hmc.
    rewrite (IH c Hc Hmc). now rewrite <- (mirrors_root Hmc).
Qed.

(** X14.  "Expand all" and "collapse all", followed by a reconciliation
    with the list they hand to the caller: after "expand all" every branch
    of the tree is expanded; after "collapse all" a branch is expanded
    exactly when a search is active and the branch is visible, so that
    without a search every branch is collapsed. *)
Theorem X14_expand_all_and_collapse_all :
  forall (root : StatefulNode)
         (isSelectable : Js.obool) (isSearchable : bool)
         (isMultiPick : Js.obool) (searchTerm : string)
         (selectedList : list string)
         (isAdditionalFilterApplied : Js.obool)
         (isLeafVisible : string -> bool)
         (stateExpandedList : option (list string)) (w : World),
    mirrors root -> refsBelow (nextRef w) root ->
    let after ids :=
      statefulTree
        (fst (applyPropsToStatefulTree root isSelectable isSearchable
                isMultiPick searchTerm selectedList (Some ids)
                isAdditionalFilterApplied isLeafVisible stateExpandedList
                w)) in
    (exists ids,
       expandAll (raw (label root)) = Some ids /\
       Forall (fun b => isExpanded (getNodeState b) = Some true)
              (branchNodes (after ids))) /\
    (exists ids,
       expandNone = Some ids /\
       Forall (fun b => isExpanded (getNodeState b)
                        = Some (isActiveSearch isAdditionalFilterApplied
                                  isSearchable searchTerm
                                && isVisible (getNodeState b)))
              (branchNodes (after ids))).
Proof.
  intros root isSelectable isSearchable isMultiPick searchTerm selectedList
    isAdditionalFilterApplied isLeafVisible stateExpandedList w Hm Hrefs
    after.
  pose proof (mirrors_wellFormed Hm) as Hwf.
  pose proof (fun ids =>
    @expansion_flag root isSelectable isSearchable isMultiPick searchTerm
      selectedList (Some ids) isAdditionalFilterApplied isLeafVisible
      stateExpandedList w Hwf Hrefs) as Hflag.
  cbn [chosenExpandedList] in Hflag.
  split; eexists; (split; [reflexivity|]);
    apply Forall_forall; intros b Hb;
    pose proof Hb as Hb'; apply filter_In in Hb' as [Hsub Hbranch];
    apply negb_true_iff in Hbranch;
    rewrite (Hflag _ b Hsub Hbranch).
  - destruct (@applyProps_facts root isSelectable isSearchable isMultiPick
                searchTerm selectedList
                (Some (map getNodeId (getBranches (raw (label root)))))
                isAdditionalFilterApplied isLeafVisible stateExpandedList w
                Hwf Hrefs) as (_ & _ & Hsk & _ & _ & _ & _ & _ & Hm').
    specialize (Hm' Hm).
    assert (Hin : Js.has (map getNodeId (getBranches (raw (label root))))
                    (nodeId b) = true).
    { rewrite <- (skeleton_root _ _ Hsk), <- (branchNodes_ids Hm').
      apply has_In, in_map, Hb. }
    rewrite Hin. now rewrite orb_true_r.
  - cbn [Js.has existsb]. now rewrite orb_false_r.
Qed.

Lemma X14_witness :
  let after ids :=
    statefulTree
      (fst (applyPropsToStatefulTree sampleStateful (Some true) false
              (Some true) "" [] (Some ids) None (fun _ => true) None
              sampleWorld)) in
  mirrors sampleStateful /\
  refsBelow (nextRef sampleWorld) sampleStateful /\
  expandAll (raw (label sampleStateful)) = Some ["root"; "A"; "B"] /\
  map (fun b => isExpanded (getNodeState b))
      (branchNodes (after ["root"; "A"; "B"]))
  = [Some true; Some true; Some true].
Proof.
  intros after.
  destruct (@X14_expand_all_and_collapse_all sampleStateful (Some true)
              false (Some true) "" [] None (fun _ => true) None sampleWorld
              sample_mirrors sample_refsBelow)
    as ((ids & Hids & Hall) & _).
  injection Hids as <-.
  split; [exact sample_mirrors|]. split; [exact sample_refsBelow|].
  split; [reflexivity|].
  rewrite Forall_forall in Hall.
  change (branchNodes (after ["root"; "A"; "B"]))
    with [nth 0 (branchNodes (after ["root"; "A"; "B"])) sampleStateful;
          nth 1 (branchNodes (after ["root"; "A"; "B"])) sampleStateful;
          nth 2 (branchNodes (after ["root"; "A"; "B"])) sampleStateful].
  cbn [map]. rewrite !Hall by (cbn; tauto). reflexivity.
Defined.

(** ** Check boxes *)

Lemma has_removeFirst id l x :
  NoDup l ->
  Js.has (removeFirst id l) x = Js.has l x && negb (String.eqb x id).
Proof.
  unfold Js.has. induction l as [|y l IH]; intros Hnd; [reflexivity|].
  inversion Hnd as [|? ? Hy Hnd']; subst. cbn [removeFirst existsb].
  destruct (String.eqb_spec y id) as [Heq|Hne].
  - subst y. destruct (String.eqb x id) eqn:Hx; cbn [orb negb].
    + apply String.eqb_eq in Hx. subst x.
      rewrite andb_false_r. apply not_true_is_false. intros H.
      apply (proj1 (has_In l id)) in H. exact (Hy H).
    + now rewrite andb_true_r.
  - cbn [existsb]. rewrite (IH Hnd').
    destruct (String.eqb x y) eqn:Hxy; cbn [orb]; [|reflexivity].
    apply String.eqb_eq in Hxy. subst x.
    apply String.eqb_neq in Hne. now rewrite Hne.
Qed.

Lemma In_removeFirst id l x : In x (removeFirst id l) -> In x l.
Proof.
  induction l as [|y l IH]; cbn [removeFirst]; [tauto|].
  destruct (String.eqb y id); cbn [In]; tauto.
Qed.

Lemma NoDup_removeFirst id l : NoDup l -> NoDup (removeFirst id l).
Proof.
  induction l as [|y l IH]; intros Hnd; [constructor|].
  inversion Hnd as [|? ? Hy Hnd']; subst. cbn [removeFirst].
  destruct (String.eqb y id); [exact Hnd'|].
  constructor; [|apply IH, Hnd'].
  intros Hin. apply Hy. eapply In_removeFirst, Hin.
Qed.

(** Checking a branch adds the ids of its leaves that are missing. *)
Lemma check_leaves leaves : forall selectedList x,
  Js.has (fold_left (toggleLeafId true) leaves selectedList) x
  = Js.has selectedList x || Js.has (map getNodeId leaves) x.
Proof.
  induction leaves as [|leaf leaves IH]; intros selectedList x;
    cbn [fold_left map].
  - cbn. now rewrite orb_false_r.
  - rewrite IH. unfold toggleLeafId. cbn [andb negb].
    change (Js.has (getNodeId leaf :: map getNodeId leaves) x)
      with (String.eqb x (getNodeId leaf)
            || Js.has (map getNodeId leaves) x).
    destruct (Js.has selectedList (getNodeId leaf)) eqn:E; cbn [negb].
    + destruct (String.eqb_spec x (getNodeId leaf)) as [->|_];
        [now rewrite E|reflexivity].
    + rewrite has_app. cbn [Js.has existsb]. rewrite orb_false_r.
      now rewrite orb_assoc.
Qed.

(** Clearing a branch removes the ids of its leaves, when the selected
    list has no repetition. *)
Lemma clear_leaves leaves : forall selectedList,
  NoDup selectedList ->
  NoDup (fold_left (toggleLeafId false) leaves selectedList) /\
  forall x,
    Js.has (fold_left (toggleLeafId false) leaves selectedList) x
    = Js.has selectedList x && negb (Js.has (map getNodeId leaves) x).
Proof.
  induction leaves as [|leaf leaves IH]; intros selectedList Hnd;
    cbn [fold_left map].
  - split; [exact Hnd|]. intros x. cbn. now rewrite andb_true_r.
  - assert (Hstep : NoDup (toggleLeafId false selectedList leaf) /\
              forall x, Js.has (toggleLeafId false selectedList leaf) x
                        = Js.has selectedList x
                          && negb (String.eqb x (getNodeId leaf))).
    { unfold toggleLeafId. cbn [andb negb].
      destruct (Js.has selectedList (getNodeId leaf)) eqn:E.
      - split; [apply NoDup_removeFirst, Hnd|].
        intros x. apply has_removeFirst, Hnd.
      - split; [exact Hnd|]. intros x.
        destruct (String.eqb_spec x (getNodeId leaf)) as [->|_];
          [now rewrite E|now rewrite andb_true_r]. }
    destruct Hstep as [Hnd' Hhas].
    destruct (IH _ Hnd') as [Hnd'' Hall]. split; [exact Hnd''|].
    intros x. rewrite Hall, Hhas.
    change (Js.has (getNodeId leaf :: map getNodeId leaves) x)
      with (String.eqb x (getNodeId leaf)
            || Js.has (map getNodeId leaves) x).
    rewrite negb_orb. now rewrite andb_assoc.
Qed.

(** X15.  A click on a check box, followed by a reconciliation (selection
    enabled).  Under multi-pick, a click on a branch sets every leaf below
    it to the value of the click and leaves the other leaves as they were
    (clearing takes a selected list without repetition, since one occurrence
    of each id is removed), and a click on a leaf flips that leaf alone,
    whatever the value of the click; when multi-pick is off, a click on a
    leaf leaves that leaf alone selected. *)
Theorem X15_a_click_on_a_check_box :
  forall (root : StatefulNode)
         (isSelectable : Js.obool) (isSearchable : bool)
         (isMultiPick : Js.obool) (searchTerm : string)
         (selectedList : list string)
         (propsExpandedList : option (list string))
         (isAdditionalFilterApplied : Js.obool)
         (isLeafVisible : string -> bool)
         (stateExpandedList : option (list string)) (w : World)
         (n : StatefulNode) (selected : bool),
    mirrors root -> refsBelow (nextRef w) root ->
    Js.truthy isSelectable = true ->
    In n (subtrees root) ->
    let after ids :=
      statefulTree
        (fst (applyPropsToStatefulTree root isSelectable isSearchable
                isMultiPick searchTerm ids propsExpandedList
                isAdditionalFilterApplied isLeafVisible stateExpandedList
                w)) in
    let click :=
      toggleSelection selectedList isSelectable isMultiPick (raw (label n))
        selected in
    let below id := Js.has (map nodeId (leafNodes n)) id in
    (nodeIsLeaf n = false -> Js.truthy isMultiPick = true ->
     (selected = false -> NoDup selectedList) ->
     exists ids,
       click = Some ids /\
       Forall (fun l => selectedNode l
                        = if below (nodeId l) then selected
                          else Js.has selectedList (nodeId l))
              (leafNodes (after ids))) /\
    (nodeIsLeaf n = true -> Js.truthy isMultiPick = true ->
     exists ids,
       click = Some ids /\
       Forall (fun l => selectedNode l
                        = if String.eqb (nodeId l) (nodeId n)
                          then negb (Js.has selectedList (nodeId n))
                          else Js.has selectedList (nodeId l))
              (leafNodes (after ids))) /\
    (nodeIsLeaf n = true -> Js.truthy isMultiPick = false ->
     click = Some [nodeId n] /\
     Forall (fun l => selectedNode l = String.eqb (nodeId l) (nodeId n))
            (leafNodes (after [nodeId n]))).
Proof.
  intros root isSelectable isSearchable isMultiPick searchTerm selectedList
    propsExpandedList isAdditionalFilterApplied isLeafVisible
    stateExpandedList w n selected Hm Hrefs Hsel Hn after click below.
  assert (Hleaf : forall ids l, In l (leafNodes (after ids)) ->
            selectedNode l
            = Js.has (effectiveSelection isMultiPick ids) (nodeId l)).
  { intros ids l Hl.
    destruct (@applyProps_leaves root isSelectable isSearchable isMultiPick
                searchTerm ids propsExpandedList isAdditionalFilterApplied
                isLeafVisible stateExpandedList w Hm Hrefs) as [_ H].
    destruct (H l Hl) as (Hs & _). now rewrite Hsel in Hs. }
  assert (Hbelow : map getNodeId (getLeaves (raw (label n)))
                   = map nodeId (leafNodes n)).
  { symmetry. apply leafNodes_ids. eapply Forall_subtrees_sub; eassumption. }
  unfold click, toggleSelection. rewrite Hsel. cbn [negb].
  fold (nodeIsLeaf n).
  split; [|split].
  - intros Hbranch Hmulti Hnd. rewrite Hbranch.
    eexists. split; [reflexivity|].
    apply Forall_forall. intros l Hl.
    rewrite (Hleaf _ l Hl), (@effective_multi isMultiPick _ Hmulti).
    unfold below. rewrite <- Hbelow. destruct selected.
    + rewrite check_leaves.
      destruct (Js.has (map getNodeId (getLeaves (raw (label n))))
                  (nodeId l)); [apply orb_true_r|apply orb_false_r].
    + destruct (@clear_leaves (getLeaves (raw (label n))) selectedList
                  (Hnd eq_refl)) as [_ Hhas].
      rewrite Hhas.
      destruct (Js.has (map getNodeId (getLeaves (raw (label n))))
                  (nodeId l)); [apply andb_false_r|apply andb_true_r].
  - intros Hisleaf Hmulti. rewrite Hisleaf, Hmulti.
    eexists. split; [reflexivity|].
    apply Forall_forall. intros l Hl.
    rewrite (Hleaf _ l Hl), (@effective_multi isMultiPick _ Hmulti).
    fold (nodeId n).
    destruct (addOrRemove_toggles selectedList (nodeId n)) as [Hflip Hkeep].
    destruct (String.eqb_spec (nodeId l) (nodeId n)) as [->|Hne];
      [exact Hflip|apply Hkeep, Hne].
  - intros Hisleaf Hsingle. rewrite Hisleaf, Hsingle.
    fold (nodeId n). split; [reflexivity|].
    apply Forall_forall. intros l Hl. rewrite (Hleaf _ l Hl).
    cbn. apply orb_false_r.
Qed.

Lemma X15_witness :
  let after ids :=
    statefulTree
      (fst (applyPropsToStatefulTree sampleStateful (Some true) false
              (Some true) "" ids None None (fun _ => true) None
              sampleWorld)) in
  let branchA := nth 0 (children sampleStateful) sampleStateful in
  mirrors sampleStateful /\
  refsBelow (nextRef sampleWorld) sampleStateful /\
  In branchA (subtrees sampleStateful) /\
  NoDup ["leaf2"; "leaf3"] /\
  toggleSelection ["leaf2"; "leaf3"] (Some true) (Some true)
    (raw (label branchA)) false = Some ["leaf3"] /\
  map selectedNode (leafNodes (after ["leaf3"])) = [false; false; true].
Proof.
  intros after branchA.
  assert (Hin : In branchA (subtrees sampleStateful)) by (cbn; tauto).
  assert (Hnd : NoDup ["leaf2"; "leaf3"]).
  { constructor; [|constructor; [|constructor]]; cbn; [|tauto].
    intros [H|[]]. discriminate H. }
  destruct (@X15_a_click_on_a_check_box sampleStateful (Some true) false
              (Some true) "" ["leaf2"; "leaf3"] None None (fun _ => true)
              None sampleWorld branchA false sample_mirrors sample_refsBelow
              eq_refl Hin) as (Hbranch & _).
  destruct (Hbranch eq_refl eq_refl (fun _ => Hnd)) as (ids & Hids & Hall).
  injection Hids as <-.
  split; [exact sample_mirrors|]. split; [exact sample_refsBelow|].
  split; [exact Hin|]. split; [exact Hnd|]. split; [reflexivity|].
  rewrite Forall_forall in Hall.
  change (leafNodes (after ["leaf3"]))
    with [nth 0 (leafNodes (after ["leaf3"])) sampleStateful;
          nth 1 (leafNodes (after ["leaf3"])) sampleStateful;
          nth 2 (leafNodes (after ["leaf3"])) sampleStateful].
  cbn [map]. rewrite !Hall by (cbn; tauto). reflexivity.
Defined.

(** ** Expansion toggles *)

Lemma findDescendantsWithOneChild_spec node descendant x :
  In x (findDescendantsWithOneChild node descendant) <->
  exists d, In d (subtrees descendant) /\ getNodeId d = x /\
            (getNodeId d = getNodeId node \/
             List.length (getNodeChildren d) = 1).
Proof.
  induction descendant as [a cs IH] using Tree_ind'.
  assert (Hhere : forall d : RawNode,
            String.eqb (getNodeId node) (getNodeId d)
            || Nat.eqb (List.length (getNodeChildren d)) 1 = true
            <-> getNodeId d = getNodeId node \/
                List.length (getNodeChildren d) = 1).
  { intros d. rewrite orb_true_iff, String.eqb_eq, Nat.eqb_eq.
    split; (intros [H|H]; [left; symmetry; exact H|right; exact H]). }
  change (findDescendantsWithOneChild node (Tr a cs))
    with ((if String.eqb (getNodeId node) (getNodeId (Tr a cs))
              || Nat.eqb (List.length (getNodeChildren (Tr a cs))) 1
           then [getNodeId (Tr a cs)] else [])
          ++ flat_map (findDescendantsWithOneChild node) cs).
  rewrite in_app_iff, in_flat_map. rewrite Forall_forall in IH.
  split.
  - intros [H|(c & Hc & H)].
    + destruct (String.eqb (getNodeId node) (getNodeId (Tr a cs))
                || Nat.eqb (List.length (getNodeChildren (Tr a cs))) 1)
        eqn:E; [|destruct H].
      destruct H as [<-|[]]. exists (Tr a cs).
      split; [apply subtrees_self|]. split; [reflexivity|].
      apply Hhere, E.
    + apply (IH c Hc) in H as (d & Hd & Hid & Hone).
      exists d. split; [eapply subtrees_child; eassumption|].
      split; assumption.
  - intros (d & Hd & Hid & Hone).
    apply subtrees_inv in Hd as [->|(c & Hc & Hd)].
    + left. apply Hhere in Hone. rewrite Hone. left. exact Hid.
    + right. exists c. split; [exact Hc|]. apply (IH c Hc).
      exists d. split; [exact Hd|]. split; assumption.
Qed.

(** X16.  A click on the expansion toggle of a node.  During an active
    search, or on a leaf, the caller is not called.  Otherwise, when
    descendants with one child are to be expanded too and the node is not in
    the expanded list, the list handed to the caller has no repetition and
    holds what was expanded, the node, and every node at any depth below it
    that has exactly one child (or the id of the node); a second click,
    on the list so obtained, takes out the node alone. *)
Theorem X16_a_click_on_an_expansion_toggle :
  forall (isSearchable : bool) (searchTerm : string)
         (isAdditionalFilterApplied shouldExpandDescendantsWithOneChild
            : Js.obool)
         (current : TreeState) (node : RawNode),
    let click state :=
      toggleExpansion isSearchable searchTerm isAdditionalFilterApplied
        shouldExpandDescendantsWithOneChild state node in
    let expanded := expandedList (generated current) in
    (isActiveSearch isAdditionalFilterApplied isSearchable searchTerm = true
     \/ isLeaf getNodeChildren node = true ->
     click current = None) /\
    (isActiveSearch isAdditionalFilterApplied isSearchable searchTerm = false
     -> isLeaf getNodeChildren node = false ->
     Js.truthy shouldExpandDescendantsWithOneChild = true ->
     Js.has expanded (getNodeId node) = false ->
     exists ids,
       click current = Some ids /\ NoDup ids /\
       (forall x,
          In x ids <->
          In x expanded \/
          exists d, In d (subtrees node) /\ getNodeId d = x /\
                    (getNodeId d = getNodeId node \/
                     List.length (getNodeChildren d) = 1)) /\
       forall next,
         expandedList (generated next) = ids ->
         click next
         = Some (filter (fun id => negb (String.eqb id (getNodeId node)))
                   ids)).
Proof.
  intros isSearchable searchTerm isAdditionalFilterApplied
    shouldExpandDescendantsWithOneChild current node click expanded.
  unfold click, toggleExpansion. split.
  - intros [->| ->]; [reflexivity|].
    cbn [negb]. now rewrite andb_false_r.
  - intros -> -> Hone Hout. cbn [negb andb].
    fold expanded. rewrite Hone, Hout. cbn [negb orb].
    eexists. split; [reflexivity|].
    unfold Seq.toArray, Seq.uniq, Seq.concat, Seq.from.
    split; [apply NoDup_keepFirst|]. split.
    + intros x. rewrite In_keepFirst, in_app_iff.
      now rewrite findDescendantsWithOneChild_spec.
    + intros next ->.
      assert (Hin : Js.has
                (keepFirst (expanded ++ findDescendantsWithOneChild node node))
                (getNodeId node) = true).
      { apply has_In, In_keepFirst, in_app_iff. right.
        apply findDescendantsWithOneChild_spec. exists node.
        split; [apply subtrees_self|]. split; [reflexivity|now left]. }
      rewrite Hin, ?orb_true_r. unfold addOrRemove. now rewrite Hin.
Qed.

Lemma X16_witness :
  let current := mkTreeState (fun _ => true)
                   (mkReconciled ["A"] sampleStateful) in
  let click state := toggleExpansion false "" None (Some true) state
                       sampleTree in
  isActiveSearch None false "" = false /\
  isLeaf getNodeChildren sampleTree = false /\
  click current = Some ["A"; "root"; "B"] /\
  click (mkTreeState (fun _ => true)
           (mkReconciled ["A"; "root"; "B"] sampleStateful))
  = Some ["A"; "B"].
Proof.
  intros current click.
  destruct (@X16_a_click_on_an_expansion_toggle false "" None (Some true)
              current sampleTree) as [_ H].
  destruct (H eq_refl eq_refl eq_refl eq_refl) as (ids & Hids & _ & _ & Hnext).
  split; [reflexivity|]. split; [reflexivity|]. split; [reflexivity|].
  injection Hids as <-.
  exact (Hnext (mkTreeState (fun _ => true)
                  (mkReconciled ["A"; "root"; "B"] sampleStateful))
               eq_refl).
Defined.

(** ** The "no results" message *)

Lemma getLeaves_nonempty (t : RawNode) : getLeaves t <> [].
Proof.
  induction t as [a cs IH] using Tree_ind'.
  destruct cs as [|c cs]; [discriminate|].
  change (getLeaves (Tr a (c :: cs)))
    with (getLeaves c ++ flat_map getLeaves cs).
  inversion IH as [|? ? Hc _]; subst.
  intros H. apply app_eq_nil in H as [H _]. exact (Hc H).
Qed.

(** X17.  The tree state computed for a render shows the tree exactly when
    the visibility function of that render accepts the id of some leaf of
    the caller's tree; so the "no results" message never appears while
    there is neither an active search nor a filter list, and always appears
    under an empty filter list. *)
Theorem X17_tree_is_visible_iff_some_leaf_is :
  forall (parse : string -> list string)
         (built : StatefulNode) (p : Props.t) (w : World),
    mirrors built -> refsBelow (nextRef w) built ->
    raw (label built) = Props.tree p ->
    let current := fst (makeTreeState parse built p w) in
    isTreeVisible current
    = existsb (isLeafVisible current)
        (map getNodeId (getLeaves (Props.tree p))) /\
    (isActiveSearch (Props.isAdditionalFilterApplied p) (Props.isSearchable p)
       (Props.searchTerm p) = false ->
     Props.filteredList p = None -> isTreeVisible current = true) /\
    (Props.filteredList p = Some [] -> isTreeVisible current = false).
Proof.
  intros parse built p w Hm Hrefs Hraw current.
  set (visible := createIsLeafVisible parse (Props.searchPredicate p)
                    (Props.tree p) (Props.searchTerm p)
                    (Props.isAdditionalFilterApplied p) (Props.isSearchable p)
                    (Props.filteredList p)).
  pose proof (@applyProps_facts built (Props.isSelectable p)
                (Props.isSearchable p) (Props.isMultiPick p)
                (Props.searchTerm p) (Props.selectedList p)
                (Props.expandedList p) (Props.isAdditionalFilterApplied p)
                visible None w (mirrors_wellFormed Hm) Hrefs)
    as (Hok & Hwf & _).
  destruct (@applyProps_leaves built (Props.isSelectable p)
              (Props.isSearchable p) (Props.isMultiPick p)
              (Props.searchTerm p) (Props.selectedList p)
              (Props.expandedList p) (Props.isAdditionalFilterApplied p)
              visible None w Hm Hrefs) as [Hids _].
  pose proof (@visible_by_leaves _ _ _ _ _ _ _ _ _ _ Hok Hwf) as Hvis.
  rewrite <- existsb_map', Hids, Hraw in Hvis.
  assert (Hcur : isTreeVisible current
                 = existsb visible (map getNodeId (getLeaves (Props.tree p)))
                 /\ isLeafVisible current = visible).
  { unfold current, makeTreeState, isTreeVisible. fold visible.
    unfold visibleNode in Hvis.
    destruct (applyPropsToStatefulTree built _ _ _ _ _ _ _ visible None w)
      as [generatedTreeState w'].
    cbn [fst generated isLeafVisible] in *. split; [exact Hvis|reflexivity]. }
  destruct Hcur as [Hshown Hfn]. rewrite Hfn.
  split; [exact Hshown|]. rewrite Hshown. split.
  - intros Hidle Hnone. unfold visible, createIsLeafVisible.
    rewrite Hidle, Hnone. cbn [negb andb isProvided].
    apply existsb_all. intros Hnil. apply map_eq_nil in Hnil.
    exact (getLeaves_nonempty _ Hnil).
  - intros Hempty.
    rewrite (existsb_ext_in visible (fun _ => false)); [apply existsb_none|].
    intros x _. apply not_true_is_false. intros Hx.
    unfold visible in Hx. rewrite Hempty in Hx.
    apply visible_by_walk in Hx; [|apply andb_false_r].
    destruct Hx as (q & l & _ & _ & _ & _ & Hpass).
    discriminate Hpass.
Qed.

Lemma X17_witness :
  let p := C2_props ["leaf1"] in
  let current := fst (makeTreeState C2_parse sampleStateful p sampleWorld) in
  mirrors sampleStateful /\
  refsBelow (nextRef sampleWorld) sampleStateful /\
  raw (label sampleStateful) = Props.tree p /\
  isTreeVisible current
  = existsb (isLeafVisible current) (map getNodeId (getLeaves (Props.tree p))).
Proof.
  intros p current.
  split; [exact sample_mirrors|]. split; [exact sample_refsBelow|].
  split; [reflexivity|].
  exact (proj1 (@X17_tree_is_visible_iff_some_leaf_is C2_parse
                  sampleStateful p sampleWorld sample_mirrors
                  sample_refsBelow eq_refl)).
Defined.

(** ** The controller over time *)

Lemma RawNode_eqb_eq (a : RawNode) : forall b, RawNode_eqb a b = true -> a = b.
Proof.
  induction a as [x xs IH] using Tree_ind'. intros [y ys] H.
  cbn [RawNode_eqb] in H. apply andb_true_iff in H as [Hxy Hall].
  apply String.eqb_eq in Hxy. subst y. f_equal.
  revert ys Hall. induction xs as [|c xs IHxs]; intros [|d ys] Hall;
    try discriminate Hall; [reflexivity|].
  inversion IH as [|? ? Hc Hxs]; subst.
  apply andb_true_iff in Hall as [Hcd Hall].
  f_equal; [apply Hc, Hcd|apply (IHxs Hxs), Hall].
Qed.

Lemma makeTreeState_world parse t p w :
  wellFormed t -> refsBelow (nextRef w) t ->
  nextRef w <= nextRef (snd (makeTreeState parse t p w)).
Proof.
  intros Hwf Hrefs. unfold makeTreeState.
  pose proof (@applyProps_facts t (Props.isSelectable p)
                (Props.isSearchable p) (Props.isMultiPick p)
                (Props.searchTerm p) (Props.selectedList p)
                (Props.expandedList p) (Props.isAdditionalFilterApplied p)
                (createIsLeafVisible parse (Props.searchPredicate p)
                   (Props.tree p) (Props.searchTerm p)
                   (Props.isAdditionalFilterApplied p) (Props.isSearchable p)
                   (Props.filteredList p))
                None w Hwf Hrefs) as (_ & _ & _ & _ & _ & Hle & _).
  destruct (applyPropsToStatefulTree t _ _ _ _ _ _ _ _ None w) as [g w'].
  exact Hle.
Qed.

Lemma liesOver_mono t q w w' :
  nextRef w <= nextRef w' -> liesOver t q w -> liesOver t q w'.
Proof.
  intros Hle (Hm & Hraw & Hrefs).
  split; [exact Hm|]. split; [exact Hraw|].
  eapply refsBelow_mono; eassumption.
Qed.

(** [inForce] reads the timer, the clock and the exposed state only. *)
Lemma inForce_later parse h h' q t :
  pending h' = pending h -> treeState h' = treeState h ->
  clock h <= clock h' ->
  inForce parse h q t -> inForce parse h' q t.
Proof.
  intros Hp Hs Hc. unfold inForce, upToDate. rewrite Hp, Hs.
  destruct (pending h) as [tm|]; [|tauto].
  intros (H1 & H2 & H3 & H4). repeat split; try assumption. lia.
Qed.

Lemma performUpdate_inForce parse t q h :
  liesOver t q (world h) -> pending h = None ->
  let h' := performUpdate parse t q h in
  inForce parse h' q t /\
  nextRef (world h) <= nextRef (world h') /\
  props h' = props h /\ memoTree h' = memoTree h.
Proof.
  intros (Hm & Hraw & Hrefs) Hnone h'. subst h'. unfold performUpdate.
  pose proof (@makeTreeState_world parse t q (world h)
                (mirrors_wellFormed Hm) Hrefs) as Hle.
  destruct (makeTreeState parse t q (world h)) as [ts w'] eqn:E.
  cbn [snd] in Hle. unfold inForce. cbn [pending world props memoTree].
  rewrite Hnone. split; [|repeat split; exact Hle].
  exists (world h). cbn [treeState]. split; [exact Hrefs|now rewrite E].
Qed.

Lemma runEffect_consistent parse h :
  liesOver (memoTree h) (props h) (world h) -> pending h = None ->
  consistent parse (mkComponent (runEffect parse h) None).
Proof.
  intros Hover Hnone. unfold runEffect.
  destruct (0 <? String.length (Props.searchTerm (props h))) eqn:E.
  - unfold consistent, servedProps, servedTree, inForce.
    cbn [hook lastEffect memoTree props world pending timerTree timerProps
         fireAt clock].
    split; [exact Hover|]. split; [exact Hover|].
    repeat split; [|apply le_n].
    intros Hterm. apply nonempty_term in Hterm. congruence.
  - destruct (@performUpdate_inForce parse (memoTree h) (props h) h Hover
                Hnone) as (Hforce & Hle & Hprops & Hmemo).
    unfold consistent, servedProps, servedTree. cbn [hook lastEffect].
    rewrite Hprops, Hmemo.
    split; [eapply liesOver_mono; eassumption|].
    split; [eapply liesOver_mono; eassumption|exact Hforce].
Qed.

Lemma runEffects_consistent parse c :
  consistent parse c ->
  consistent parse (mkComponent (runEffects parse c) None).
Proof.
  intros (Hover & Hserved & Hforce). unfold runEffects.
  destruct c as [h [[q t]|]]; cbn [hook lastEffect] in *.
  - apply (@runEffect_consistent parse (cancel h)); [exact Hover|reflexivity].
  - unfold consistent. cbn [hook].
    split; [exact Hover|]. split; [exact Hserved|exact Hforce].
Qed.

Lemma renderBy_keeps sameTree p' h :
  props (renderBy sameTree p' h) = p' /\
  clock (renderBy sameTree p' h) = clock h /\
  treeState (renderBy sameTree p' h) = treeState h /\
  pending (renderBy sameTree p' h) = pending h /\
  console (world (renderBy sameTree p' h)) = console (world h).
Proof.
  unfold renderBy. destruct (if _ && RawNode_eqb _ _ then _ else _) as [t n].
  repeat split.
Qed.

Lemma renderBy_liesOver sameTree p' h :
  liesOver (memoTree h) (props h) (world h) ->
  liesOver (memoTree (renderBy sameTree p' h)) p'
    (world (renderBy sameTree p' h)) /\
  nextRef (world h) <= nextRef (world (renderBy sameTree p' h)).
Proof.
  intros (Hm & Hraw & Hrefs). unfold renderBy, liesOver.
  destruct (sameTree && RawNode_eqb (Props.tree p') (Props.tree (props h)))
    eqn:Eeq.
  - cbn [memoTree world nextRef].
    apply andb_true_iff in Eeq as [_ Eeq].
    apply RawNode_eqb_eq in Eeq. rewrite Eeq.
    split; [|apply le_n].
    split; [exact Hm|]. split; [exact Hraw|exact Hrefs].
  - destruct (createStatefulTree (Props.tree p') (nextRef (world h)))
      as [t n] eqn:E.
    cbn [memoTree world nextRef].
    destruct (built_spec _ _ E) as (Hid & Hm' & Hn & Hall & _).
    split; [|lia].
    split; [exact Hm'|]. split.
    + rewrite <- (mirrors_root Hm'). exact Hid.
    + eapply Forall_impl; [|exact Hall]. cbn. intros n0 (_ & _ & Hlt).
      exact Hlt.
Qed.

Lemma rerender_consistent parse sameTree p' c :
  consistent parse c ->
  consistent parse (act parse c (Rerender sameTree p')).
Proof.
  intros Hc. apply runEffects_consistent in Hc.
  destruct Hc as (Hover & _ & Hforce).
  unfold servedProps, servedTree in Hforce. cbn [hook lastEffect] in *.
  cbn [act]. set (h := runEffects parse c) in *.
  destruct (renderBy_keeps sameTree p' h) as (Hp & Hclock & Hs & Hpend & _).
  destruct (@renderBy_liesOver sameTree p' h Hover) as [Hnew Hle].
  unfold consistent, servedProps, servedTree. cbn [hook lastEffect].
  rewrite Hp. split; [exact Hnew|].
  split; [eapply liesOver_mono; eassumption|].
  eapply inForce_later; [exact Hpend|exact Hs| |exact Hforce].
  rewrite Hclock. apply le_n.
Qed.

Lemma elapse_inForce parse d h q t :
  liesOver (memoTree h) (props h) (world h) ->
  liesOver t q (world h) ->
  inForce parse h q t ->
  let h' := elapse parse d h in
  liesOver (memoTree h') (props h') (world h') /\
  liesOver t q (world h') /\
  inForce parse h' q t.
Proof.
  intros Hover Hserved Hforce h'. subst h'. unfold elapse.
  destruct (pending h) as [tm|] eqn:Ep.
  - pose proof Hforce as Htimer. unfold inForce in Htimer.
    rewrite Ep in Htimer. destruct Htimer as (Htree & Hprops & Hterm & Hdue).
    destruct (fireAt tm <=? clock h + d) eqn:Efire.
    + rewrite Htree, Hprops.
      destruct (@performUpdate_inForce parse t q
                  (mkHook (props h) (memoTree h) (treeState h) None
                     (clock h + d) (world h)) Hserved eq_refl)
        as (Hnow & Hle & Hp & Hmemo).
      cbn [world props memoTree] in Hle, Hp, Hmemo. rewrite Hp, Hmemo.
      split; [eapply liesOver_mono; eassumption|].
      split; [eapply liesOver_mono; eassumption|exact Hnow].
    + cbn [memoTree props world].
      split; [exact Hover|]. split; [exact Hserved|].
      eapply inForce_later; [| | |exact Hforce];
        cbn [pending treeState clock]; [now rewrite Ep|reflexivity|lia].
  - cbn [memoTree props world].
    split; [exact Hover|]. split; [exact Hserved|].
    eapply inForce_later; [| | |exact Hforce];
      cbn [pending treeState clock]; [now rewrite Ep|reflexivity|lia].
Qed.

Lemma pause_consistent parse d c :
  consistent parse c -> consistent parse (act parse c (Pause d)).
Proof.
  intros (Hover & Hserved & Hforce).
  destruct c as [h [[q t]|]];
    unfold consistent, servedProps, servedTree in *;
    cbn [act hook lastEffect] in *.
  - apply elapse_inForce; assumption.
  - destruct (@elapse_inForce parse d h (props h) (memoTree h) Hover Hserved
                Hforce) as (H1 & H2 & H3).
    assert (Hsame : props (elapse parse d h) = props h /\
                    memoTree (elapse parse d h) = memoTree h).
    { unfold elapse. destruct (pending h) as [tm|]; [|split; reflexivity].
      destruct (fireAt tm <=? clock h + d); [|split; reflexivity].
      unfold performUpdate. cbn [world].
      destruct (makeTreeState parse _ _ _) as [ts w']. split; reflexivity. }
    destruct Hsame as [Hp Hmemo]. rewrite Hp, Hmemo in *.
    split; [exact H1|]. split; [exact H2|exact H3].
Qed.

Lemma mounted_consistent parse p w : consistent parse (mounted parse p w).
Proof.
  unfold mounted.
  destruct (createStatefulTree (Props.tree p) (nextRef w)) as [t n] eqn:E.
  destruct (built_spec _ _ E) as (Hid & Hm & _ & Hall & _).
  assert (Hrefs : refsBelow n t).
  { eapply Forall_impl; [|exact Hall]. cbn. intros n0 (_ & _ & Hlt).
    exact Hlt. }
  pose proof (@makeTreeState_world parse t p (mkWorld n (console w))
                (mirrors_wellFormed Hm) Hrefs) as Hle.
  destruct (makeTreeState parse t p (mkWorld n (console w))) as [ts w']
    eqn:Ets.
  cbn [snd nextRef] in Hle.
  assert (Hover : liesOver t p w').
  { split; [exact Hm|]. split.
    - rewrite <- (mirrors_root Hm). exact Hid.
    - eapply refsBelow_mono; eassumption. }
  unfold consistent, servedProps, servedTree, inForce.
  cbn [hook lastEffect memoTree props world pending].
  split; [exact Hover|]. split; [exact Hover|].
  exists (mkWorld n (console w)). cbn [treeState nextRef].
  split; [exact Hrefs|now rewrite Ets].
Qed.

Lemma act_consistent parse c a :
  consistent parse c -> consistent parse (act parse c a).
Proof.
  intros Hc. destruct a as [sameTree p'| |d].
  - apply rerender_consistent, Hc.
  - apply runEffects_consistent, Hc.
  - apply pause_consistent, Hc.
Qed.

Lemma acts_consistent parse actions : forall c,
  consistent parse c -> consistent parse (acts parse actions c).
Proof.
  unfold acts. induction actions as [|a actions IH]; intros c Hc;
    [exact Hc|].
  cbn [fold_left]. apply IH, act_consistent, Hc.
Qed.

(** The effect of the first render gives the mounted hook; a render pass
    in which a tree with the same nodes is the same object is [render]; and
    such a render followed by its effect is one change of the inputs. *)
Lemma effects_of_a_render parse :
  (forall p w, runEffects parse (mounted parse p w) = mount parse p w) /\
  (forall p' h, renderBy true p' h = render p' h) /\
  (forall p' h,
     act parse (act parse (mkComponent h None) (Rerender true p')) Effects
     = mkComponent (inputChange parse p' h) None).
Proof.
  split; [|split].
  - intros p w. unfold mounted, mount.
    destruct (createStatefulTree (Props.tree p) (nextRef w)) as [t n].
    destruct (makeTreeState parse t p (mkWorld n (console w))) as [ts w'].
    reflexivity.
  - intros p' h. reflexivity.
  - intros p' h. reflexivity.
Qed.

(** X18.  In every state the hook can expose - after the first render,
    renders with changed inputs, their effects and pauses in any order, the
    render that receives new props, before its effect has run, included -
    the memoized tree lies over the caller's current tree, and the timer
    and the exposed state belong to the props whose effect ran last (the
    current props once the effect of the latest render has run, the props
    of the render before until then): a pending timer was set for those
    props over their memoized tree, only with a search term that is not
    empty, and is due within the delay; with no timer pending the exposed
    state is the one computed from those props.  A render that receives
    new props returns the state and keeps the timer of before, so what it
    exposes is still the state of the props before. *)
Theorem X18_the_controller_stays_consistent :
  forall (parse : string -> list string) (p : Props.t) (w : World)
         (actions : list Action),
    let c := acts parse actions (mounted parse p w) in
    consistent parse c /\
    forall (sameTree : bool) (p' : Props.t),
      lastEffect c = None ->
      let c' := act parse c (Rerender sameTree p') in
      props (hook c') = p' /\
      treeState (hook c') = treeState (hook c) /\
      pending (hook c') = pending (hook c) /\
      servedProps c' = props (hook c) /\
      servedTree c' = memoTree (hook c).
Proof.
  intros parse p w actions c.
  split; [apply acts_consistent, mounted_consistent|].
  intros sameTree p' Hrun c'. subst c'. cbn [act hook].
  unfold runEffects, servedProps, servedTree. rewrite Hrun.
  cbn [lastEffect].
  destruct (renderBy_keeps sameTree p' (hook c)) as (Hp & _ & Hs & Hpend & _).
  repeat split; assumption.
Qed.

Lemma X18_witness :
  let typed selected :=
    Props.mk sampleTree "" (fun _ _ => true) None true (Some true)
      (Some true) selected None None in
  let c := acts C2_parse [Effects]
             (mounted C2_parse (typed []) (mkWorld 0 [])) in
  let c' := act C2_parse c (Rerender false (typed ["leaf1"])) in
  lastEffect c = None /\
  consistent C2_parse c' /\
  Props.selectedList (props (hook c')) = ["leaf1"] /\
  treeState (hook c') = treeState (hook c) /\
  Props.selectedList (servedProps c') = [].
Proof.
  intros typed c c'.
  destruct (@X18_the_controller_stays_consistent C2_parse (typed [])
              (mkWorld 0 []) [Effects]) as [_ Hpass].
  destruct (@X18_the_controller_stays_consistent C2_parse (typed [])
              (mkWorld 0 []) [Effects; Rerender false (typed ["leaf1"])])
    as [Hc' _].
  destruct (Hpass false (typed ["leaf1"]) eq_refl)
    as (Hp & Hs & _ & Hserved & _).
  fold c in Hs, Hp, Hserved. fold c' in Hs, Hp, Hserved.
  split; [reflexivity|]. split; [exact Hc'|].
  split; [now rewrite Hp|]. split; [exact Hs|].
  now rewrite Hserved.
Defined.








(** X20.  In every state the hook can expose, whenever no timer is
    pending the exposed tree is the tree of the props whose effect ran last
    (the current props once the effect of the latest render has run; in the
    render that receives new props, still the props before), node for node,
    with the leaves in the state those props call for: a leaf is selected
    exactly when selection is enabled and its id is in their selection
    (after the single-pick trim), and visible exactly when their visibility
    function accepts its id. *)
Theorem X20_with_no_timer_pending_the_served_props_are_shown :
  forall (parse : string -> list string) (p : Props.t) (w : World)
         (actions : list Action),
    let c := acts parse actions (mounted parse p w) in
    pending (hook c) = None ->
    let served := servedProps c in
    let shown := statefulTree (generated (treeState (hook c))) in
    let visible :=
      createIsLeafVisible parse (Props.searchPredicate served)
        (Props.tree served) (Props.searchTerm served)
        (Props.isAdditionalFilterApplied served) (Props.isSearchable served)
        (Props.filteredList served) in
    (lastEffect c = None -> served = props (hook c)) /\
    idTree shown = Props.tree served /\
    mirrors shown /\
    isLeafVisible (treeState (hook c)) = visible /\
    map nodeId (leafNodes shown)
    = map getNodeId (getLeaves (Props.tree served)) /\
    Forall (fun l =>
              selectedNode l
              = Js.truthy (Props.isSelectable served)
                && Js.has (effectiveSelection (Props.isMultiPick served)
                             (Props.selectedList served)) (nodeId l) /\
              visibleNode l = visible (nodeId l))
           (leafNodes shown).
Proof.
  intros parse p w actions c Hnone served shown visible.
  split.
  { intros Hrun. unfold served, servedProps. now rewrite Hrun. }
  destruct (@acts_consistent parse actions (mounted parse p w)
              (mounted_consistent parse p w))
    as (_ & (Hm & Hraw & _) & Hforce).
  fold c in Hm, Hraw, Hforce. fold served in Hraw, Hforce.
  unfold inForce in Hforce. rewrite Hnone in Hforce.
  destruct Hforce as (w0 & Hrefs & Hts).
  set (t := servedTree c) in *.
  pose proof (@applyProps_facts t (Props.isSelectable served)
                (Props.isSearchable served) (Props.isMultiPick served)
                (Props.searchTerm served) (Props.selectedList served)
                (Props.expandedList served)
                (Props.isAdditionalFilterApplied served)
                visible None w0 (mirrors_wellFormed Hm) Hrefs)
    as (_ & _ & Hsk & _ & _ & _ & _ & _ & Hm').
  specialize (Hm' Hm).
  destruct (@applyProps_leaves t (Props.isSelectable served)
              (Props.isSearchable served) (Props.isMultiPick served)
              (Props.searchTerm served) (Props.selectedList served)
              (Props.expandedList served)
              (Props.isAdditionalFilterApplied served)
              visible None w0 Hm Hrefs) as [Hids Hleaves].
  assert (Hshown : shown
                   = statefulTree
                       (fst (applyPropsToStatefulTree t
                               (Props.isSelectable served)
                               (Props.isSearchable served)
                               (Props.isMultiPick served)
                               (Props.searchTerm served)
                               (Props.selectedList served)
                               (Props.expandedList served)
                               (Props.isAdditionalFilterApplied served)
                               visible None w0))
                   /\ isLeafVisible (treeState (hook c)) = visible).
  { unfold shown. rewrite Hts. unfold makeTreeState. fold visible.
    destruct (applyPropsToStatefulTree t _ _ _ _ _ _ _ visible None w0)
      as [g w']. split; reflexivity. }
  destruct Hshown as [-> Hvis].
  split; [|split; [exact Hm'|split; [exact Hvis|split]]].
  - rewrite <- Hraw, <- (mirrors_root Hm). unfold idTree.
    rewrite <- (tmap_tmap raw getNodeId), <- (tmap_tmap raw getNodeId t).
    unfold skeleton in Hsk. now rewrite Hsk.
  - now rewrite Hids, Hraw.
  - apply Forall_forall. intros l Hl.
    destruct (Hleaves l Hl) as (Hs & Hv & _). split; assumption.
Qed.

Lemma X20_witness :
  let typed selected :=
    Props.mk sampleTree "" (fun _ _ => true) None true (Some true)
      (Some true) selected None None in
  let rendered :=
    acts C2_parse [Effects; Rerender true (typed ["leaf1"])]
      (mounted C2_parse (typed []) (mkWorld 0 [])) in
  let settled := act C2_parse rendered Effects in
  let leaves c :=
    map selectedNode
      (leafNodes (statefulTree (generated (treeState (hook c))))) in
  pending (hook rendered) = None /\
  Props.selectedList (props (hook rendered)) = ["leaf1"] /\
  leaves rendered = [false; false; false] /\
  pending (hook settled) = None /\
  leaves settled = [true; false; false].
Proof.
  intros typed rendered settled leaves.
  assert (Hr : pending (hook rendered) = None) by reflexivity.
  assert (Hs : pending (hook settled) = None) by reflexivity.
  destruct (@X20_with_no_timer_pending_the_served_props_are_shown C2_parse
              (typed []) (mkWorld 0 [])
              [Effects; Rerender true (typed ["leaf1"])] Hr)
    as (_ & _ & _ & _ & _ & Hstale).
  destruct (@X20_with_no_timer_pending_the_served_props_are_shown C2_parse
              (typed []) (mkWorld 0 [])
              [Effects; Rerender true (typed ["leaf1"]); Effects] Hs)
    as (_ & _ & _ & _ & _ & Hfresh).
  fold rendered in Hstale.
  change (acts C2_parse [Effects; Rerender true (typed ["leaf1"]); Effects]
            (mounted C2_parse (typed []) (mkWorld 0 [])))
    with settled in Hfresh.
  rewrite Forall_forall in Hstale, Hfresh.
  split; [exact Hr|]. split; [reflexivity|]. split; [|split; [exact Hs|]].
  - unfold leaves.
    change (leafNodes (statefulTree (generated (treeState (hook rendered)))))
      with [nth 0 (leafNodes (statefulTree
                                (generated (treeState (hook rendered)))))
              sampleStateful;
            nth 1 (leafNodes (statefulTree
                                (generated (treeState (hook rendered)))))
              sampleStateful;
            nth 2 (leafNodes (statefulTree
                                (generated (treeState (hook rendered)))))
              sampleStateful].
    cbn [map].
    rewrite !(fun l Hl => proj1 (Hstale l Hl)) by (cbn; tauto).
    reflexivity.
  - unfold leaves.
    change (leafNodes (statefulTree (generated (treeState (hook settled)))))
      with [nth 0 (leafNodes (statefulTree
                                (generated (treeState (hook settled)))))
              sampleStateful;
            nth 1 (leafNodes (statefulTree
                                (generated (treeState (hook settled)))))
              sampleStateful;
            nth 2 (leafNodes (statefulTree
                                (generated (treeState (hook settled)))))
              sampleStateful].
    cbn [map].
    rewrite !(fun l Hl => proj1 (Hfresh l Hl)) by (cbn; tauto).
    reflexivity.
Defined.

(** ** The returned expansion list *)

Lemma NoDup_add s x : NoDup s -> NoDup (Js.add s x).
Proof.
  intros H. unfold Js.add. destruct (Js.has s x) eqn:E; [exact H|].
  assert (Hx : ~ In x s).
  { intros Hin. apply has_In in Hin. congruence. }
  clear E. induction H as [|y l Hy Hl IH]; cbn [app].
  - constructor; [intros []|constructor].
  - constructor.
    + intros Hin. apply in_app_or in Hin as [Hin|[<-|[]]];
        [exact (Hy Hin)|apply Hx; now left].
    + apply IH. intros Hin. apply Hx. now right.
Qed.

Lemma reconcile_nodup isSelectable isSearchable isMultiPick searchTerm
    isAdditionalFilterApplied isLeafVisible provided selectedSet expandedSet
    t :
  forall s,
    NoDup (generatedExpandedList s) ->
    NoDup (generatedExpandedList
             (snd (reconcile isSelectable isSearchable isMultiPick searchTerm
                     isAdditionalFilterApplied isLeafVisible provided
                     selectedSet expandedSet t s))).
Proof.
  induction t as [a cs IH] using Tree_ind'. intros s Hnd.
  unfold reconcile in *. rewrite mapStructure_eq. unfold bind at 1.
  set (run := mapStructure
                (mapFunction isSelectable isSearchable isMultiPick searchTerm
                   isAdditionalFilterApplied isLeafVisible provided
                   selectedSet expandedSet)) in *.
  assert (Hkids : NoDup (generatedExpandedList (snd (mapM run cs s)))).
  { clear a. revert s Hnd.
    induction cs as [|c cs IHcs]; intros s Hnd; [exact Hnd|].
    inversion IH as [|? ? Hc Hcs]; subst.
    cbn [mapM]. unfold bind.
    specialize (Hc s Hnd). destruct (run c s) as [c' s1]. cbn [snd] in Hc.
    specialize (IHcs Hcs s1 Hc). destruct (mapM run cs s1) as [ms s2].
    exact IHcs. }
  destruct (mapM run cs s) as [ms s1]. cbn [snd] in Hkids.
  unfold mapFunction.
  destruct (nodeIsLeaf (Tr a cs)).
  - match goal with |- context [if ?c then _ else _] => destruct c end;
      exact Hkids.
  - unfold bind.
    match goal with
    | |- context [if negb provided && ?e then _ else _] =>
        destruct (negb provided && e)
    end;
      unfold noteExpanded, ret;
      match goal with |- context [if ?c then _ else _] => destruct c end;
      cbn; try apply NoDup_add; exact Hkids.
Qed.

(** X21.  The expansion list a reconciliation returns never holds an id
    twice, whether it comes from the caller's list or from the branches the
    engine expanded itself, also when several branches share an id. *)
Theorem X21_the_returned_expansion_list_has_no_repetition :
  forall (root : StatefulNode)
         (isSelectable : Js.obool) (isSearchable : bool)
         (isMultiPick : Js.obool) (searchTerm : string)
         (selectedList : list string)
         (propsExpandedList : option (list string))
         (isAdditionalFilterApplied : Js.obool)
         (isLeafVisible : string -> bool)
         (stateExpandedList : option (list string)) (w : World),
    NoDup
      (expandedList
         (fst (applyPropsToStatefulTree root isSelectable isSearchable
                 isMultiPick searchTerm selectedList propsExpandedList
                 isAdditionalFilterApplied isLeafVisible stateExpandedList
                 w))).
Proof.
  intros root isSelectable isSearchable isMultiPick searchTerm selectedList
    propsExpandedList isAdditionalFilterApplied isLeafVisible
    stateExpandedList w.
  unfold applyPropsToStatefulTree, applyPropsRun.
  pose proof (@reconcile_nodup isSelectable isSearchable isMultiPick
                searchTerm isAdditionalFilterApplied isLeafVisible
                (isProvided
                   (chosenExpandedList propsExpandedList stateExpandedList))
                (Js.set_of (fst (trimSelected isMultiPick selectedList)))
                (Js.set_of
                   (orEmpty
                      (chosenExpandedList propsExpandedList
                         stateExpandedList)))
                root (mkMapState (nextRef w) []) (NoDup_nil _)) as Hgen.
  destruct (reconcile _ _ _ _ _ _ _ _ _ root _) as [t' s'].
  cbn [fst snd expandedList] in *. unfold Js.array_from.
  destruct (isProvided _); [|exact Hgen].
  rewrite set_of_keepFirst. apply NoDup_keepFirst.
Qed.
